(** * Content-based book recommendations

    A shallow embedding of [recommended_books]
    (Book_recommendation/backend/books/views.py) and of the helpers it
    closes over ([jaccard], [clamp01]), with the Python built-ins the view
    relies on ([int], [min], [max], [str.strip], [str.lower], [sorted] and
    [list.sort] with [reverse=True], tuple comparison, [x or default]).

    Numbers are the code's: Python [float] is IEEE 754 binary64, which is
    Rocq's primitive [float], so a score computed here is bit for bit the
    score CPython computes.  Query sets are lists in the order the database
    returns the rows; one snapshot of the [Book] table serves every query of
    a request.  A [None] result stands for the unhandled [TypeError] that
    comparing [None] with a float raises inside [list.sort].

    Scope of the built-ins: text is ASCII.  [strip], [lower] and [int] are
    the built-ins on a [str] for which [isascii()] holds; the statements
    that turn on what they return for a text the caller chooses (the value
    of the limit, the excluded ids, the stored e-mail address) carry that
    hypothesis.  [int] is the one of CPython 3.11 and later, which refuses
    more than 4300 digits.  [sorted] is the stable descending order, which
    is what CPython computes whenever the keys are totally ordered, that
    is, when no key is a NaN; the statement about the order of the cold
    start carries that hypothesis. *)

From Stdlib Require Import Floats ZArith Lia Ascii.
From Stdlib Require Uint63.
From stdpp Require Import gmap strings list sorting.

Set Warnings "-inexact-float".

(** ** Python built-ins *)

Module Py.

(** [x or d] where [x] may be [None] and [falsy] says which values of the
    type count as false. *)
Definition or_else {A} (falsy : A → bool) (x : option A) (d : A) : A :=
  match x with
  | Some v => if falsy v then d else v
  | None => d
  end.

Definition float_falsy (x : float) : bool := (x =? 0)%float.
Definition str_falsy (s : string) : bool := bool_decide (s = "").
Definition list_falsy {A} (l : list A) : bool :=
  match l with [] => true | _ => false end.

(** [min(a, b)] and [max(a, b)] keep the first argument unless the second
    is strictly smaller (larger): a NaN never replaces, and is replaced. *)
Definition float_min (a b : float) : float := if (b <? a)%float then b else a.
Definition float_max (a b : float) : float := if (a <? b)%float then b else a.

(** [len(s)] as a float operand of [/] (exact below 2^53). *)
Definition float_of_nat (n : nat) : float :=
  PrimFloat.of_uint63 (Uint63.of_Z (Z.of_nat n)).

(** [s.isascii()]. *)
Fixpoint isascii (s : string) : bool :=
  match s with
  | String c s' => (Ascii.nat_of_ascii c <? 128)%nat && isascii s'
  | EmptyString => true
  end.

(** Whitespace as [str.strip] sees it, on ASCII text. *)
Definition is_space (c : ascii) : bool :=
  let n := Ascii.nat_of_ascii c in
  (n =? 32)%nat || ((9 <=? n)%nat && (n <=? 13)%nat) || ((28 <=? n)%nat && (n <=? 31)%nat).

Fixpoint lstrip (s : string) : string :=
  match s with
  | String c s' => if is_space c then lstrip s' else s
  | EmptyString => EmptyString
  end.

Definition strip (s : string) : string :=
  String.rev (lstrip (String.rev (lstrip s))).

Definition lower_char (c : ascii) : ascii :=
  let n := Ascii.nat_of_ascii c in
  if (65 <=? n)%nat && (n <=? 90)%nat then Ascii.ascii_of_nat (n + 32) else c.

Fixpoint lower (s : string) : string :=
  match s with
  | String c s' => String (lower_char c) (lower s')
  | EmptyString => EmptyString
  end.

Definition digit_value (c : ascii) : option Z :=
  let n := Ascii.nat_of_ascii c in
  if (48 <=? n)%nat && (n <=? 57)%nat then Some (Z.of_nat (n - 48)) else None.

(** Digits of a decimal literal; a single underscore may separate two
    digits.  [need_digit] holds at the start and after an underscore. *)
Fixpoint int_digits (acc : Z) (need_digit : bool) (s : string) : option Z :=
  match s with
  | EmptyString => if need_digit then None else Some acc
  | String c s' =>
      match digit_value c with
      | Some d => int_digits (10 * acc + d)%Z false s'
      | None =>
          if bool_decide (c = "_"%char) && negb need_digit
          then int_digits acc true s'
          else None
      end
  end.

(** Whitespace as [int] skips it around the literal of an ASCII [str]:
    the blank and [\t \n \v \f \r], not the separators 28 to 31 that
    [str.strip] removes. *)
Definition int_space (c : ascii) : bool :=
  let n := Ascii.nat_of_ascii c in
  (n =? 32)%nat || ((9 <=? n)%nat && (n <=? 13)%nat).

Fixpoint int_lstrip (s : string) : string :=
  match s with
  | String c s' => if int_space c then int_lstrip s' else s
  | EmptyString => EmptyString
  end.

Definition int_strip (s : string) : string :=
  String.rev (int_lstrip (String.rev (int_lstrip s))).

(** The digits of a literal, underscores apart. *)
Fixpoint count_digits (s : string) : nat :=
  match s with
  | String c s' => match digit_value c with
                   | Some _ => S (count_digits s')
                   | None => count_digits s'
                   end
  | EmptyString => 0
  end.

(** [sys.int_info.default_max_str_digits]. *)
Definition max_str_digits : nat := 4300.

(** The literal after its sign: longer than [max_str_digits] digits it is
    refused. *)
Definition int_literal (s : string) : option Z :=
  if (max_str_digits <? count_digits s)%nat then None else int_digits 0 true s.

(** [int(s)] for a [str]: [None] is [ValueError]. *)
Definition int (s : string) : option Z :=
  match int_strip s with
  | String "-" s' => Z.opp <$> int_literal s'
  | String "+" s' => int_literal s'
  | s' => int_literal s'
  end.

(** Comparison of 2-tuples, [x < y]: the first position where the
    elements are not [==] decides, by [<] there; two tuples equal at both
    positions are not less.  [None] is a [TypeError] raised by [<]. *)
Definition tuple_lt {A B}
    (eqA : A → A → bool) (ltA : A → A → option bool)
    (eqB : B → B → bool) (ltB : B → B → option bool)
    (x y : A * B) : option bool :=
  if eqA x.1 y.1
  then if eqB x.2 y.2 then Some false else ltB x.2 y.2
  else ltA x.1 y.1.

Definition float_eq (x y : float) : bool := (x =? y)%float.
Definition float_lt (x y : float) : option bool := Some (x <? y)%float.

(** A float-or-[None] attribute: [None == None], and [<] between [None]
    and anything is a [TypeError]. *)
Definition optfloat_eq (x y : option float) : bool :=
  match x, y with
  | Some a, Some b => (a =? b)%float
  | None, None => true
  | _, _ => false
  end.
Definition optfloat_lt (x y : option float) : option bool :=
  match x, y with
  | Some a, Some b => Some (a <? b)%float
  | _, _ => None
  end.

(** [sorted(l, key=key, reverse=True)]: a stable sort into descending key
    order that only ever asks [key x < key y].  An element moves behind
    another one only when its key is strictly smaller, so elements with
    equal keys keep their order.  Where [<] orders the keys, a list has one
    stable descending arrangement, and this is it, whichever way the sort
    proceeds; with a NaN among the keys [<] orders nothing, the outcome
    depends on the steps CPython takes, and no statement is made. *)
Section Sorted.
Context {A K : Type}.
Variable key : A → K.
Variable lt : K → K → option bool.

Fixpoint insert_desc (x : A) (l : list A) : option (list A) :=
  match l with
  | [] => Some [x]
  | y :: l' =>
      c ← lt (key x) (key y);
      if c : bool then cons y <$> insert_desc x l' else Some (x :: y :: l')
  end.

Fixpoint sorted_desc (l : list A) : option (list A) :=
  match l with
  | [] => Some []
  | x :: l' => sorted_desc l' ≫= insert_desc x
  end.
End Sorted.

End Py.

(** ** Models (books/models.py) *)

(** An entry of a [JSONField] list. *)
Inductive json : Type :=
  | JNull
  | JBool (b : bool)
  | JNum (n : Z)
  | JStr (s : string).

Module Book.
(** The attributes of a [Book] row that the view reads.  Each may be
    [None] at run time, which is what the view's [or] defaults are for. *)
Record t : Type := mk {
  id : Z;
  author : option string;
  rating : option float;
  liked_percentage : option float;
  genres : option (list json);
  language : option string;
}.
End Book.

Module User.
Record t : Type := mk {
  favorite_genres : list string;   (* names of the related Genre rows *)
  preferred_language : option string;
  saved_book_ids : option (list Z);
}.
End User.

(** ** The view (books/views.py, [recommended_books]) *)

(** [limit = int(request.GET.get('limit', 4))], 4 on [ValueError]. *)
Definition parse_limit (param : option string) : Z :=
  match param with
  | None => 4
  | Some s => default 4%Z (Py.int s)
  end.

(** [limit = max(1, min(limit, 24))]. *)
Definition clamp_limit (limit : Z) : Z := Z.max 1 (Z.min limit 24).

Definition effective_limit (param : option string) : Z :=
  clamp_limit (parse_limit param).

(** [[g for g in (genres or []) if isinstance(g, str)]]. *)
Definition str_entries (genres : option (list json)) : list string :=
  omap (λ g, match g with JStr s => Some s | _ => None end)
       (Py.or_else Py.list_falsy genres []).

Definition jaccard (a b : gset string) : float :=
  if bool_decide (a = ∅) && bool_decide (b = ∅) then 0%float
  else
    let inter := a ∩ b in
    let union := a ∪ b in
    if bool_decide (union = ∅) then 0%float
    else (Py.float_of_nat (size inter) / Py.float_of_nat (size union))%float.

(** [0.0 if x is None else max(0.0, min(1.0, float(x)))]. *)
Definition clamp01 (x : option float) : float :=
  match x with
  | None => 0%float
  | Some x => Py.float_max 0 (Py.float_min 1 x)
  end.

(** The user signals gathered at the top of the view. *)
Record signals : Type := mk_signals {
  favorite_genres : gset string;
  preferred_language : string;
  saved_ids : gset Z;
  saved_authors : gset string;
  saved_genres_union : gset string;
}.

(** [Book.objects.filter(id__in=ids)] and [Book.objects.exclude(id__in=ids)]. *)
Definition filter_id_in (ids : gset Z) (catalog : list Book.t) : list Book.t :=
  filter (λ b, Book.id b ∈ ids) catalog.
Definition exclude_id_in (ids : gset Z) (catalog : list Book.t) : list Book.t :=
  filter (λ b, Book.id b ∉ ids) catalog.

Definition gather_signals (user : User.t) (catalog : list Book.t) : signals :=
  let saved_ids : gset Z :=
    list_to_set (Py.or_else Py.list_falsy (User.saved_book_ids user) []) in
  let saved_books_list :=
    if bool_decide (saved_ids = ∅) then [] else filter_id_in saved_ids catalog in
  {| favorite_genres := list_to_set (User.favorite_genres user);
     preferred_language :=
       Py.lower (Py.strip (Py.or_else Py.str_falsy (User.preferred_language user) ""));
     saved_ids := saved_ids;
     saved_authors :=
       list_to_set (omap (λ b, match Book.author b with
                               | Some a => if Py.str_falsy a then None else Some a
                               | None => None
                               end) saved_books_list);
     saved_genres_union :=
       list_to_set (concat ((λ sb, str_entries (Book.genres sb)) <$> saved_books_list)) |}.

(** The six signals of one candidate. *)
Definition b_genres (b : Book.t) : gset string := list_to_set (str_entries (Book.genres b)).

Definition fav_genre_sim (sg : signals) (b : Book.t) : float :=
  if bool_decide (favorite_genres sg = ∅) then 0%float
  else jaccard (favorite_genres sg) (b_genres b).

Definition saved_genre_sim (sg : signals) (b : Book.t) : float :=
  if bool_decide (saved_genres_union sg = ∅) then 0%float
  else jaccard (saved_genres_union sg) (b_genres b).

Definition author_match (sg : signals) (b : Book.t) : float :=
  match Book.author b with
  | Some a =>
      if negb (Py.str_falsy a) && bool_decide (a ∈ saved_authors sg) then 1%float else 0%float
  | None => 0%float
  end.

Definition rating_norm (b : Book.t) : float :=
  clamp01 (Some (Py.or_else Py.float_falsy (Book.rating b) 0 / 5)%float).

Definition liked_norm (b : Book.t) : float :=
  clamp01 (Some (Py.or_else Py.float_falsy (Book.liked_percentage b) 0 / 100)%float).

Definition lang_match (sg : signals) (b : Book.t) : float :=
  if negb (Py.str_falsy (preferred_language sg))
     && bool_decide (Py.lower (Py.strip (Py.or_else Py.str_falsy (Book.language b) ""))
                     = preferred_language sg)
  then 1%float else 0%float.

(** The weighted sum, with the association Python gives [+]. *)
Definition blend (fav saved auth rate liked lang : float) : float :=
  (0.40 * fav + 0.20 * saved + 0.15 * auth + 0.15 * rate + 0.05 * liked + 0.05 * lang)%float.

Definition score (sg : signals) (b : Book.t) : float :=
  blend (fav_genre_sim sg b) (saved_genre_sim sg b) (author_match sg b)
        (rating_norm b) (liked_norm b) (lang_match sg b).

(** Sort keys.  [top_rated_key] is [((b.rating or 0.0), (b.liked_percentage
    or 0.0))]; [scored_key] is [(t[0], getattr(t[1], 'rating', 0.0))], whose
    second component is the raw attribute. *)
Definition top_rated_key (b : Book.t) : float * float :=
  (Py.or_else Py.float_falsy (Book.rating b) 0%float,
   Py.or_else Py.float_falsy (Book.liked_percentage b) 0%float).

Definition top_rated_lt : float * float → float * float → option bool :=
  Py.tuple_lt Py.float_eq Py.float_lt Py.float_eq Py.float_lt.

Definition scored_key (t : float * Book.t) : float * option float :=
  (t.1, Book.rating t.2).

Definition scored_lt : float * option float → float * option float → option bool :=
  Py.tuple_lt Py.float_eq Py.float_lt Py.optfloat_eq Py.optfloat_lt.

Definition sort_top_rated : list Book.t → option (list Book.t) :=
  Py.sorted_desc top_rated_key top_rated_lt.

Definition sort_scored : list (float * Book.t) → option (list (float * Book.t)) :=
  Py.sorted_desc scored_key scored_lt.

Definition book_ids (books : list Book.t) : gset Z := list_to_set (Book.id <$> books).

(** The backfill branch: [if len(books) < limit: ... books.extend(...)]. *)
Definition backfill (sg : signals) (catalog : list Book.t) (limit : Z)
    (books : list Book.t) : option (list Book.t) :=
  if bool_decide (Z.of_nat (length books) < limit)%Z then
    let needed := (limit - Z.of_nat (length books))%Z in
    let filler_candidates := exclude_id_in (saved_ids sg ∪ book_ids books) catalog in
    filler_sorted ← sort_top_rated filler_candidates;
    Some (books ++ take (Z.to_nat needed) filler_sorted)
  else Some books.

(** The body of the view after the limit is read, with the branch taken
    when fewer than [limit] books were selected as a parameter. *)
Definition recommend_with
    (fill : signals → list Book.t → Z → list Book.t → option (list Book.t))
    (user : User.t) (catalog : list Book.t) (limit : Z) : option (list Book.t) :=
  let sg := gather_signals user catalog in
  let candidates := exclude_id_in (saved_ids sg) catalog in
  let scored := (λ b, (score sg b, b)) <$> candidates in
  if bool_decide (favorite_genres sg = ∅) && bool_decide (saved_ids sg = ∅) then
    let fallback_candidates := exclude_id_in (saved_ids sg) catalog in
    fallback_sorted ← sort_top_rated fallback_candidates;
    Some (take (Z.to_nat limit) fallback_sorted)
  else
    scored_sorted ← sort_scored scored;
    let books := snd <$> take (Z.to_nat limit) scored_sorted in
    fill sg catalog limit books.

(** The view: the books handed to the serializer, or [None] when the sort
    raised. *)
Definition recommended_books (user : User.t) (catalog : list Book.t)
    (limit_param : option string) : option (list Book.t) :=
  recommend_with backfill user catalog (effective_limit limit_param).

(** The same view with the backfill branch deleted. *)
Definition recommended_books_no_backfill (user : User.t) (catalog : list Book.t)
    (limit_param : option string) : option (list Book.t) :=
  recommend_with (λ _ _ _ books, Some books) user catalog (effective_limit limit_param).

(** ** Vocabulary of the statements *)

(** [0 <= x <= 1] as Python evaluates it (false on a NaN). *)
Definition in_unit (x : float) : bool := ((0 <=? x) && (x <=? 1))%float.

(** The six signals of a candidate, in the order of the weighted sum. *)
Definition sub_scores (sg : signals) (b : Book.t) : list float :=
  [fav_genre_sim sg b; saved_genre_sim sg b; author_match sg b;
   rating_norm b; liked_norm b; lang_match sg b].

(** Sizes that [len(...)] converts to a float without rounding. *)
Definition exact_len (s : gset string) : Prop := (Z.of_nat (size s) < 2 ^ 53)%Z.

(** [x] may stand before [y] in a list sorted into descending key order:
    [key x < key y] is false. *)
Definition may_precede {A K} (key : A → K) (lt : K → K → option bool) (x y : A) : Prop :=
  lt (key x) (key y) = Some false.

(** The [rating] column is [FloatField(default=0.0)], hence NOT NULL. *)
Definition ratings_present (catalog : list Book.t) : Prop :=
  Forall (λ b, is_Some (Book.rating b)) catalog.

(** [id] is the primary key. *)
Definition unique_ids (catalog : list Book.t) : Prop := NoDup (Book.id <$> catalog).

(** What [clamp_limit] does to an integer, by cases. *)
Definition clamp_cases (n : Z) : Z :=
  if (n <? 1)%Z then 1%Z else if (24 <? n)%Z then 24%Z else n.

(** Binary64 encodings used by the rounding lemmas. *)
Definition SF_one : spec_float := S754_finite false 4503599627370496 (-52).

Definition SF_nonneg (x : spec_float) : bool :=
  match x with
  | S754_zero _ | S754_finite false _ _ | S754_infinity false => true
  | _ => false
  end.

Definition SF_unit_like (x : spec_float) : bool :=
  match x with
  | S754_zero _ | S754_finite false _ _ => true
  | _ => false
  end.

(** The exponent offset that makes every value below an integer: a
    binary64 number is a multiple of 2^-1074, and the product of two of
    them a multiple of 2^-2148. *)
Definition SF_scale : Z := 2148.

(** The value of a float, times 2^2148, the infinities beyond every
    finite value; a NaN has no value (0 here). *)
Definition SF_ord (x : spec_float) : Z :=
  match x with
  | S754_zero _ => 0
  | S754_finite s m e => (if s then -1 else 1) * (Zpos m * 2 ^ (e + SF_scale))
  | S754_infinity s => (if s then -1 else 1) * 2 ^ (SF_scale + 1100)
  | S754_nan => 0
  end%Z.

Definition float_ord (x : float) : Z := SF_ord (Prim2SF x).

(** The exponent of the unit in the last place of a value [x] (scaled),
    and [x] rounded to a multiple of that unit, to the nearest one and to
    the even one of two nearest. *)
Definition ulp_exp (x : Z) : Z := Z.max (Z.log2 x + 1 - 53) 1074.

Definition round_even (x : Z) : Z :=
  let g := (2 ^ ulp_exp x)%Z in
  let q := (x / g)%Z in
  let r := (x mod g)%Z in
  if (g <? 2 * r)%Z || ((g =? 2 * r)%Z && Z.odd q) then ((q + 1) * g)%Z else (q * g)%Z.








(** ** Sample data *)

Module Sample.
(** The worked scenario: one favourite genre, nothing saved. *)
Definition fantasy_reader : User.t :=
  User.mk ["Fantasy"] (Some "English") (Some []).
Definition book1 : Book.t :=
  Book.mk 1 (Some "") (Some 4.0%float) (Some 90%float) (Some [JStr "Fantasy"]) (Some "English").
Definition book2 : Book.t :=
  Book.mk 2 (Some "") (Some 5.0%float) (Some 95%float) (Some [JStr "Romance"]) (Some "English").
Definition two_books : list Book.t := [book1; book2].

(** A user without any signal. *)
Definition new_user : User.t := User.mk [] (Some "English") None.

(** A user who saved book 7, and a candidate that matches every signal. *)
Definition returning_reader : User.t :=
  User.mk ["Fantasy"] (Some "English") (Some [7%Z]).
Definition book7 : Book.t :=
  Book.mk 7 (Some "A. Writer") (Some 4.5%float) (Some 80%float)
          (Some [JStr "Fantasy"]) (Some "English").
Definition book8 : Book.t :=
  Book.mk 8 (Some "A. Writer") (Some 5.0%float) (Some 100%float)
          (Some [JStr "Fantasy"; JNum 3]) (Some " english ").
Definition shelf : list Book.t := [book7; book1; book8; book2].

(** The numeral of [n] nines, and a text that starts with the separator
    28, which [str.strip] removes and [int] does not accept. *)
Definition nines (n : nat) : string := Nat.iter n (String "9") EmptyString.
Definition fs_seven : string := String (Ascii.ascii_of_nat 28) "7".

End Sample.

(** * The views around the recommendations

    Saved books, the profile, the genre ranking of the dashboard, browsing
    and the accounts (registration, password reset by OTP), from
    books/views.py, books/serializers.py, books/models.py and
    books/utils.py.  A table is the list of its rows in the order of
    insertion; a view that writes returns the rows as it leaves them,
    beside its response. *)

(** ** Ranking

    The key the scored path ranks a candidate by: [(score, b.rating)]. *)
Definition ranking_key (sg : signals) (b : Book.t) : float * option float :=
  scored_key (score sg b, b).

(** ** Saved books ([get_saved_books], [toggle_save_book]) *)

(** [Book.objects.get(pk=pk)]; [None] is [Book.DoesNotExist]. *)
Definition get_book (catalog : list Book.t) (pk : Z) : option Book.t :=
  head (filter (λ b, Book.id b = pk) catalog).

(** [list(dict.fromkeys(l))]: the keys in the order of their first
    insertion. *)
Definition dict_fromkeys (l : list Z) : list Z :=
  foldl (λ keys k, if bool_decide (k ∈ keys) then keys else keys ++ [k]) [] l.

(** [{bid: i for i, bid in enumerate(ids)}]: a later position of an id
    replaces an earlier one. *)
Definition id_index (ids : list Z) : gmap Z nat :=
  foldl (λ m p, <[p.2 := p.1]> m) ∅ (imap (λ i bid, (i, bid)) ids).

(** [sorted(l, key=key)] for an integer key: stable, ascending. *)
Fixpoint insert_by_int {A} (key : A → Z) (x : A) (l : list A) : list A :=
  match l with
  | [] => [x]
  | y :: l' => if (key y <? key x)%Z then y :: insert_by_int key x l' else x :: y :: l'
  end.

Definition sorted_by_int {A} (key : A → Z) (l : list A) : list A :=
  foldr (insert_by_int key) [] l.

(** [user.saved_book_ids or []]. *)
Definition saved_list (user : User.t) : list Z :=
  Py.or_else Py.list_falsy (User.saved_book_ids user) [].

Definition get_saved_books (user : User.t) (catalog : list Book.t) : list Book.t :=
  let ids := saved_list user in
  let books := if Py.list_falsy ids then [] else filter_id_in (list_to_set ids) catalog in
  sorted_by_int (λ b, default 999999%Z (Z.of_nat <$> id_index ids !! Book.id b)) books.

(** [user.saved_book_ids = ids; user.save(update_fields=['saved_book_ids'])]. *)
Definition set_saved_book_ids (user : User.t) (ids : list Z) : User.t :=
  User.mk (User.favorite_genres user) (User.preferred_language user) (Some ids).

(** The migration of the legacy relation at the top of [toggle_save_book].
    [legacy] is [list(user.saved_books.values_list('id', flat=True))], or
    [None] when that query raises. *)
Definition migrate_legacy (user : User.t) (legacy : option (list Z)) : User.t :=
  if Py.list_falsy (saved_list user) then
    match legacy with
    | Some legacy_ids => if Py.list_falsy legacy_ids then user else set_saved_book_ids user legacy_ids
    | None => user
    end
  else user.

Inductive toggle_response : Type :=
  | Book_not_found                        (* 404 *)
  | Book_removed (saved_books : list Z)   (* 200, "Book removed from saved list" *)
  | Book_added (saved_books : list Z).    (* 200, "Book added to saved list" *)

(** The view: the user row as saved, and the response. *)
Definition toggle_save_book (user : User.t) (legacy : option (list Z))
    (catalog : list Book.t) (book_id : Z) : User.t * toggle_response :=
  match get_book catalog book_id with
  | None => (user, Book_not_found)
  | Some book =>
      let user := migrate_legacy user legacy in
      let saved := saved_list user in
      if bool_decide (Book.id book ∈ saved) then
        let saved := filter (λ bid, bid ≠ Book.id book) saved in
        (set_saved_book_ids user saved, Book_removed saved)
      else
        let saved := dict_fromkeys (saved ++ [Book.id book]) in
        (set_saved_book_ids user saved, Book_added saved)
  end.

(** ** The profile ([UserDetailSerializer.get_saved_books], books/serializers.py) *)

Module UserDetailSerializer.
(** The user row as saved, and the list the profile shows.  [legacy] is as
    in [migrate_legacy]. *)
Definition get_saved_books (obj : User.t) (legacy : option (list Z)) : User.t * list Z :=
  if negb (Py.list_falsy (saved_list obj)) then (obj, saved_list obj)
  else match legacy with
       | Some legacy_ids =>
           (if negb (Py.list_falsy legacy_ids) && Py.list_falsy (saved_list obj)
            then set_saved_book_ids obj legacy_ids
            else obj,
            legacy_ids)
       | None => (obj, [])
       end.
End UserDetailSerializer.

(** ** The dashboard ([dashboard_stats], the genre ranking) *)

(** Two entries of a [genres] list are the same key of a dict when they
    are [==]: [True == 1] and [False == 0]. *)
Definition dict_key (g : json) : option (Z + string) :=
  match g with
  | JNull => None
  | JBool b => Some (inl (if b then 1 else 0)%Z)
  | JNum n => Some (inl n)
  | JStr s => Some (inr s)
  end.

(** [genre_stats[genre] = genre_stats.get(genre, 0) + 1] on the items of
    the dict, which stand in the order in which their keys were first
    inserted; the key of an item is the object inserted first. *)
Fixpoint count_genre (genre : json) (genre_stats : list (json * Z)) : list (json * Z) :=
  match genre_stats with
  | [] => [(genre, 1%Z)]
  | (k, n) :: rest =>
      if bool_decide (dict_key k = dict_key genre) then (k, (n + 1)%Z) :: rest
      else (k, n) :: count_genre genre rest
  end.

Definition genre_stats (books : list Book.t) : list (json * Z) :=
  foldl (λ stats book,
           foldl (λ stats genre, count_genre genre stats) stats
                 (Py.or_else Py.list_falsy (Book.genres book) []))
        [] books.

(** [sorted(genre_stats.items(), key=lambda x: x[1], reverse=True)[:5]],
    then the genres of these items.  A stable sort into descending order
    is the stable ascending sort by the negated count. *)
Definition most_popular_genres (books : list Book.t) : list json :=
  fst <$> take 5 (sorted_by_int (λ x, - x.2)%Z (genre_stats books)).

(** ** Vocabulary of the dashboard statements *)

(** Every entry of every [genres] list, in the order the loop reads them. *)
Definition genre_entries (books : list Book.t) : list json :=
  mjoin ((λ book, Py.or_else Py.list_falsy (Book.genres book) []) <$> books).

(** How often [g], or a value equal to it, is an entry. *)
Definition occurrences (books : list Book.t) (g : json) : nat :=
  length (filter (λ e, dict_key e = dict_key g) (genre_entries books)).

(** ** Browsing ([explore_books]) *)

(** An index of [l[start:stop]] brought into [0, len(l)]. *)
Definition slice_bound (len i : Z) : Z :=
  if (i <? 0)%Z then Z.max 0 (i + len) else Z.min i len.

(** [l[start:stop]]. *)
Definition py_slice {A} (l : list A) (start stop : Z) : list A :=
  let len := Z.of_nat (length l) in
  let a := slice_bound len start in
  let b := slice_bound len stop in
  take (Z.to_nat (b - a)) (drop (Z.to_nat a) l).

(** [s.split(sep)] for a one-character separator; [cur] holds the
    characters of the piece being read, last one first. *)
Fixpoint split_on (sep : ascii) (cur : string) (s : string) : list string :=
  match s with
  | EmptyString => [String.rev cur]
  | String c s' =>
      if bool_decide (c = sep) then String.rev cur :: split_on sep EmptyString s'
      else split_on sep (String c cur) s'
  end.

(** [int(request.GET.get(name, default))]; [None] is the [ValueError],
    which these views do not catch. *)
Definition int_param (param : option string) (default : Z) : option Z :=
  match param with
  | None => Some default
  | Some s => Py.int s
  end.

(** The pieces of [exclude_ids] that are not blank, stripped. *)
Definition exclude_tokens (param : string) : list string :=
  filter (λ t, t ≠ EmptyString) (Py.strip <$> split_on "," EmptyString param).

(** [exclude_ids = set(int(id_str.strip()) for id_str in param.split(',')
    if id_str.strip())] under [try], the set staying empty on
    [ValueError]. *)
Definition parse_exclude_ids (param : string) : gset Z :=
  if Py.str_falsy param then ∅
  else match mapM Py.int (exclude_tokens param) with
       | Some ids => list_to_set ids
       | None => ∅
       end.

Record page : Type := mk_page {
  books : list Book.t;
  has_more : bool;
  total_count : nat;
}.

(** "Apply pagination in Python": the slice and the two counters. *)
Definition paginate (all_matching_books : list Book.t) (offset limit : Z) : page :=
  {| books := py_slice all_matching_books offset (offset + limit);
     has_more := (offset + limit <? Z.of_nat (length all_matching_books))%Z;
     total_count := length all_matching_books |}.

(** [explore_books].  [column_filters] stands for the six [filter(...)]
    calls on author, isbn, genre, published_year, publisher and language,
    which the database evaluates row by row; it is [None] when the query
    raises (a [published_year] that is not a number).  [None] as a result
    is an unhandled exception. *)
Definition explore_books (column_filters : option (Book.t → bool))
    (catalog : list Book.t)
    (offset_param limit_param exclude_ids_param : option string) : option page :=
  offset ← int_param offset_param 0;
  limit ← int_param limit_param 4;
  let exclude_ids := parse_exclude_ids (Py.strip (default EmptyString exclude_ids_param)) in
  let books_qs :=
    if bool_decide (exclude_ids = ∅) then catalog else exclude_id_in exclude_ids catalog in
  matches ← column_filters;
  Some (paginate (filter (λ b, matches b = true) books_qs) offset limit).

(** ** Accounts ([register_view], [PasswordResetOTP], [forgot_password],
    [verify_otp], [reset_password])

    Times are microseconds on the server clock; [now] is the reading of
    [timezone.now()] that a request compares or adds to. *)

Module Otp.
Record t : Type := mk {
  id : Z;
  user_id : Z;
  otp : string;
  created_at : Z;
  expires_at : Z;
  is_used : bool;
}.
End Otp.

Module Account.
(** The attributes of a [User] row that the account views read or write. *)
Record t : Type := mk {
  id : Z;
  email : string;
  password : string;   (* the encoded password *)
  username : string;
  preferred_language : string;
}.
End Account.

Record database : Type := mk_database {
  accounts : list Account.t;
  otps : list Otp.t;
  next_otp_id : Z;       (* the sequence behind [PasswordResetOTP.id] *)
  next_account_id : Z;   (* the sequence behind [User.id] *)
}.

(** [timedelta(minutes=10)]. *)
Definition ten_minutes : Z := 600000000.

(** [User.objects.get(email=email)]; [None] is [User.DoesNotExist]. *)
Definition get_account (db : database) (email : string) : option Account.t :=
  head (filter (λ u, Account.email u = email) (accounts db)).

(** [s.rsplit(sep, 1)] when [sep] occurs in [s]: the text before and the
    text after its last occurrence. *)
Fixpoint rsplit_at (sep : ascii) (s : string) : option (string * string) :=
  match s with
  | EmptyString => None
  | String c s' =>
      match rsplit_at sep s' with
      | Some (before, after) => Some (String c before, after)
      | None => if bool_decide (c = sep) then Some (EmptyString, s') else None
      end
  end.

(** [BaseUserManager.normalize_email]: the domain part in lower case; an
    address without [@] is returned as it came. *)
Definition normalize_email (email : string) : string :=
  match rsplit_at "@" (Py.strip email) with
  | Some (email_name, domain_part) => email_name +:+ String "@" (Py.lower domain_part)
  | None => email
  end.

(** The body of a registration request; a key that is missing or [null]
    is [None]. *)
Record registration : Type := mk_registration {
  reg_username : option string;
  reg_email : option string;
  reg_password : option string;
  reg_preferred_language : option string;
}.

Inductive register_response : Type :=
  | Missing_required_fields    (* 400 *)
  | Email_already_registered   (* 400 *)
  | Username_already_taken     (* 400 *)
  | Failed_to_create_user      (* 500 *)
  | Registered (user : Account.t).   (* 201 *)

(** [register_view], with [UserManager.create_user] (models.py) inlined.
    [make_password] is Django's password hasher; [saved] says whether
    [create_user] returned. *)
Definition register_view (make_password : string → string) (db : database)
    (data : registration) (saved : bool) : database * register_response :=
  let username := Py.strip (Py.or_else Py.str_falsy (reg_username data) EmptyString) in
  let email := Py.lower (Py.strip (Py.or_else Py.str_falsy (reg_email data) EmptyString)) in
  let password := Py.or_else Py.str_falsy (reg_password data) EmptyString in
  let preferred_language :=
    let given :=
      Py.strip (Py.or_else Py.str_falsy (reg_preferred_language data) EmptyString) in
    if Py.str_falsy given then "English" else given in
  if Py.str_falsy username || Py.str_falsy email || Py.str_falsy password
  then (db, Missing_required_fields)
  else if bool_decide (email ∈ Account.email <$> accounts db)
  then (db, Email_already_registered)
  else if bool_decide (username ∈ Account.username <$> accounts db)
  then (db, Username_already_taken)
  else if negb saved then (db, Failed_to_create_user)
  else
    let user :=
      Account.mk (next_account_id db) (normalize_email email) (make_password password)
                 username preferred_language in
    (mk_database (accounts db ++ [user]) (otps db) (next_otp_id db)
                 (next_account_id db + 1),
     Registered user).

(** [PasswordResetOTP.is_valid]. *)
Definition is_valid (o : Otp.t) (now : Z) : bool :=
  negb (Otp.is_used o) && (now <? Otp.expires_at o)%Z.

Definition mark_used (o : Otp.t) : Otp.t :=
  Otp.mk (Otp.id o) (Otp.user_id o) (Otp.otp o) (Otp.created_at o) (Otp.expires_at o) true.

(** [PasswordResetOTP.generate_otp]: every OTP of the user is marked used
    (by the [update], or row by row in the fallback), then a row is created
    for [code], the six digits drawn by [random.choices].  [now] is the
    clock when [expires_at] is computed, [created] the later reading that
    [auto_now_add] stores when the row is inserted. *)
Definition generate_otp (db : database) (user : Account.t) (now created : Z) (code : string)
    : database * Otp.t :=
  let retired :=
    (λ o, if bool_decide (Otp.user_id o = Account.id user) then mark_used o else o)
      <$> otps db in
  let otp_obj :=
    Otp.mk (next_otp_id db) (Account.id user) code created (now + ten_minutes) false in
  (mk_database (accounts db) (retired ++ [otp_obj]) (next_otp_id db + 1)
               (next_account_id db),
   otp_obj).

Inductive forgot_response : Type :=
  | Email_required        (* 400 *)
  | No_account_found      (* 400 *)
  | Mail_not_sent         (* 500; the OTP row stays *)
  | Otp_sent.             (* 200 *)

(** [forgot_password], with [send_otp_email] (utils.py) inlined.
    [mail_sent] says whether [send_mail] returned. *)
Definition forgot_password (db : database) (email : option string)
    (now created : Z) (code : string) (mail_sent : bool) : database * forgot_response :=
  match email with
  | None => (db, Email_required)
  | Some email =>
      if Py.str_falsy email then (db, Email_required)
      else match get_account db email with
           | None => (db, No_account_found)
           | Some user =>
               let '(db, _) := generate_otp db user now created code in
               (db, if mail_sent then Otp_sent else Mail_not_sent)
           end
  end.

Inductive verify_response : Type :=
  | Email_and_otp_required   (* 400 *)
  | Verify_invalid_credentials
  | No_active_otp
  | Verify_otp_expired
  | Invalid_otp
  | Otp_verified (otp_id : Z).   (* 200 *)

(** [PasswordResetOTP.objects.filter(user_id=...).order_by('-created_at')];
    rows created at the same instant keep the order of the table. *)
Definition otps_latest_first (db : database) (user : Account.t) : list Otp.t :=
  sorted_by_int (λ o, - Otp.created_at o)%Z
    (filter (λ o, Otp.user_id o = Account.id user) (otps db)).

Definition verify_otp (db : database) (email otp : option string) (now : Z)
    : verify_response :=
  match email, otp with
  | Some email, Some otp =>
      if Py.str_falsy email || Py.str_falsy otp then Email_and_otp_required
      else match get_account db email with
           | None => Verify_invalid_credentials
           | Some user =>
               match head (filter (λ c, Otp.is_used c = false) (otps_latest_first db user)) with
               | None => No_active_otp
               | Some otp_obj =>
                   if negb (is_valid otp_obj now) then Verify_otp_expired
                   else if negb (bool_decide (Otp.otp otp_obj = otp)) then Invalid_otp
                   else Otp_verified (Otp.id otp_obj)
               end
           end
  | _, _ => Email_and_otp_required
  end.

Inductive reset_response : Type :=
  | Reset_fields_required      (* 400 *)
  | Reset_invalid_credentials
  | Otp_not_found              (* "Invalid or expired OTP" *)
  | Reset_otp_expired
  | Password_reset.            (* 200 *)

(** [reset_password].  [make_password] is Django's password hasher, and
    [otp_id] an integer. *)
Definition reset_password (make_password : string → string) (db : database)
    (email : option string) (otp_id : option Z) (new_password : option string) (now : Z)
    : database * reset_response :=
  match email, otp_id, new_password with
  | Some email, Some otp_id, Some new_password =>
      if Py.str_falsy email || bool_decide (otp_id = 0%Z) || Py.str_falsy new_password
      then (db, Reset_fields_required)
      else match get_account db email with
           | None => (db, Reset_invalid_credentials)
           | Some user =>
               match head (filter (λ o, Otp.id o = otp_id ∧ Otp.user_id o = Account.id user)
                                  (otps db)) with
               | None => (db, Otp_not_found)
               | Some otp_obj =>
                   if negb (is_valid otp_obj now) then (db, Reset_otp_expired)
                   else
                     let set_password u :=
                       if bool_decide (Account.id u = Account.id user)
                       then Account.mk (Account.id u) (Account.email u)
                                       (make_password new_password)
                                       (Account.username u) (Account.preferred_language u)
                       else u in
                     let use o :=
                       if bool_decide (Otp.id o = Otp.id otp_obj) then mark_used o else o in
                     (mk_database (set_password <$> accounts db) (use <$> otps db)
                                  (next_otp_id db) (next_account_id db),
                      Password_reset)
               end
           end
  | _, _, _ => (db, Reset_fields_required)
  end.

(** A database as the schema keeps it: primary keys and e-mail addresses
    are unique, and the sequences are ahead of every id handed out. *)
Record consistent (db : database) : Prop := {
  account_ids_unique : NoDup (Account.id <$> accounts db);
  account_ids_issued : Forall (λ u, Account.id u < next_account_id db)%Z (accounts db);
  emails_unique : NoDup (Account.email <$> accounts db);
  otp_ids_unique : NoDup (Otp.id <$> otps db);
  otp_ids_issued : Forall (λ o, Otp.id o < next_otp_id db)%Z (otps db);
  otp_sequence_positive : (0 < next_otp_id db)%Z;
}.

(** ** More sample data *)

Module Scenario.
Import Sample.

(** Two candidates that score the same, one of them without a rating. *)
Definition unrated : Book.t :=
  Book.mk 11 (Some "B. Writer") None (Some 50%float) (Some [JStr "Fantasy"]) (Some "English").
Definition zero_rated : Book.t :=
  Book.mk 12 (Some "B. Writer") (Some 0%float) (Some 50%float)
          (Some [JStr "Fantasy"]) (Some "English").

(** A book of many genres, two of them not text. *)
Definition anthology : Book.t :=
  Book.mk 20 (Some "Various") (Some 3.5%float) (Some 70%float)
          (Some [JStr "Fantasy"; JStr "Romance"; JStr "Crime"; JStr "Poetry"; JStr "Drama";
                 JStr "Travel"; JBool true; JNum 1])
          (Some "English").

(** A user whose saved list names a book that is gone (id 99). *)
Definition collector : User.t := User.mk [] None (Some [8; 99; 1]%Z).

(** No column filter in the query string. *)
Definition any_book (_ : Book.t) : bool := true.

(** Two accounts; alice asks for an OTP at time 1000 and is mailed
    "123456". *)
Definition alice : Account.t :=
  Account.mk 1 "alice@example.org" "old-hash" "alice" "English".
Definition bob : Account.t := Account.mk 2 "bob@example.org" "bobs-hash" "bob" "French".
Definition hasher (password : string) : string := "hashed:" +:+ password.
Definition two_accounts : database := mk_database [alice; bob] [] 1 3.
Definition otp_requested : database :=
  (forgot_password two_accounts (Some "alice@example.org") 1000 1001 "123456" true).1.
Definition otp_requested_again : database :=
  (forgot_password otp_requested (Some "alice@example.org") 2000 2001 "654321" false).1.
Definition password_changed : database :=
  (reset_password hasher otp_requested (Some "alice@example.org") (Some 1%Z)
                  (Some "new-password") 5000).1.

(** Carol signs up, typing her address with capital letters and blanks
    around it; later somebody tries the same address in capitals. *)
Definition signup : registration :=
  mk_registration (Some "carol") (Some " Carol@Example.org ") (Some "secret") None.
Definition carol : Account.t :=
  Account.mk 3 "carol@example.org" "hashed:secret" "carol" "English".
Definition carol_registered : database := (register_view hasher two_accounts signup true).1.
Definition second_signup : registration :=
  mk_registration (Some "carol2") (Some "CAROL@EXAMPLE.ORG") (Some "other") (Some "German").
End Scenario.


(** * Binary64 facts

    What the proofs below need of IEEE 754 arithmetic, derived from the
    specification of the primitive operations ([FloatAxioms]): a quotient
    of two set sizes is in [0, 1], comparisons are asymmetric, and a sum of
    products of non-negative numbers is non-negative. *)

Module Binary64.
Local Open Scope Z_scope.

Lemma digits2_pos_size p : digits2_pos p = Pos.size p.
Proof. induction p; simpl; congruence. Qed.

Lemma size_bounds p : 2 ^ (Zpos (Pos.size p) - 1) <= Zpos p < 2 ^ Zpos (Pos.size p).
Proof.
  pose proof (Pos.size_gt p) as Hgt. pose proof (Pos.size_le p) as Hle.
  apply Pos2Z.pos_lt_pos in Hgt. apply Pos2Z.pos_le_pos in Hle.
  rewrite Pos2Z.inj_pow in Hgt, Hle.
  split; [|exact Hgt].
  replace (Zpos (Pos.size p)) with (Z.succ (Zpos (Pos.size p) - 1)) in Hle by lia.
  rewrite Z.pow_succ_r in Hle by lia. lia.
Qed.

Lemma digits_unique p d : 2 ^ (d - 1) <= Zpos p < 2 ^ d -> Zpos (digits2_pos p) = d.
Proof.
  intros [Hlo Hhi]. rewrite digits2_pos_size.
  pose proof (size_bounds p) as [Slo Shi].
  assert (0 <= d) as Hd.
  { destruct (Z.le_gt_cases 0 d) as [|Hn]; [done|].
    rewrite (Z.pow_neg_r 2 d) in Hhi by lia. lia. }
  assert (Zpos (Pos.size p) - 1 < d) by (apply (Z.pow_lt_mono_r_iff 2); lia).
  assert (d - 1 < Zpos (Pos.size p)).
  { destruct (Z.eq_dec d 0) as [->|]; [lia|]. apply (Z.pow_lt_mono_r_iff 2); lia. }
  lia.
Qed.

Lemma iter_xO_pow2 p k : Zpos (Pos.iter xO p k) = Zpos p * 2 ^ Zpos k.
Proof.
  induction k as [|k IH] using Pos.peano_ind.
  - simpl. lia.
  - rewrite Pos.iter_succ, Pos2Z.inj_xO, IH, Pos2Z.inj_succ, Z.pow_succ_r by lia. lia.
Qed.

(** ** Rounding a mantissa of 53 or 54 bits *)

Lemma shr_record_of_loc_m m l : shr_m (shr_record_of_loc m l) = m.
Proof. by destruct l as [|[]]. Qed.

Lemma loc_of_shr_record_of_loc m l : loc_of_shr_record (shr_record_of_loc m l) = l.
Proof. by destruct l as [|[]]. Qed.

Lemma shr_fexp_keep m e l :
  2 ^ 52 <= Zpos m < 2 ^ 53 -> -1074 <= e ->
  shr_fexp prec emax (Zpos m) e l = (shr_record_of_loc (Zpos m) l, e).
Proof.
  intros Hm He. unfold shr_fexp. simpl Zdigits2.
  rewrite (digits_unique m 53) by exact Hm.
  replace (fexp prec emax (53 + e) - e) with 0; [done|].
  unfold fexp, SpecFloat.emin, prec, emax. lia.
Qed.

Lemma shr_fexp_halve m e l :
  2 ^ 53 <= Zpos m < 2 ^ 54 -> -1074 <= e ->
  shr_fexp prec emax (Zpos m) e l = (shr_1 (shr_record_of_loc (Zpos m) l), e + 1).
Proof.
  intros Hm He. unfold shr_fexp. simpl Zdigits2.
  rewrite (digits_unique m 54) by exact Hm.
  replace (fexp prec emax (54 + e) - e) with 1; [done|].
  unfold fexp, SpecFloat.emin, prec, emax. lia.
Qed.

Lemma shr_1_m m r s : 0 <= m -> shr_m (shr_1 (Build_shr_record m r s)) = m / 2.
Proof.
  intros Hm. destruct m as [|[p|p|]|p]; simpl; try lia; try done.
  - rewrite Pos2Z.inj_xI. apply (Z.div_unique _ _ _ 1); lia.
  - rewrite Pos2Z.inj_xO. apply (Z.div_unique _ _ _ 0); lia.
Qed.

Lemma shr_1_of_loc_m m l : 0 <= m -> shr_m (shr_1 (shr_record_of_loc m l)) = m / 2.
Proof. intros Hm. destruct l as [|[]]; by apply shr_1_m. Qed.

Lemma round_nearest_even_cases m l :
  round_nearest_even m l = m \/ round_nearest_even m l = m + 1.
Proof. destruct l as [|[]]; simpl; auto. destruct (Z.even m); auto. Qed.

(** The second pass of [binary_round_aux]: a mantissa in [2^52, 2^53] is
    delivered as it is, or renormalised when it is 2^53. *)
Lemma round_finish s m e :
  2 ^ 52 <= m <= 2 ^ 53 -> -1074 <= e <= 970 ->
  exists m2 e2,
    (let '(mrs, e') := shr_fexp prec emax m e loc_Exact in
     match shr_m mrs with
     | Z0 => S754_zero s
     | Zpos p => if e' <=? emax - prec then S754_finite s p e' else S754_infinity s
     | Zneg _ => S754_nan
     end) = S754_finite s m2 e2
    /\ ((e2 = e /\ Zpos m2 = m /\ m < 2 ^ 53) \/ (e2 = e + 1 /\ Zpos m2 = 2 ^ 52 /\ m = 2 ^ 53)).
Proof.
  intros Hm He. destruct m as [|p|p]; try lia.
  destruct (Z.eq_dec (Zpos p) (2 ^ 53)) as [Heq|Hne].
  - rewrite shr_fexp_halve by lia. rewrite shr_1_of_loc_m by lia.
    rewrite Heq. change (2 ^ 53 / 2) with (Zpos 4503599627370496).
    exists 4503599627370496%positive, (e + 1).
    replace (e + 1 <=? emax - prec) with true by (unfold emax, prec; lia).
    split; [done|]. right. done.
  - rewrite shr_fexp_keep by lia. rewrite shr_record_of_loc_m.
    exists p, e.
    replace (e <=? emax - prec) with true by (unfold emax, prec; lia).
    split; [done|]. left. lia.
Qed.

Lemma binary_round_aux_normal s q e l :
  2 ^ 52 <= Zpos q < 2 ^ 54 -> -1074 <= e <= 969 ->
  exists m2 e2,
    binary_round_aux prec emax s (Zpos q) e l = S754_finite s m2 e2
    /\ 2 ^ 52 <= Zpos m2 < 2 ^ 53
    /\ let d := if Zpos q <? 2 ^ 53 then 0 else 1 in
       e2 = e + d \/ (e2 = e + d + 1 /\ Zpos m2 = 2 ^ 52).
Proof.
  intros Hq He. unfold binary_round_aux.
  destruct (Z.ltb_spec (Zpos q) (2 ^ 53)) as [Hlt|Hge].
  - rewrite shr_fexp_keep by lia.
    rewrite shr_record_of_loc_m, loc_of_shr_record_of_loc.
    destruct (round_finish s (round_nearest_even (Zpos q) l) e) as (m2 & e2 & -> & Hc).
    { destruct (round_nearest_even_cases (Zpos q) l) as [->| ->]; lia. }
    { lia. }
    exists m2, e2. split; [done|].
    destruct (round_nearest_even_cases (Zpos q) l) as [Hr|Hr]; rewrite Hr in Hc; lia.
  - rewrite shr_fexp_halve by lia.
    set (mrs := shr_1 (shr_record_of_loc (Zpos q) l)).
    assert (shr_m mrs = Zpos q / 2) as Hm by (apply shr_1_of_loc_m; lia).
    assert (2 ^ 52 <= Zpos q / 2 < 2 ^ 53) as Hh.
    { split; [apply Z.div_le_lower_bound; lia | apply Z.div_lt_upper_bound; lia]. }
    destruct (round_finish s (round_nearest_even (shr_m mrs) (loc_of_shr_record mrs)) (e + 1))
      as (m2 & e2 & -> & Hc).
    { destruct (round_nearest_even_cases (shr_m mrs) (loc_of_shr_record mrs)) as [->| ->]; lia. }
    { lia. }
    exists m2, e2. split; [done|].
    destruct (round_nearest_even_cases (shr_m mrs) (loc_of_shr_record mrs)) as [Hr|Hr];
      rewrite Hr in Hc; lia.
Qed.

Lemma binary_round_aux_exact s m e :
  2 ^ 52 <= Zpos m < 2 ^ 53 -> -1074 <= e <= 970 ->
  binary_round_aux prec emax s (Zpos m) e loc_Exact = S754_finite s m e.
Proof.
  intros Hm He. unfold binary_round_aux.
  rewrite shr_fexp_keep by lia. simpl.
  rewrite shr_fexp_keep by lia. simpl.
  replace (e <=? emax - prec) with true by (unfold emax, prec; lia). done.
Qed.

(** ** Integers below 2^53 convert exactly *)

Lemma binary_normalize_small n :
  0 < n < 2 ^ 53 ->
  exists m e, binary_normalize prec emax n 0 false = S754_finite false m e
    /\ 2 ^ 52 <= Zpos m < 2 ^ 53 /\ -52 <= e <= 0 /\ Zpos m = n * 2 ^ (- e).
Proof.
  intros Hn. destruct n as [|p|p]; try lia. simpl. unfold binary_round.
  pose proof (size_bounds p) as Hs. rewrite <- digits2_pos_size in Hs.
  set (d := Zpos (digits2_pos p)) in *.
  assert (1 <= d <= 53) as Hd.
  { split; [lia|]. destruct (Z.le_gt_cases d 53) as [|Hgt]; [done|].
    assert (2 ^ 53 <= 2 ^ (d - 1)) by (apply Z.pow_le_mono_r; lia). lia. }
  replace (fexp prec emax (d + 0)) with (d - 53)
    by (unfold fexp, SpecFloat.emin, prec, emax; lia).
  unfold shl_align. destruct (d - 53 - 0) as [|k|k] eqn:Hk; try lia.
  - assert (d = 53) as Hd53 by lia. rewrite Hd53 in Hs.
    exists p, 0. rewrite binary_round_aux_exact by lia.
    repeat split; try done; lia.
  - assert (Zpos k = 53 - d) as Hk' by lia.
    assert (2 ^ (d - 1) * 2 ^ Zpos k = 2 ^ 52) as E1
      by (rewrite <- Z.pow_add_r by lia; f_equal; lia).
    assert (2 ^ d * 2 ^ Zpos k = 2 ^ 53) as E2
      by (rewrite <- Z.pow_add_r by lia; f_equal; lia).
    assert (0 < 2 ^ Zpos k) as Hp by (apply Z.pow_pos_nonneg; lia).
    assert (2 ^ 52 <= Zpos (Pos.iter xO p k) < 2 ^ 53) as Hm.
    { rewrite iter_xO_pow2. nia. }
    exists (Pos.iter xO p k), (d - 53).
    rewrite binary_round_aux_exact by lia.
    repeat split; try lia; try done.
    rewrite iter_xO_pow2. do 2 f_equal. lia.
Qed.

Lemma scaled_order a b ma mb ea eb :
  0 < a <= b ->
  2 ^ 52 <= ma < 2 ^ 53 -> 2 ^ 52 <= mb < 2 ^ 53 ->
  -52 <= ea <= 0 -> -52 <= eb <= 0 ->
  ma = a * 2 ^ (- ea) -> mb = b * 2 ^ (- eb) ->
  ea <= eb /\ (ea = eb -> ma <= mb).
Proof.
  intros Hab Hma Hmb Hea Heb Ea Eb. split.
  - destruct (Z.le_gt_cases ea eb) as [|Hgt]; [done|]. exfalso.
    assert (2 ^ (- eb) = 2 ^ (- ea) * 2 ^ (ea - eb)) as E
      by (rewrite <- Z.pow_add_r by lia; f_equal; lia).
    assert (2 <= 2 ^ (ea - eb)) as H2
      by (change 2 with (2 ^ 1) at 1; apply Z.pow_le_mono_r; lia).
    assert (0 < 2 ^ (- ea)) by (apply Z.pow_pos_nonneg; lia).
    rewrite E in Eb. nia.
  - intros ->. assert (0 < 2 ^ (- eb)) by (apply Z.pow_pos_nonneg; lia). nia.
Qed.

(** ** The quotient of two normal numbers, the smaller one on top *)

Lemma SFdiv_core_normal mx ex my ey :
  2 ^ 52 <= Zpos mx < 2 ^ 53 -> 2 ^ 52 <= Zpos my < 2 ^ 53 ->
  -1021 <= ex - ey ->
  SFdiv_core_binary prec emax (Zpos mx) ex (Zpos my) ey
  = ((Zpos mx * 2 ^ 53) / Zpos my, ex - ey - 53,
     new_location (Zpos my) ((Zpos mx * 2 ^ 53) mod Zpos my)).
Proof.
  intros Hx Hy He. unfold SFdiv_core_binary. simpl Zdigits2.
  rewrite (digits_unique mx 53), (digits_unique my 53) by done.
  replace (Z.min (fexp prec emax (53 + ex - (53 + ey))) (ex - ey)) with (ex - ey - 53)
    by (unfold fexp, SpecFloat.emin, prec, emax; lia).
  replace (ex - ey - (ex - ey - 53)) with 53 by lia.
  cbv zeta. rewrite Z.shiftl_mul_pow2 by lia.
  unfold Z.div, Z.modulo.
  by destruct (Z.div_eucl (Zpos mx * 2 ^ 53) (Zpos my)).
Qed.

Lemma SFleb_one m e :
  e < -52 \/ (e = -52 /\ Zpos m = 2 ^ 52) ->
  SFleb (S754_finite false m e) SF_one = true.
Proof.
  intros [He|[-> Hm]]; unfold SFleb, SF_one, SFcompare.
  - by rewrite (proj2 (Z.compare_lt_iff e (-52)) He).
  - assert (m = 4503599627370496%positive) as -> by lia. done.
Qed.

Lemma new_location_zero m : new_location m 0 = loc_Exact.
Proof. unfold new_location. by destruct (Z.even m). Qed.

Lemma SFdiv_le_one mx ex my ey :
  2 ^ 52 <= Zpos mx < 2 ^ 53 -> 2 ^ 52 <= Zpos my < 2 ^ 53 ->
  -52 <= ex <= ey -> ey <= 0 -> (ex = ey -> Zpos mx <= Zpos my) ->
  exists m e, SFdiv prec emax (S754_finite false mx ex) (S754_finite false my ey)
              = S754_finite false m e
    /\ (e < -52 \/ (e = -52 /\ Zpos m = 2 ^ 52)).
Proof.
  intros Hx Hy He Hey Hm. unfold SFdiv.
  rewrite SFdiv_core_normal by lia. simpl xorb.
  set (q := Zpos mx * 2 ^ 53 / Zpos my).
  assert (2 ^ 52 <= q < 2 ^ 54) as Hq.
  { split; [apply Z.div_le_lower_bound; lia | apply Z.div_lt_upper_bound; lia]. }
  destruct (Z.eq_dec ex ey) as [Heq|Hne].
  - subst ey. specialize (Hm eq_refl).
    destruct (Z.eq_dec (Zpos mx) (Zpos my)) as [Hmm|Hmm].
    + assert (mx = my) as <- by congruence. subst q.
      rewrite Z.mul_comm, Z.mod_mul, Z.div_mul, new_location_zero by lia.
      replace (ex - ex - 53) with (-53) by lia.
      exists 4503599627370496%positive, (-52). split; [|right; done].
      vm_compute. reflexivity.
    + assert (q < 2 ^ 53) as Hq' by (apply Z.div_lt_upper_bound; lia).
      destruct q as [|p|p] eqn:Eq; try lia.
      destruct (binary_round_aux_normal false p (ex - ex - 53)
                  (new_location (Zpos my) ((Zpos mx * 2 ^ 53) mod Zpos my)))
        as (m2 & e2 & -> & Hm2 & Hc); [lia|lia|].
      exists m2, e2. split; [done|].
      cbv zeta in Hc. destruct (Z.ltb_spec (Zpos p) (2 ^ 53)); lia.
  - destruct q as [|p|p] eqn:Eq; try lia.
    destruct (binary_round_aux_normal false p (ex - ey - 53)
                (new_location (Zpos my) ((Zpos mx * 2 ^ 53) mod Zpos my)))
      as (m2 & e2 & -> & Hm2 & Hc); [lia|lia|].
    exists m2, e2. split; [done|].
    cbv zeta in Hc. destruct (Zpos p <? 2 ^ 53); lia.
Qed.

(** ** The primitive operations *)

Lemma Prim2SF_zero : Prim2SF 0%float = S754_zero false.
Proof. vm_compute. reflexivity. Qed.

Lemma Prim2SF_one : Prim2SF 1%float = SF_one.
Proof. vm_compute. reflexivity. Qed.

Lemma Prim2SF_float_of_nat n :
  Z.of_nat n < 2 ^ 53 ->
  Prim2SF (Py.float_of_nat n) = binary_normalize prec emax (Z.of_nat n) 0 false.
Proof.
  intros Hn. unfold Py.float_of_nat. rewrite of_uint63_spec, Uint63.of_Z_spec.
  rewrite Z.mod_small; [done|]. change Uint63.wB with (2 ^ 63). lia.
Qed.

(** [len(inter) / len(union)] is in [0, 1]. *)
Lemma float_ratio_in_unit (a b : nat) :
  (a <= b)%nat -> (0 < b)%nat -> Z.of_nat b < 2 ^ 53 ->
  in_unit (Py.float_of_nat a / Py.float_of_nat b) = true.
Proof.
  intros Hab Hb Hlt. unfold in_unit.
  rewrite !FloatAxioms.leb_spec, FloatAxioms.div_spec, Prim2SF_zero, Prim2SF_one.
  rewrite !Prim2SF_float_of_nat by lia.
  destruct (binary_normalize_small (Z.of_nat b)) as (mb & eb & -> & Hmb & Heb & Eb); [lia|].
  destruct (Nat.eq_dec a 0%nat) as [->|Ha].
  - done.
  - destruct (binary_normalize_small (Z.of_nat a)) as (ma & ea & -> & Hma & Hea & Ea); [lia|].
    destruct (scaled_order (Z.of_nat a) (Z.of_nat b) (Zpos ma) (Zpos mb) ea eb)
      as [Hle Heq]; try done; try lia.
    destruct (SFdiv_le_one ma ea mb eb) as (m & e & Hdiv & Hc); try done; try lia.
    unfold SF64div. rewrite Hdiv, SFleb_one by done. done.
Qed.

(** ** Comparisons *)

Lemma SFcompare_antisym x y : SFcompare y x = CompOpp <$> SFcompare x y.
Proof.
  destruct x as [[]|[]| |[] mx ex], y as [[]|[]| |[] my ey]; simpl; try done.
  - rewrite (Z.compare_antisym ex ey).
    destruct (ex ?= ey); simpl; try done.
    rewrite (Pos.compare_cont_antisym my mx Eq). simpl. by rewrite CompOpp_involutive.
  - rewrite (Z.compare_antisym ex ey).
    destruct (ex ?= ey); simpl; try done.
    by rewrite (Pos.compare_cont_antisym mx my Eq).
Qed.

Lemma ltb_asym (x y : float) : (x <? y)%float = true -> (y <? x)%float = false.
Proof.
  rewrite !FloatAxioms.ltb_spec. unfold SFltb.
  rewrite (SFcompare_antisym (Prim2SF x) (Prim2SF y)).
  by destruct (SFcompare (Prim2SF x) (Prim2SF y)) as [[]|].
Qed.

Lemma eqb_sym (x y : float) : (x =? y)%float = (y =? x)%float.
Proof.
  rewrite !FloatAxioms.eqb_spec. unfold SFeqb.
  rewrite (SFcompare_antisym (Prim2SF x) (Prim2SF y)).
  by destruct (SFcompare (Prim2SF x) (Prim2SF y)) as [[]|].
Qed.

Lemma ltb_leb (x y : float) : (x <? y)%float = true -> (x <=? y)%float = true.
Proof.
  rewrite FloatAxioms.ltb_spec, FloatAxioms.leb_spec. unfold SFltb, SFleb.
  by destruct (SFcompare (Prim2SF x) (Prim2SF y)) as [[]|].
Qed.

(** ** Signs *)

Lemma iter_pos_invariant {A} (P : A -> Prop) (f : A -> A) n x :
  (forall y, P y -> P (f y)) -> P x -> P (SpecFloat.iter_pos f n x).
Proof. intros Hf. revert x. induction n; simpl; auto. Qed.

Lemma shr_1_nonneg mrs : 0 <= shr_m mrs -> 0 <= shr_m (shr_1 mrs).
Proof. destruct mrs as [[|[]|[]] r s]; simpl; lia. Qed.

Lemma shr_fexp_nonneg m e l : 0 <= m -> 0 <= shr_m (shr_fexp prec emax m e l).1.
Proof.
  intros Hm. unfold shr_fexp, shr.
  destruct (fexp prec emax (Zdigits2 m + e) - e) as [|n|n]; simpl;
    try by rewrite shr_record_of_loc_m.
  apply (iter_pos_invariant (fun r => 0 <= shr_m r)); [apply shr_1_nonneg|].
  by rewrite shr_record_of_loc_m.
Qed.

Lemma round_nearest_even_nonneg m l : 0 <= m -> 0 <= round_nearest_even m l.
Proof. intros Hm. destruct (round_nearest_even_cases m l) as [->| ->]; lia. Qed.

Lemma binary_round_aux_nonneg m e l :
  0 <= m -> SF_nonneg (binary_round_aux prec emax false m e l) = true.
Proof.
  intros Hm. unfold binary_round_aux.
  pose proof (shr_fexp_nonneg m e l Hm) as H1.
  destruct (shr_fexp prec emax m e l) as [mrs' e']. simpl in H1.
  pose proof (shr_fexp_nonneg (round_nearest_even (shr_m mrs') (loc_of_shr_record mrs')) e'
                loc_Exact (round_nearest_even_nonneg _ _ H1)) as H2.
  destruct (shr_fexp prec emax _ e' loc_Exact) as [mrs'' e'']. simpl in H2.
  destruct (shr_m mrs''); [done| |lia]. by destruct (e'' <=? emax - prec).
Qed.

Lemma binary_round_nonneg m e : SF_nonneg (binary_round prec emax false m e) = true.
Proof.
  unfold binary_round. destruct (shl_align m e _) as [mz ez].
  by apply binary_round_aux_nonneg.
Qed.

Lemma SFmul_nonneg x y :
  SF_unit_like x = true -> SF_unit_like y = true -> SF_nonneg (SFmul prec emax x y) = true.
Proof.
  destruct x as [sx|sx| |[] mx ex], y as [sy|sy| |[] my ey]; simpl; try done.
  intros _ _. by apply binary_round_aux_nonneg.
Qed.

Lemma SFadd_nonneg x y :
  SF_nonneg x = true -> SF_nonneg y = true -> SF_nonneg (SFadd prec emax x y) = true.
Proof.
  destruct x as [[]|[]| |[] mx ex], y as [[]|[]| |[] my ey]; simpl; try done.
  intros _ _. apply binary_round_nonneg.
Qed.

Lemma in_unit_unit_like x : in_unit x = true -> SF_unit_like (Prim2SF x) = true.
Proof.
  unfold in_unit. rewrite !FloatAxioms.leb_spec, Prim2SF_zero, Prim2SF_one.
  by destruct (Prim2SF x) as [[]|[]| |[] m e].
Qed.

Lemma nonneg_leb x : SF_nonneg (Prim2SF x) = true -> (0 <=? x)%float = true.
Proof.
  rewrite FloatAxioms.leb_spec, Prim2SF_zero.
  by destruct (Prim2SF x) as [[]|[]| |[] m e].
Qed.

(** ** The order of binary64 numbers *)

Lemma valid_canonical s m e :
  valid_binary (S754_finite s m e) = true ->
  Zpos m < 2 ^ 53 /\ -1074 <= e <= 971 /\ (2 ^ 52 <= Zpos m \/ e = -1074).
Proof.
  unfold valid_binary, SpecFloat.valid_binary, bounded, canonical_mantissa, fexp, SpecFloat.emin, prec, emax.
  intros [Hc He]%andb_true_iff. apply Z.eqb_eq in Hc. apply Z.leb_le in He.
  pose proof (size_bounds m) as [Hlo Hhi].
  rewrite <- digits2_pos_size in Hlo, Hhi.
  set (d := Zpos (digits2_pos m)) in *.
  assert (d <= 53) as Hd by lia.
  assert (2 ^ d <= 2 ^ 53) by (apply Z.pow_le_mono_r; lia).
  split; [lia|]. split; [lia|].
  destruct (Z.eq_dec e (-1074)) as [|Hne]; [by right|left].
  assert (d = 53) as Hd53 by lia. rewrite Hd53 in Hlo. exact Hlo.
Qed.

Lemma pow_scale_pos e : -1074 <= e -> 0 < 2 ^ (e + SF_scale).
Proof. intros He. apply Z.pow_pos_nonneg; unfold SF_scale; lia. Qed.

(** Canonical mantissas and exponents order as the values they stand for. *)
Lemma canonical_lt m1 e1 m2 e2 :
  Zpos m1 < 2 ^ 53 -> -1074 <= e1 -> e1 < e2 -> 2 ^ 52 <= Zpos m2 ->
  Zpos m1 * 2 ^ (e1 + SF_scale) < Zpos m2 * 2 ^ (e2 + SF_scale).
Proof.
  intros H1 He1 Hlt H2.
  assert (2 ^ (e2 + SF_scale) = 2 ^ (e1 + SF_scale) * 2 ^ (e2 - e1)) as ->
    by (rewrite <- Z.pow_add_r by (unfold SF_scale; lia); f_equal; lia).
  assert (2 ^ 1 <= 2 ^ (e2 - e1)) as Hp by (apply Z.pow_le_mono_r; lia).
  change (2 ^ 1) with 2 in Hp.
  pose proof (pow_scale_pos e1 He1) as Hpos.
  set (P := 2 ^ (e1 + SF_scale)) in *. set (Q := 2 ^ (e2 - e1)) in *.
  change (2 ^ 53) with (2 * 2 ^ 52) in H1. set (h := 2 ^ 52) in *.
  assert (0 < h) by (subst h; lia).
  assert (Zpos m1 * P < 2 * h * P) by nia.
  assert (2 * h * P <= h * (P * Q)) by nia.
  assert (h * (P * Q) <= Zpos m2 * (P * Q)) by nia.
  lia.
Qed.

Lemma canonical_compare m1 e1 m2 e2 :
  Zpos m1 < 2 ^ 53 -> -1074 <= e1 -> (2 ^ 52 <= Zpos m1 \/ e1 = -1074) ->
  Zpos m2 < 2 ^ 53 -> -1074 <= e2 -> (2 ^ 52 <= Zpos m2 \/ e2 = -1074) ->
  match e1 ?= e2 with
  | Lt => Lt
  | Gt => Gt
  | Eq => Pos.compare_cont Eq m1 m2
  end = (Zpos m1 * 2 ^ (e1 + SF_scale) ?= Zpos m2 * 2 ^ (e2 + SF_scale)).
Proof.
  intros H1 He1 Hc1 H2 He2 Hc2. symmetry.
  destruct (Z.compare_spec e1 e2) as [->|Hlt|Hgt].
  - pose proof (pow_scale_pos e2 He2) as Hp.
    change (Pos.compare_cont Eq m1 m2) with (Zpos m1 ?= Zpos m2).
    destruct (Z.compare_spec (Zpos m1) (Zpos m2)) as [->|Hm|Hm].
    + apply Z.compare_refl.
    + apply Z.compare_lt_iff. nia.
    + apply Z.compare_gt_iff. nia.
  - apply Z.compare_lt_iff. apply canonical_lt; lia.
  - apply Z.compare_gt_iff. apply canonical_lt; lia.
Qed.

Lemma finite_ord_bounds s m e :
  valid_binary (S754_finite s m e) = true ->
  0 < Zpos m * 2 ^ (e + SF_scale) < 2 ^ (SF_scale + 1100).
Proof.
  intros (Hm & He & _)%valid_canonical.
  pose proof (pow_scale_pos e ltac:(lia)) as Hp. split; [lia|].
  assert (2 ^ (e + SF_scale) <= 2 ^ (971 + SF_scale))
    by (apply Z.pow_le_mono_r; unfold SF_scale; lia).
  assert (2 ^ (SF_scale + 1100) = 2 ^ 53 * 2 ^ (971 + SF_scale) * 2 ^ 76) as ->.
  { by rewrite <- !Z.pow_add_r by (unfold SF_scale; lia). }
  assert (0 < 2 ^ (971 + SF_scale)) by (apply Z.pow_pos_nonneg; unfold SF_scale; lia).
  assert (1 < 2 ^ 76) by (change 1 with (2 ^ 0); apply Z.pow_lt_mono_r; lia).
  nia.
Qed.

(** Two numbers compare as their values do. *)
Lemma SFcompare_ord x y :
  valid_binary x = true -> valid_binary y = true ->
  x <> S754_nan -> y <> S754_nan ->
  SFcompare x y = Some (SF_ord x ?= SF_ord y).
Proof.
  intros Hx Hy Hnx Hny.
  assert (0 < 2 ^ (SF_scale + 1100)) as Hinf
    by (apply Z.pow_pos_nonneg; unfold SF_scale; lia).
  destruct x as [sx|sx| |sx mx ex]; [| | done |];
    destruct y as [sy|sy| |sy my ey]; try done;
    try pose proof (finite_ord_bounds _ _ _ Hx) as Bx;
    try pose proof (finite_ord_bounds _ _ _ Hy) as By;
    unfold SFcompare, SF_ord; f_equal;
    try (by repeat match goal with s : bool |- _ => destruct s end; symmetry;
            first [apply Z.compare_eq_iff; lia
                  |apply Z.compare_lt_iff; lia
                  |apply Z.compare_gt_iff; lia]).
  apply valid_canonical in Hx as (H1 & He1 & Hc1), Hy as (H2 & He2 & Hc2).
  destruct sx, sy.
  - replace (-1 * (Zpos mx * 2 ^ (ex + SF_scale))) with (- (Zpos mx * 2 ^ (ex + SF_scale)))
      by lia.
    replace (-1 * (Zpos my * 2 ^ (ey + SF_scale))) with (- (Zpos my * 2 ^ (ey + SF_scale)))
      by lia.
    rewrite Z.compare_opp.
    rewrite (Z.compare_antisym (Zpos mx * 2 ^ (ex + SF_scale))).
    rewrite <- (canonical_compare mx ex my ey) by lia.
    by destruct (ex ?= ey).
  - symmetry. apply Z.compare_lt_iff. lia.
  - symmetry. apply Z.compare_gt_iff. lia.
  - replace (1 * (Zpos mx * 2 ^ (ex + SF_scale))) with (Zpos mx * 2 ^ (ex + SF_scale)) by lia.
    replace (1 * (Zpos my * 2 ^ (ey + SF_scale))) with (Zpos my * 2 ^ (ey + SF_scale)) by lia.
    by rewrite <- (canonical_compare mx ex my ey) by lia.
Qed.

Lemma is_nan_Prim2SF x : is_nan x = false -> Prim2SF x <> S754_nan.
Proof.
  unfold is_nan. rewrite FloatAxioms.eqb_spec. intros Hx Hnan.
  rewrite Hnan in Hx. done.
Qed.

Lemma float_compare x y :
  is_nan x = false -> is_nan y = false ->
  SFcompare (Prim2SF x) (Prim2SF y) = Some (float_ord x ?= float_ord y).
Proof.
  intros Hx Hy. apply SFcompare_ord; auto using Prim2SF_valid, is_nan_Prim2SF.
Qed.


Lemma leb_ord x y :
  is_nan x = false -> is_nan y = false -> (x <=? y)%float = (float_ord x <=? float_ord y).
Proof.
  intros Hx Hy. rewrite FloatAxioms.leb_spec. unfold SFleb, Z.leb.
  rewrite float_compare by assumption. reflexivity.
Qed.


(** ** Shifting a mantissa to the right *)

Lemma shr_1_bits m r s :
  0 <= m -> shr_1 (Build_shr_record m r s) = Build_shr_record (m / 2) (Z.odd m) (r || s).
Proof.
  intros Hm. destruct m as [|[p|p|]|p]; try lia; simpl; f_equal.
  - rewrite Pos2Z.inj_xI. apply (Z.div_unique _ _ _ 1); lia.
  - rewrite Pos2Z.inj_xO. apply (Z.div_unique _ _ _ 0); lia.
Qed.

(** The record after [k] shifts of [m]: the quotient, the bit shifted out
    last, and whether a bit shifted out before it was set. *)
Lemma shifted_once m k :
  0 <= m -> 0 < k ->
  shr_1 (Build_shr_record (m / 2 ^ k) (Z.odd (m / 2 ^ (k - 1)))
                          (negb (m mod 2 ^ (k - 1) =? 0)))
  = Build_shr_record (m / 2 ^ (k + 1)) (Z.odd (m / 2 ^ k)) (negb (m mod 2 ^ k =? 0)).
Proof.
  intros Hm Hk.
  assert (0 < 2 ^ k) as Hpk by (apply Z.pow_pos_nonneg; lia).
  assert (0 < 2 ^ (k - 1)) as Hpk1 by (apply Z.pow_pos_nonneg; lia).
  rewrite shr_1_bits by (apply Z.div_pos; lia). f_equal.
  - rewrite Z.div_div by lia. f_equal. rewrite Z.pow_add_r by lia. done.
  - assert (2 ^ k = 2 ^ (k - 1) * 2) as Hk2.
    { replace k with (Z.succ (k - 1)) at 1 by lia. rewrite Z.pow_succ_r by lia. lia. }
    assert (m mod 2 ^ k = m mod 2 ^ (k - 1) + 2 ^ (k - 1) * ((m / 2 ^ (k - 1)) mod 2)) as ->.
    { rewrite Hk2. rewrite Z.rem_mul_r by lia. lia. }
    pose proof (Z.mod_pos_bound m (2 ^ (k - 1)) Hpk1) as Hr.
    rewrite (Zmod_odd (m / 2 ^ (k - 1))).
    destruct (Z.odd (m / 2 ^ (k - 1))); simpl.
    + symmetry. apply negb_true_iff, Z.eqb_neq. lia.
    + f_equal. f_equal. lia.
Qed.

Lemma shifted m p :
  0 <= m ->
  SpecFloat.iter_pos shr_1 p (Build_shr_record m false false)
  = Build_shr_record (m / 2 ^ Zpos p) (Z.odd (m / 2 ^ (Zpos p - 1)))
                     (negb (m mod 2 ^ (Zpos p - 1) =? 0)).
Proof.
  intros Hm.
  set (R := fun k => Build_shr_record (m / 2 ^ k) (Z.odd (m / 2 ^ (k - 1)))
                                      (negb (m mod 2 ^ (k - 1) =? 0))).
  assert (forall k, 0 < k -> shr_1 (R k) = R (k + 1)) as Hstep.
  { intros k Hk. unfold R. rewrite shifted_once by done.
    replace (k + 1 - 1) with k by lia. done. }
  assert (forall q k, 0 < k -> SpecFloat.iter_pos shr_1 q (R k) = R (k + Zpos q)) as Hiter.
  { induction q as [q IH|q IH|]; intros k Hk; cbn [SpecFloat.iter_pos].
    - rewrite Hstep, IH, IH by lia. f_equal. lia.
    - rewrite IH, IH by lia. f_equal. lia.
    - by rewrite Hstep. }
  assert (shr_1 (Build_shr_record m false false) = R 1) as Hone.
  { rewrite shr_1_bits by done. unfold R. simpl. rewrite Z.div_1_r, Z.mod_1_r.
    rewrite Z.pow_1_r. done. }
  change (SpecFloat.iter_pos shr_1 p (Build_shr_record m false false) = R (Zpos p)).
  destruct (Pos.eq_dec p 1%positive) as [->|Hp]; [exact Hone|].
  assert (forall q x, SpecFloat.iter_pos shr_1 q (shr_1 x)
                      = shr_1 (SpecFloat.iter_pos shr_1 q x)) as Hcomm.
  { induction q as [q IH|q IH|]; intros x; cbn [SpecFloat.iter_pos]; try done.
    - by rewrite !IH.
    - by rewrite !IH. }
  assert (forall q x, SpecFloat.iter_pos shr_1 (Pos.succ q) x
                      = SpecFloat.iter_pos shr_1 q (shr_1 x)) as Hsplit.
  { induction q as [q IH|q IH|]; intros x; cbn [SpecFloat.iter_pos Pos.succ]; try done.
    change (Pos.succ q~1) with (Pos.succ q)~0%positive. cbn [SpecFloat.iter_pos].
    rewrite !IH, !Hcomm. done. }
  rewrite <- (Pos.succ_pred p) at 1 by done.
  rewrite Hsplit, Hone, Hiter by lia. f_equal. lia.
Qed.

(** What [round_nearest_even] makes of the shifted mantissa. *)
Lemma round_shifted m p :
  0 <= m ->
  let mrs := SpecFloat.iter_pos shr_1 p (Build_shr_record m false false) in
  let g := 2 ^ Zpos p in
  round_nearest_even (shr_m mrs) (loc_of_shr_record mrs)
  = m / g + (if (g <? 2 * (m mod g)) || ((g =? 2 * (m mod g)) && Z.odd (m / g)) then 1 else 0).
Proof.
  intros Hm mrs g. subst mrs. rewrite shifted by done. simpl shr_m. fold g.
  assert (0 < 2 ^ (Zpos p - 1)) as Hh by (apply Z.pow_pos_nonneg; lia).
  assert (g = 2 ^ (Zpos p - 1) * 2) as Hg.
  { subst g. replace (Zpos p) with (Z.succ (Zpos p - 1)) at 1 by lia.
    rewrite Z.pow_succ_r by lia. lia. }
  assert (m mod g = m mod 2 ^ (Zpos p - 1)
                    + 2 ^ (Zpos p - 1) * ((m / 2 ^ (Zpos p - 1)) mod 2)) as Hrem.
  { rewrite Hg. rewrite Z.rem_mul_r by lia. lia. }
  pose proof (Z.mod_pos_bound m (2 ^ (Zpos p - 1)) Hh) as Hr.
  rewrite (Zmod_odd (m / 2 ^ (Zpos p - 1))) in Hrem.
  set (h := 2 ^ (Zpos p - 1)) in *. set (lo := m mod h) in *.
  destruct (Z.odd (m / h)) eqn:Hodd; destruct (Z.eqb_spec lo 0) as [Hz|Hnz]; simpl.
  - (* exactly half *)
    replace (g <? 2 * (m mod g)) with false by (symmetry; apply Z.ltb_ge; lia).
    replace (g =? 2 * (m mod g)) with true by (symmetry; apply Z.eqb_eq; lia).
    simpl. rewrite <- Z.negb_odd. destruct (Z.odd (m / g)); simpl; lia.
  - replace (g <? 2 * (m mod g)) with true by (symmetry; apply Z.ltb_lt; lia).
    simpl. lia.
  - replace (g <? 2 * (m mod g)) with false by (symmetry; apply Z.ltb_ge; lia).
    replace (g =? 2 * (m mod g)) with false by (symmetry; apply Z.eqb_neq; lia).
    simpl. lia.
  - replace (g <? 2 * (m mod g)) with false by (symmetry; apply Z.ltb_ge; lia).
    replace (g =? 2 * (m mod g)) with false by (symmetry; apply Z.eqb_neq; lia).
    simpl. lia.
Qed.

(** ** Rounding an exact value to binary64 *)

Lemma digits_log2 p : Zpos (digits2_pos p) = Z.log2 (Zpos p) + 1.
Proof.
  apply digits_unique.
  pose proof (Z.log2_spec (Zpos p) eq_refl) as H.
  replace (Z.log2 (Zpos p) + 1 - 1) with (Z.log2 (Zpos p)) by lia.
  replace (Z.log2 (Zpos p) + 1) with (Z.succ (Z.log2 (Zpos p))) by lia. exact H.
Qed.

Lemma fexp_unfold d : SpecFloat.fexp prec emax d = Z.max (d - 53) (-1074).
Proof. reflexivity. Qed.

Lemma ulp_exp_scaled m c :
  0 <= c -> ulp_exp (Zpos m * 2 ^ c) = Z.max (Z.log2 (Zpos m) + 1 + c - 53) 1074.
Proof.
  intros Hc. unfold ulp_exp. rewrite Z.log2_mul_pow2 by lia. f_equal. lia.
Qed.

Lemma log2_below x k : 0 < x -> x < 2 ^ k -> Z.log2 x < k.
Proof. intros Hx Hk. by apply Z.log2_lt_pow2. Qed.

(** The last step of [binary_round_aux]: a mantissa of at most 53 bits, or
    2^53 itself, is kept with its value. *)
Lemma round_finish_value q e :
  0 <= q <= 2 ^ 53 -> -1074 <= e <= 969 ->
  let r := (let '(mrs, e') := shr_fexp prec emax q e loc_Exact in
            match shr_m mrs with
            | Z0 => S754_zero false
            | Zpos p => if e' <=? emax - prec then S754_finite false p e' else S754_infinity false
            | Zneg _ => S754_nan
            end) in
  SF_unit_like r = true /\ SF_ord r = q * 2 ^ (e + SF_scale).
Proof.
  intros Hq He. unfold shr_fexp, shr. rewrite fexp_unfold.
  destruct q as [|p|p]; [| |lia].
  - simpl Zdigits2.
    destruct (Z.max (0 + e - 53) (-1074) - e) eqn:Hn; try lia; simpl; done.
  - simpl Zdigits2. rewrite digits_log2.
    destruct (Z.eq_dec (Zpos p) (2 ^ 53)) as [Hp|Hp].
    + rewrite Hp. change (Z.log2 (2 ^ 53)) with 53.
      replace (Z.max (53 + 1 + e - 53) (-1074) - e) with 1 by lia.
      cbn [SpecFloat.iter_pos shr_record_of_loc].
      rewrite shr_1_bits by lia.
      change (shr_m _) with (2 ^ 53 / 2). change (2 ^ 53 / 2) with (Zpos (2 ^ 52)).
      cbv iota beta.
      replace (e + 1 <=? emax - prec) with true
        by (symmetry; apply Z.leb_le; change (emax - prec) with 971; lia).
      split; [done|]. simpl SF_ord.
      replace (e + 1 + SF_scale) with (Z.succ (e + SF_scale)) by lia.
      rewrite Z.pow_succ_r by (unfold SF_scale; lia).
      change (Zpos (2 ^ 52)) with (2 ^ 52). change (2 ^ 53) with (2 * 2 ^ 52). lia.
    + assert (Z.log2 (Zpos p) < 53) as Hlog by (apply log2_below; lia).
      destruct (Z.max (Z.log2 (Zpos p) + 1 + e - 53) (-1074) - e) eqn:Hn; try lia.
      * cbn [shr_record_of_loc shr_m].
        replace (e <=? emax - prec) with true
          by (symmetry; apply Z.leb_le; change (emax - prec) with 971; lia).
        split; [done|]. simpl SF_ord. lia.
      * cbn [shr_record_of_loc shr_m].
        replace (e <=? emax - prec) with true
          by (symmetry; apply Z.leb_le; change (emax - prec) with 971; lia).
        split; [done|]. simpl SF_ord. lia.
Qed.

Lemma round_even_scaled m n c :
  0 <= m -> 0 < n -> 0 <= c -> ulp_exp (m * 2 ^ c) = n + c ->
  round_even (m * 2 ^ c)
  = (m / 2 ^ n + (if (2 ^ n <? 2 * (m mod 2 ^ n))
                     || ((2 ^ n =? 2 * (m mod 2 ^ n)) && Z.odd (m / 2 ^ n))
                  then 1 else 0)) * 2 ^ (n + c).
Proof.
  intros Hm Hn Hc Hulp. unfold round_even. rewrite Hulp. cbv zeta.
  assert (0 < 2 ^ n) as Hpn by (apply Z.pow_pos_nonneg; lia).
  assert (0 < 2 ^ c) as Hpc by (apply Z.pow_pos_nonneg; lia).
  rewrite (Z.pow_add_r 2 n c) by lia.
  rewrite Z.div_mul_cancel_r by lia.
  rewrite Z.mul_mod_distr_r by lia.
  pose proof (Z.mod_pos_bound m (2 ^ n) Hpn) as Hr.
  set (P := 2 ^ c) in *. set (G := 2 ^ n) in *. set (r := m mod G) in *.
  assert ((G * P <? 2 * (r * P)) = (G <? 2 * r)) as ->.
  { destruct (Z.ltb_spec G (2 * r)); [apply Z.ltb_lt|apply Z.ltb_ge]; nia. }
  assert ((G * P =? 2 * (r * P)) = (G =? 2 * r)) as ->.
  { destruct (Z.eqb_spec G (2 * r)); [apply Z.eqb_eq|apply Z.eqb_neq]; nia. }
  destruct ((G <? 2 * r) || ((G =? 2 * r) && Z.odd (m / G))); lia.
Qed.

Lemma round_even_exact m c :
  0 <= c -> ulp_exp (Zpos m * 2 ^ c) <= c -> round_even (Zpos m * 2 ^ c) = Zpos m * 2 ^ c.
Proof.
  intros Hc Hulp. unfold round_even. cbv zeta.
  set (u := ulp_exp (Zpos m * 2 ^ c)) in *.
  assert (1074 <= u) as Hu by (unfold u, ulp_exp; lia).
  assert (0 < 2 ^ u) as Hpu by (apply Z.pow_pos_nonneg; lia).
  assert (Zpos m * 2 ^ c = (Zpos m * 2 ^ (c - u)) * 2 ^ u) as Hx.
  { rewrite <- Z.mul_assoc, <- Z.pow_add_r by lia. do 2 f_equal. lia. }
  rewrite Hx. rewrite Z.mod_mul, Z.div_mul by lia.
  replace (2 ^ u <? 2 * 0) with false by (symmetry; apply Z.ltb_ge; lia).
  replace (2 ^ u =? 2 * 0) with false by (symmetry; apply Z.eqb_neq; lia).
  reflexivity.
Qed.

(** [binary_round_aux] on an exact positive value rounds it to nearest, ties
    to even. *)
Lemma binary_round_aux_value m e :
  - SF_scale <= e -> Zpos m * 2 ^ (e + SF_scale) < 2 ^ (SF_scale + 64) ->
  let r := binary_round_aux prec emax false (Zpos m) e loc_Exact in
  SF_unit_like r = true /\ SF_ord r = round_even (Zpos m * 2 ^ (e + SF_scale)).
Proof.
  intros He Hx r.
  assert (0 <= e + SF_scale) as Hc by lia.
  pose proof (ulp_exp_scaled m (e + SF_scale) Hc) as Hulp.
  assert (0 < 2 ^ (e + SF_scale)) as Hpc by (apply Z.pow_pos_nonneg; lia).
  assert (Z.log2 (Zpos m * 2 ^ (e + SF_scale)) < SF_scale + 64) as Hlog.
  { apply log2_below; [lia|done]. }
  rewrite Z.log2_mul_pow2 in Hlog by lia.
  pose proof (Z.log2_nonneg (Zpos m)) as Hl0.
  assert (exists q e',
             0 <= q <= 2 ^ 53 /\ -1074 <= e' <= 969
             /\ q * 2 ^ (e' + SF_scale) = round_even (Zpos m * 2 ^ (e + SF_scale))
             /\ r = (let '(mrs, e'') := shr_fexp prec emax q e' loc_Exact in
                     match shr_m mrs with
                     | Z0 => S754_zero false
                     | Zpos p => if e'' <=? emax - prec then S754_finite false p e''
                                 else S754_infinity false
                     | Zneg _ => S754_nan
                     end)) as (q & e' & Hq & He' & Hval & ->).
  { subst r. unfold binary_round_aux. unfold shr_fexp at 1. unfold shr.
    rewrite fexp_unfold. simpl Zdigits2. rewrite digits_log2.
    destruct (Z.max (Z.log2 (Zpos m) + 1 + e - 53) (-1074) - e) as [|n|n] eqn:Hn.
    - exists (Zpos m), e.
      assert (Z.log2 (Zpos m) < 53) as Hm53 by lia.
      assert (Zpos m < 2 ^ 53) as Hm by (apply Z.log2_lt_pow2; lia).
      split; [lia|]. split; [unfold SF_scale in *; lia|]. split; [|reflexivity].
      rewrite round_even_exact; [done|done|rewrite Hulp; unfold SF_scale in *; lia].
    - exists (round_nearest_even
                (shr_m (SpecFloat.iter_pos shr_1 n (shr_record_of_loc (Zpos m) loc_Exact)))
                (loc_of_shr_record
                   (SpecFloat.iter_pos shr_1 n (shr_record_of_loc (Zpos m) loc_Exact)))),
             (e + Zpos n).
      cbn [shr_record_of_loc].
      rewrite round_shifted by lia. cbv zeta.
      set (q := Zpos m / 2 ^ Zpos n + _).
      assert (0 < 2 ^ Zpos n) as Hpn by (apply Z.pow_pos_nonneg; lia).
      assert (0 <= Zpos m / 2 ^ Zpos n < 2 ^ 53) as Hdiv.
      { split; [apply Z.div_pos; lia|]. apply Z.div_lt_upper_bound; [lia|].
        rewrite <- Z.pow_add_r by lia.
        pose proof (Z.log2_spec (Zpos m) eq_refl) as [_ Hup].
        eapply Z.lt_le_trans; [exact Hup|]. apply Z.pow_le_mono_r; lia. }
      split; [subst q; destruct (_ || _); lia|].
      split; [unfold SF_scale in *; lia|]. split; [|reflexivity].
      rewrite (round_even_scaled (Zpos m) (Zpos n) (e + SF_scale))
        by (try rewrite Hulp; unfold SF_scale in *; lia).
      fold q. do 2 f_equal. lia.
    - exists (Zpos m), e.
      assert (Z.log2 (Zpos m) < 53) as Hm53 by lia.
      assert (Zpos m < 2 ^ 53) as Hm by (apply Z.log2_lt_pow2; lia).
      split; [lia|]. split; [unfold SF_scale in *; lia|]. split; [|reflexivity].
      rewrite round_even_exact; [done|done|rewrite Hulp; unfold SF_scale in *; lia]. }
  rewrite <- Hval. by apply round_finish_value.
Qed.

(** ** Rounding keeps the order *)

Lemma ulp_exp_ge x : 1074 <= ulp_exp x.
Proof. unfold ulp_exp. lia. Qed.

Lemma ulp_exp_mono x y : 0 <= x <= y -> ulp_exp x <= ulp_exp y.
Proof.
  intros [Hx Hxy]. unfold ulp_exp.
  pose proof (Z.log2_le_mono x y Hxy). lia.
Qed.

Lemma round_even_bounds x :
  0 <= x ->
  x / 2 ^ ulp_exp x * 2 ^ ulp_exp x <= round_even x <= (x / 2 ^ ulp_exp x + 1) * 2 ^ ulp_exp x.
Proof.
  intros Hx. unfold round_even. cbv zeta.
  pose proof (ulp_exp_ge x) as Hu.
  assert (0 < 2 ^ ulp_exp x) as Hg by (apply Z.pow_pos_nonneg; lia).
  destruct (_ || _); lia.
Qed.

Lemma round_even_zero : round_even 0 = 0.
Proof. reflexivity. Qed.

Lemma round_even_nonneg x : 0 <= x -> 0 <= round_even x.
Proof.
  intros Hx. pose proof (round_even_bounds x Hx) as [Hlo _].
  pose proof (ulp_exp_ge x) as Hu.
  assert (0 < 2 ^ ulp_exp x) as Hg by (apply Z.pow_pos_nonneg; lia).
  assert (0 <= x / 2 ^ ulp_exp x) by (apply Z.div_pos; lia).
  etrans; [|exact Hlo]. apply Z.mul_nonneg_nonneg; lia.
Qed.

(** Rounding to nearest keeps the order. *)
Lemma round_even_mono x y : 0 <= x <= y -> round_even x <= round_even y.
Proof.
  intros [Hx Hxy].
  pose proof (ulp_exp_mono x y (conj Hx Hxy)) as Hmono.
  pose proof (ulp_exp_ge x) as Hux.
  destruct (Z.eq_dec (ulp_exp x) (ulp_exp y)) as [Heq|Hne].
  - unfold round_even. cbv zeta. rewrite <- Heq.
    set (g := 2 ^ ulp_exp x).
    assert (0 < g) as Hg by (apply Z.pow_pos_nonneg; lia).
    pose proof (Z.div_mod x g ltac:(lia)) as Hdx.
    pose proof (Z.div_mod y g ltac:(lia)) as Hdy.
    pose proof (Z.mod_pos_bound x g Hg) as Hrx.
    pose proof (Z.mod_pos_bound y g Hg) as Hry.
    pose proof (Z.div_le_mono x y g Hg Hxy) as Hq.
    set (qx := x / g) in *. set (qy := y / g) in *.
    set (rx := x mod g) in *. set (ry := y mod g) in *.
    destruct (Z.eq_dec qx qy) as [Hqq|Hqq].
    + rewrite <- Hqq in *. assert (rx <= ry) as Hr by lia.
      destruct (Z.ltb_spec g (2 * rx)), (Z.ltb_spec g (2 * ry)),
        (Z.eqb_spec g (2 * rx)), (Z.eqb_spec g (2 * ry)), (Z.odd qx);
        cbn [orb andb]; lia.
    + assert ((qx + 1) * g <= qy * g) as Hstep.
      { apply Z.mul_le_mono_nonneg_r; lia. }
      destruct (_ || _), (_ || _); lia.
  - assert (ulp_exp x < ulp_exp y) as Hlt by lia.
    assert (0 < y) as Hy.
    { destruct (Z.eq_dec y 0) as [->|]; [|lia]. assert (x = 0) as -> by lia. lia. }
    assert (ulp_exp y = Z.log2 y + 1 - 53) as Huy by (unfold ulp_exp in *; lia).
    set (B := 2 ^ (ulp_exp y + 52)).
    assert (B <= y) as HBy.
    { subst B. replace (ulp_exp y + 52) with (Z.log2 y) by lia.
      by apply Z.log2_spec. }
    assert (x < B) as HxB.
    { subst B. destruct (Z.eq_dec x 0) as [->|Hx0].
      - apply Z.pow_pos_nonneg; lia.
      - apply Z.log2_lt_pow2; [lia|]. unfold ulp_exp in Hlt. lia. }
    assert (0 < 2 ^ ulp_exp x) as Hgx by (apply Z.pow_pos_nonneg; lia).
    assert (0 < 2 ^ ulp_exp y) as Hgy by (apply Z.pow_pos_nonneg; lia).
    assert (B = 2 ^ (ulp_exp y + 52 - ulp_exp x) * 2 ^ ulp_exp x) as HBx.
    { subst B. rewrite <- Z.pow_add_r by lia. f_equal. lia. }
    assert (B = 2 ^ 52 * 2 ^ ulp_exp y) as HBy2.
    { subst B. rewrite <- Z.pow_add_r by lia. f_equal. lia. }
    pose proof (round_even_bounds x Hx) as [_ Hhi].
    pose proof (round_even_bounds y ltac:(lia)) as [Hlo _].
    assert ((x / 2 ^ ulp_exp x + 1) * 2 ^ ulp_exp x <= B) as H1.
    { rewrite HBx. apply Z.mul_le_mono_nonneg_r; [lia|].
      assert (x / 2 ^ ulp_exp x < 2 ^ (ulp_exp y + 52 - ulp_exp x)); [|lia].
      apply Z.div_lt_upper_bound; [lia|]. rewrite Z.mul_comm, <- HBx. done. }
    assert (B <= y / 2 ^ ulp_exp y * 2 ^ ulp_exp y) as H2.
    { rewrite HBy2. apply Z.mul_le_mono_nonneg_r; [lia|].
      apply Z.div_le_lower_bound; [lia|]. rewrite Z.mul_comm, <- HBy2. done. }
    lia.
Qed.

(** ** Products and sums *)

Lemma unit_like_ord_nonneg x : SF_unit_like x = true -> 0 <= SF_ord x.
Proof.
  destruct x as [s|s| |[] m e]; try done. intros _. simpl.
  assert (0 <= 2 ^ (e + SF_scale)) by (apply Z.pow_nonneg; lia). lia.
Qed.

(** A binary64 number is its own rounding. *)
Lemma round_even_valid x :
  valid_binary x = true -> SF_unit_like x = true -> round_even (SF_ord x) = SF_ord x.
Proof.
  destruct x as [s|s| |[] m e]; try done. intros Hv _.
  apply valid_canonical in Hv as (Hm & He & _). simpl SF_ord.
  replace (1 * (Zpos m * 2 ^ (e + SF_scale))) with (Zpos m * 2 ^ (e + SF_scale)) by lia.
  apply round_even_exact; [unfold SF_scale; lia|].
  rewrite ulp_exp_scaled by (unfold SF_scale; lia).
  assert (Z.log2 (Zpos m) < 53) by (apply Z.log2_lt_pow2; lia).
  unfold SF_scale. lia.
Qed.

(** The product of two numbers that are not negative is the exact product,
    rounded. *)
Lemma SFmul_value x y :
  valid_binary x = true -> valid_binary y = true ->
  SF_unit_like x = true -> SF_unit_like y = true ->
  SF_ord x * SF_ord y < 2 ^ (SF_scale + SF_scale + 64) ->
  SF_unit_like (SFmul prec emax x y) = true
  /\ SF_ord (SFmul prec emax x y) = round_even (SF_ord x * SF_ord y / 2 ^ SF_scale).
Proof.
  intros Hvx Hvy Hx Hy Hb.
  destruct x as [sx|sx| |[] mx ex], y as [sy|sy| |[] my ey]; try done;
    try (split; [done|]; simpl SF_ord;
         rewrite ?Z.mul_0_l, ?Z.mul_0_r; reflexivity).
  apply valid_canonical in Hvx as (Hmx & Hex & _), Hvy as (Hmy & Hey & _).
  assert (0 < 2 ^ SF_scale) as HK by (apply Z.pow_pos_nonneg; unfold SF_scale; lia).
  assert (SF_ord (S754_finite false mx ex) * SF_ord (S754_finite false my ey)
          = Zpos (mx * my) * 2 ^ (ex + ey + SF_scale) * 2 ^ SF_scale) as Hprod.
  { assert (2 ^ (ex + ey + SF_scale) * 2 ^ SF_scale
            = 2 ^ (ex + SF_scale) * 2 ^ (ey + SF_scale)) as E.
    { rewrite <- !Z.pow_add_r by (unfold SF_scale; lia). f_equal. lia. }
    unfold SF_ord. rewrite Pos2Z.inj_mul.
    transitivity (Zpos mx * Zpos my * (2 ^ (ex + SF_scale) * 2 ^ (ey + SF_scale)));
      [ring|rewrite <- E; ring]. }
  rewrite Hprod in Hb |- *. rewrite Z.div_mul by lia.
  cbn [SFmul xorb].
  apply binary_round_aux_value; [unfold SF_scale; lia|].
  rewrite (Z.pow_add_r 2 (SF_scale + SF_scale) 64) in Hb by (unfold SF_scale; lia).
  rewrite (Z.pow_add_r 2 SF_scale SF_scale) in Hb by (unfold SF_scale; lia).
  rewrite (Z.pow_add_r 2 SF_scale 64) by (unfold SF_scale; lia).
  nia.
Qed.

Lemma shl_align_fst m e e' :
  e' <= e -> Zpos (shl_align m e e').1 = Zpos m * 2 ^ (e - e').
Proof.
  intros He. unfold shl_align.
  destruct (e' - e) as [|d|d] eqn:Hd; try lia; cbn [fst].
  - replace (e - e') with 0 by lia. lia.
  - rewrite iter_xO_pow2. do 2 f_equal. lia.
Qed.

Lemma shl_align_value m e e' c :
  0 <= e + c -> 0 <= e' + c ->
  Zpos (shl_align m e e').1 * 2 ^ ((shl_align m e e').2 + c) = Zpos m * 2 ^ (e + c)
  /\ (shl_align m e e').2 = Z.min e e'.
Proof.
  intros He He'. unfold shl_align.
  destruct (e' - e) as [|d|d] eqn:Hd; cbn [fst snd]; try (split; [done|lia]).
  split; [|lia]. rewrite iter_xO_pow2.
  rewrite <- Z.mul_assoc, <- Z.pow_add_r by lia. do 2 f_equal. lia.
Qed.

(** The sum of two numbers that are not negative is the exact sum,
    rounded. *)
Lemma SFadd_value x y :
  valid_binary x = true -> valid_binary y = true ->
  SF_unit_like x = true -> SF_unit_like y = true ->
  SF_ord x + SF_ord y < 2 ^ (SF_scale + 64) ->
  SF_unit_like (SFadd prec emax x y) = true
  /\ SF_ord (SFadd prec emax x y) = round_even (SF_ord x + SF_ord y).
Proof.
  intros Hvx Hvy Hx Hy Hb.
  destruct x as [sx|sx| |[] mx ex], y as [sy|sy| |[] my ey]; try done.
  - split; [by destruct sx, sy|]. by destruct sx, sy.
  - split; [done|]. cbn [SFadd]. rewrite Z.add_0_l. symmetry. by apply round_even_valid.
  - split; [done|]. cbn [SFadd]. change (SF_ord (S754_zero sy)) with 0.
    rewrite Z.add_0_r. symmetry. by apply round_even_valid.
  - apply valid_canonical in Hvx as (Hmx & Hex & _), Hvy as (Hmy & Hey & _).
    cbn [SFadd cond_Zopp]. cbv zeta.
    set (ez := Z.min ex ey).
    rewrite !shl_align_fst by lia.
    assert (0 < 2 ^ (ex - ez)) as Hp1 by (apply Z.pow_pos_nonneg; lia).
    assert (0 < 2 ^ (ey - ez)) as Hp2 by (apply Z.pow_pos_nonneg; lia).
    destruct (Zpos mx * 2 ^ (ex - ez) + Zpos my * 2 ^ (ey - ez)) as [|ms|ms] eqn:Hs; try lia.
    cbn [binary_normalize]. unfold binary_round.
    set (ef := SpecFloat.fexp prec emax (Zpos (digits2_pos ms) + ez)).
    assert (-1074 <= ef) as Hef by (subst ef; rewrite fexp_unfold; lia).
    destruct (shl_align_value ms ez ef SF_scale) as [Hval Hmin];
      [unfold SF_scale; lia|unfold SF_scale; lia|].
    destruct (shl_align ms ez ef) as [mz ez'] eqn:Hsh. cbn [fst snd] in Hval, Hmin.
    assert (Zpos ms * 2 ^ (ez + SF_scale)
            = SF_ord (S754_finite false mx ex) + SF_ord (S754_finite false my ey)) as Hsum.
    { rewrite <- Hs. simpl SF_ord. rewrite Z.mul_add_distr_r.
      rewrite <- !Z.mul_assoc, <- !Z.pow_add_r by (unfold SF_scale; lia).
      replace (ex - ez + (ez + SF_scale)) with (ex + SF_scale) by lia.
      replace (ey - ez + (ez + SF_scale)) with (ey + SF_scale) by lia. lia. }
    rewrite <- Hsum in Hb |- *. rewrite <- Hval in Hb |- *.
    apply binary_round_aux_value; [unfold SF_scale; lia|done].
Qed.

(** ** On primitive floats *)

Lemma unit_like_not_nan x : SF_unit_like (Prim2SF x) = true -> is_nan x = false.
Proof.
  intros Hx. unfold is_nan. rewrite FloatAxioms.eqb_spec. unfold SFeqb.
  rewrite SFcompare_ord; [by rewrite Z.compare_refl|apply Prim2SF_valid..| |];
    by destruct (Prim2SF x).
Qed.

Lemma float_mul_value x y :
  SF_unit_like (Prim2SF x) = true -> SF_unit_like (Prim2SF y) = true ->
  float_ord x * float_ord y < 2 ^ (SF_scale + SF_scale + 64) ->
  SF_unit_like (Prim2SF (x * y)) = true
  /\ float_ord (x * y) = round_even (float_ord x * float_ord y / 2 ^ SF_scale).
Proof.
  intros Hx Hy Hb. unfold float_ord. rewrite FloatAxioms.mul_spec.
  apply SFmul_value; auto using Prim2SF_valid.
Qed.

Lemma float_add_value x y :
  SF_unit_like (Prim2SF x) = true -> SF_unit_like (Prim2SF y) = true ->
  float_ord x + float_ord y < 2 ^ (SF_scale + 64) ->
  SF_unit_like (Prim2SF (x + y)) = true
  /\ float_ord (x + y) = round_even (float_ord x + float_ord y).
Proof.
  intros Hx Hy Hb. unfold float_ord. rewrite FloatAxioms.add_spec.
  apply SFadd_value; auto using Prim2SF_valid.
Qed.

(** Products and sums of numbers that are not negative grow with their
    operands, rounding included. *)
Lemma float_mul_mono w x bound :
  SF_unit_like (Prim2SF w) = true -> SF_unit_like (Prim2SF x) = true ->
  SF_unit_like (Prim2SF bound) = true ->
  float_ord x <= float_ord bound ->
  float_ord w * float_ord bound < 2 ^ (SF_scale + SF_scale + 64) ->
  SF_unit_like (Prim2SF (w * x)) = true /\ float_ord (w * x) <= float_ord (w * bound).
Proof.
  intros Hw Hx HX Hle Hb.
  pose proof (unit_like_ord_nonneg _ Hw) as H0w.
  pose proof (unit_like_ord_nonneg _ Hx) as H0x.
  fold (float_ord w) in H0w. fold (float_ord x) in H0x.
  assert (float_ord w * float_ord x <= float_ord w * float_ord bound) as Hprod
    by (apply Z.mul_le_mono_nonneg_l; lia).
  destruct (float_mul_value w x Hw Hx) as [Hu Hv]; [lia|].
  destruct (float_mul_value w bound Hw HX Hb) as [_ HV].
  split; [done|]. rewrite Hv, HV.
  assert (0 < 2 ^ SF_scale) as HK by (apply Z.pow_pos_nonneg; unfold SF_scale; lia).
  apply round_even_mono. split.
  - apply Z.div_pos; [|lia]. apply Z.mul_nonneg_nonneg; lia.
  - by apply Z.div_le_mono.
Qed.

Lemma float_add_mono a b bound_a bound_b :
  SF_unit_like (Prim2SF a) = true -> SF_unit_like (Prim2SF b) = true ->
  SF_unit_like (Prim2SF bound_a) = true -> SF_unit_like (Prim2SF bound_b) = true ->
  float_ord a <= float_ord bound_a -> float_ord b <= float_ord bound_b ->
  float_ord bound_a + float_ord bound_b < 2 ^ (SF_scale + 64) ->
  SF_unit_like (Prim2SF (a + b)) = true /\ float_ord (a + b) <= float_ord (bound_a + bound_b).
Proof.
  intros Ha Hb HA HB Hla Hlb Hbd.
  pose proof (unit_like_ord_nonneg _ Ha) as H0a.
  pose proof (unit_like_ord_nonneg _ Hb) as H0b.
  fold (float_ord a) in H0a. fold (float_ord b) in H0b.
  destruct (float_add_value a b Ha Hb) as [Hu Hv]; [lia|].
  destruct (float_add_value bound_a bound_b HA HB Hbd) as [_ HV].
  split; [done|]. rewrite Hv, HV. apply round_even_mono. lia.
Qed.

End Binary64.

(** * The sort *)

Section SortedFacts.
Context {A K : Type} (key : A → K) (lt : K → K → option bool).

Lemma insert_desc_perm x l r :
  Py.insert_desc key lt x l = Some r → r ≡ₚ x :: l.
Proof.
  revert r. induction l as [|y l IH]; simpl; intros r Hr.
  - by simplify_eq.
  - destruct (lt (key x) (key y)) as [[|]|]; simplify_eq/=; [|done].
    destruct (Py.insert_desc key lt x l) as [r'|]; simplify_eq/=.
    rewrite (IH r' eq_refl). apply Permutation_swap.
Qed.

Lemma sorted_desc_perm l r : Py.sorted_desc key lt l = Some r → r ≡ₚ l.
Proof.
  revert r. induction l as [|x l IH]; simpl; intros r Hr.
  - by simplify_eq.
  - destruct (Py.sorted_desc key lt l) as [s|]; simplify_eq/=.
    rewrite (insert_desc_perm _ _ _ Hr). by rewrite (IH s eq_refl).
Qed.

Lemma insert_desc_is_Some x l :
  Forall (λ y, is_Some (lt (key x) (key y))) l → is_Some (Py.insert_desc key lt x l).
Proof.
  induction 1 as [|y l [c Hc] _ [r Hr]]; simpl; [done|].
  rewrite Hc. simpl. destruct c; [rewrite Hr|]; done.
Qed.

Lemma sorted_desc_is_Some l :
  (∀ x y, x ∈ l → y ∈ l → is_Some (lt (key x) (key y))) →
  is_Some (Py.sorted_desc key lt l).
Proof.
  induction l as [|x l IH]; simpl; intros Hl; [done|].
  destruct IH as [s Hs]; [intros; apply Hl; by constructor|].
  rewrite Hs. simpl. apply insert_desc_is_Some.
  apply Forall_forall. intros y Hy. apply Hl; [left|right].
  by rewrite <- (sorted_desc_perm _ _ Hs).
Qed.

Hypothesis lt_asym : ∀ a b, lt a b = Some true → lt b a = Some false.

Lemma insert_desc_sorted x l r :
  Sorted (may_precede key lt) l → Py.insert_desc key lt x l = Some r →
  Sorted (may_precede key lt) r.
Proof.
  revert r. induction l as [|y l IH]; simpl; intros r Hl Hr.
  - simplify_eq. repeat constructor.
  - destruct (lt (key x) (key y)) as [[|]|] eqn:Hxy; simplify_eq/=.
    + destruct (Py.insert_desc key lt x l) as [r'|] eqn:Hr'; simplify_eq/=.
      apply Sorted_inv in Hl as [Hl Hhd]. constructor; [by apply IH|].
      destruct l as [|z l]; simpl in Hr'.
      * simplify_eq. constructor. by apply lt_asym.
      * apply HdRel_inv in Hhd.
        destruct (lt (key x) (key z)) as [[|]|]; simplify_eq/=.
        -- destruct (Py.insert_desc key lt x l); simplify_eq/=. by constructor.
        -- constructor. by apply lt_asym.
    + constructor; [done|]. by constructor.
Qed.

Lemma sorted_desc_sorted l r :
  Py.sorted_desc key lt l = Some r → Sorted (may_precede key lt) r.
Proof.
  revert r. induction l as [|x l IH]; simpl; intros r Hr.
  - simplify_eq. constructor.
  - destruct (Py.sorted_desc key lt l) as [s|]; simplify_eq/=.
    eapply insert_desc_sorted; [|done]. by apply IH.
Qed.
End SortedFacts.

(** * The view *)

Lemma clamp_limit_range n : (1 ≤ clamp_limit n ≤ 24)%Z.
Proof. unfold clamp_limit. lia. Qed.

Lemma clamp_limit_cases n : clamp_limit n = clamp_cases n.
Proof.
  unfold clamp_limit, clamp_cases.
  destruct (Z.ltb_spec n 1), (Z.ltb_spec 24 n); lia.
Qed.

Lemma effective_limit_range param : (1 ≤ effective_limit param ≤ 24)%Z.
Proof. apply clamp_limit_range. Qed.

Lemma top_rated_lt_is_Some k1 k2 : is_Some (top_rated_lt k1 k2).
Proof.
  unfold top_rated_lt, Py.tuple_lt, Py.float_lt.
  destruct (Py.float_eq k1.1 k2.1), (Py.float_eq k1.2 k2.2); eauto.
Qed.

Lemma top_rated_lt_asym k1 k2 :
  top_rated_lt k1 k2 = Some true → top_rated_lt k2 k1 = Some false.
Proof.
  unfold top_rated_lt, Py.tuple_lt, Py.float_lt, Py.float_eq.
  rewrite (Binary64.eqb_sym k2.1 k1.1), (Binary64.eqb_sym k2.2 k1.2).
  destruct (k1.1 =? k2.1)%float, (k1.2 =? k2.2)%float; intros ?; simplify_eq;
    by rewrite Binary64.ltb_asym.
Qed.

Lemma sort_top_rated_is_Some l : is_Some (sort_top_rated l).
Proof. apply sorted_desc_is_Some. intros. apply top_rated_lt_is_Some. Qed.

Lemma scored_lt_is_Some s1 r1 s2 r2 : is_Some (scored_lt (s1, Some r1) (s2, Some r2)).
Proof.
  unfold scored_lt, Py.tuple_lt, Py.float_lt. simpl.
  destruct (Py.float_eq s1 s2), (r1 =? r2)%float; eauto.
Qed.

Lemma sort_scored_is_Some (f : Book.t → float) l :
  ratings_present l → is_Some (sort_scored ((λ b, (f b, b)) <$> l)).
Proof.
  intros Hl. apply sorted_desc_is_Some.
  intros x y [bx [-> Hx]]%list_elem_of_fmap [by' [-> Hy]]%list_elem_of_fmap.
  unfold ratings_present in Hl. rewrite Forall_forall in Hl.
  destruct (Hl _ Hx) as [rx Hrx], (Hl _ Hy) as [ry Hry].
  unfold scored_key. simpl. rewrite Hrx, Hry. apply scored_lt_is_Some.
Qed.

Lemma elem_of_exclude_id_in ids catalog b :
  b ∈ exclude_id_in ids catalog ↔ (Book.id b ∉ ids) ∧ b ∈ catalog.
Proof. unfold exclude_id_in. by rewrite list_elem_of_filter. Qed.


Lemma ratings_present_exclude ids catalog :
  ratings_present catalog → ratings_present (exclude_id_in ids catalog).
Proof.
  unfold ratings_present. rewrite !Forall_forall.
  intros H b [_ Hb]%elem_of_exclude_id_in. by apply H.
Qed.

Lemma scored_books (f : Book.t → float) (l : list Book.t) :
  snd <$> ((λ b, (f b, b)) <$> l) = l.
Proof. induction l as [|b l IH]; [done|]. rewrite !fmap_cons. simpl. by rewrite IH. Qed.

Lemma filter_none {A} (P : A → Prop) `{∀ x, Decision (P x)} (l : list A) :
  (∀ x, x ∈ l → ¬ P x) → filter P l = [].
Proof.
  induction l as [|x l IH]; intros Hl; [done|].
  rewrite filter_cons_False by (apply Hl; left).
  apply IH. intros y Hy. apply Hl. by right.
Qed.

(** When fewer than [limit] books were selected, every candidate was, and no
    filler is left. *)
Lemma no_filler sg catalog (n : nat) (ranked : list Book.t) :
  ranked ≡ₚ exclude_id_in (saved_ids sg) catalog →
  length (take n ranked) < n →
  exclude_id_in (saved_ids sg ∪ book_ids (take n ranked)) catalog = [].
Proof.
  intros Hperm Hlen. rewrite length_take in Hlen.
  rewrite take_ge by lia.
  apply filter_none. intros b Hb Hnot. apply Hnot.
  destruct (decide (Book.id b ∈ saved_ids sg)) as [|Hns]; [set_solver|].
  apply elem_of_union_r, elem_of_list_to_set, list_elem_of_fmap_2.
  rewrite Hperm. by apply elem_of_exclude_id_in.
Qed.

Lemma backfill_adds_nothing sg catalog limit (scored_sorted : list (float * Book.t)) :
  scored_sorted ≡ₚ (λ b, (score sg b, b)) <$> exclude_id_in (saved_ids sg) catalog →
  backfill sg catalog limit (snd <$> take (Z.to_nat limit) scored_sorted)
  = Some (snd <$> take (Z.to_nat limit) scored_sorted).
Proof.
  intros Hperm. unfold backfill. case_bool_decide as Hlt; [|done].
  rewrite fmap_take in Hlt |- *. rewrite no_filler.
  - simpl. by rewrite take_nil, app_nil_r.
  - by rewrite Hperm, scored_books.
  - lia.
Qed.

Lemma recommend_with_backfill user catalog limit :
  recommend_with backfill user catalog limit
  = recommend_with (λ _ _ _ books, Some books) user catalog limit.
Proof.
  unfold recommend_with.
  destruct (bool_decide _ && bool_decide _); [done|].
  destruct (sort_scored _) as [scored_sorted|] eqn:Hsort; [simpl|done].
  apply backfill_adds_nothing. by apply sorted_desc_perm in Hsort.
Qed.

(** Every result is a prefix of some ordering of the books not saved. *)
Lemma recommend_ranked user catalog limit out :
  recommend_with backfill user catalog limit = Some out →
  ∃ ranked, ranked ≡ₚ exclude_id_in (saved_ids (gather_signals user catalog)) catalog
            ∧ out = take (Z.to_nat limit) ranked.
Proof.
  rewrite recommend_with_backfill. unfold recommend_with.
  destruct (bool_decide _ && bool_decide _).
  - destruct (sort_top_rated _) as [s|] eqn:Hs; intros; simplify_eq/=.
    exists s. split; [|done]. by apply sorted_desc_perm in Hs.
  - destruct (sort_scored _) as [s|] eqn:Hs; intros; simplify_eq/=.
    exists (snd <$> s). split; [|by rewrite fmap_take].
    apply sorted_desc_perm in Hs. by rewrite Hs, scored_books.
Qed.

Lemma recommend_is_Some user catalog limit :
  ratings_present catalog → is_Some (recommend_with backfill user catalog limit).
Proof.
  intros Hr. rewrite recommend_with_backfill. unfold recommend_with.
  destruct (bool_decide _ && bool_decide _).
  - destruct (sort_top_rated_is_Some
                (exclude_id_in (saved_ids (gather_signals user catalog)) catalog)) as [s ->].
    by eexists.
  - destruct (sort_scored_is_Some (score (gather_signals user catalog))
                (exclude_id_in (saved_ids (gather_signals user catalog)) catalog)) as [s ->].
    + by apply ratings_present_exclude.
    + by eexists.
Qed.

(** * The stable sort *)

Section StableSort.
Context {A K : Type} (key : A → K) (lt : K → K → option bool).
Context (P : A → Prop) (above alike : A → A → bool).

Hypothesis lt_above : ∀ x y, P x → P y → lt (key x) (key y) = Some (above y x).
Hypothesis above_asym : ∀ x y, P x → P y → above x y = true → above y x = false.
Hypothesis above_trans :
  ∀ x y z, P x → P y → P z → above y x = false → above z y = false → above z x = false.
Hypothesis alike_above :
  ∀ x y, P x → P y → alike x y = negb (above x y) && negb (above y x).
Hypothesis alike_class :
  ∀ b x y, P x → P y → alike b x = true → alike b y = true → alike x y = true.





End StableSort.

(** * The order of the top-rated list *)














(** * The signals *)

Lemma in_unit_zero : in_unit 0 = true.
Proof. reflexivity. Qed.

Lemma in_unit_one : in_unit 1 = true.
Proof. reflexivity. Qed.

Lemma clamp01_in_unit x : in_unit (clamp01 x) = true.
Proof.
  destruct x as [x|]; [|reflexivity].
  unfold clamp01, Py.float_max, Py.float_min.
  destruct (x <? 1)%float eqn:Hx1; [|reflexivity].
  destruct (0 <? x)%float eqn:H0x; [|reflexivity].
  unfold in_unit. by rewrite !Binary64.ltb_leb.
Qed.

Lemma jaccard_in_unit (a b : gset string) :
  exact_len (a ∪ b) → in_unit (jaccard a b) = true.
Proof.
  intros Hlen. unfold jaccard.
  destruct (bool_decide (a = ∅) && bool_decide (b = ∅)); [reflexivity|].
  case_bool_decide as Hu; [reflexivity|].
  apply Binary64.float_ratio_in_unit; [|
    |exact Hlen].
  - apply subseteq_size. etrans; [apply intersection_subseteq_l|apply union_subseteq_l].
  - assert (size (a ∪ b) ≠ 0); [|lia]. apply size_non_empty_iff. intros HX. apply Hu. by apply leibniz_equiv.
Qed.

Lemma blend_nonneg fav saved auth rate liked lang :
  in_unit fav = true → in_unit saved = true → in_unit auth = true →
  in_unit rate = true → in_unit liked = true → in_unit lang = true →
  (0 <=? blend fav saved auth rate liked lang)%float = true.
Proof.
  intros. apply Binary64.nonneg_leb. unfold blend.
  rewrite !FloatAxioms.add_spec, !FloatAxioms.mul_spec.
  unfold SF64add, SF64mul.
  repeat apply Binary64.SFadd_nonneg;
    (apply Binary64.SFmul_nonneg; [vm_compute; reflexivity | by apply Binary64.in_unit_unit_like]).
Qed.

Lemma sub_scores_unit sg b :
  exact_len (favorite_genres sg ∪ b_genres b) →
  exact_len (saved_genres_union sg ∪ b_genres b) →
  Forall (λ x, in_unit x = true) (sub_scores sg b).
Proof.
  intros Hf Hs. unfold sub_scores. repeat constructor.
  - unfold fav_genre_sim. case_bool_decide; [reflexivity|by apply jaccard_in_unit].
  - unfold saved_genre_sim. case_bool_decide; [reflexivity|by apply jaccard_in_unit].
  - unfold author_match. destruct (Book.author b) as [a|]; [|reflexivity].
    by destruct (negb _ && bool_decide _).
  - apply clamp01_in_unit.
  - apply clamp01_in_unit.
  - unfold lang_match. by destruct (negb _ && bool_decide _).
Qed.

Lemma in_unit_at_most_one x :
  in_unit x = true → SF_unit_like (Prim2SF x) = true ∧ (float_ord x ≤ float_ord 1)%Z.
Proof.
  intros Hx. pose proof (Binary64.in_unit_unit_like x Hx) as Hu. split; [done|].
  unfold in_unit in Hx. apply andb_true_iff in Hx as [_ Hx].
  rewrite Binary64.leb_ord in Hx by (first [by apply Binary64.unit_like_not_nan | reflexivity]).
  by apply Z.leb_le.
Qed.

(** The weighted sum is largest when every signal is 1. *)
Lemma blend_at_most fav saved auth rate liked lang :
  in_unit fav = true → in_unit saved = true → in_unit auth = true →
  in_unit rate = true → in_unit liked = true → in_unit lang = true →
  (blend fav saved auth rate liked lang <=? blend 1 1 1 1 1 1)%float = true.
Proof.
  intros Hf Hs Ha Hr Hl Hg.
  apply in_unit_at_most_one in Hf as [Uf Lf], Hs as [Us Ls], Ha as [Ua La],
    Hr as [Ur Lr], Hl as [Ul Ll], Hg as [Ug Lg].
  assert (SF_unit_like (Prim2SF 1) = true) as U1 by reflexivity.
  destruct (Binary64.float_mul_mono 0.40 fav 1) as [Up1 Lp1]; [vm_compute; reflexivity|done|done|done|vm_compute; reflexivity|].
  destruct (Binary64.float_mul_mono 0.20 saved 1) as [Up2 Lp2]; [vm_compute; reflexivity|done|done|done|vm_compute; reflexivity|].
  destruct (Binary64.float_mul_mono 0.15 auth 1) as [Up3 Lp3]; [vm_compute; reflexivity|done|done|done|vm_compute; reflexivity|].
  destruct (Binary64.float_mul_mono 0.15 rate 1) as [Up4 Lp4]; [vm_compute; reflexivity|done|done|done|vm_compute; reflexivity|].
  destruct (Binary64.float_mul_mono 0.05 liked 1) as [Up5 Lp5]; [vm_compute; reflexivity|done|done|done|vm_compute; reflexivity|].
  destruct (Binary64.float_mul_mono 0.05 lang 1) as [Up6 Lp6]; [vm_compute; reflexivity|done|done|done|vm_compute; reflexivity|].
  destruct (Binary64.float_add_mono (0.40 * fav) (0.20 * saved) (0.40 * 1) (0.20 * 1))
    as [Us2 Ls2]; [done|done|vm_compute; reflexivity|vm_compute; reflexivity
                  |done|done|vm_compute; reflexivity|].
  destruct (Binary64.float_add_mono (0.40 * fav + 0.20 * saved) (0.15 * auth)
                           (0.40 * 1 + 0.20 * 1) (0.15 * 1))
    as [Us3 Ls3]; [done|done|vm_compute; reflexivity|vm_compute; reflexivity
                  |done|done|vm_compute; reflexivity|].
  destruct (Binary64.float_add_mono (0.40 * fav + 0.20 * saved + 0.15 * auth) (0.15 * rate)
                           (0.40 * 1 + 0.20 * 1 + 0.15 * 1) (0.15 * 1))
    as [Us4 Ls4]; [done|done|vm_compute; reflexivity|vm_compute; reflexivity
                  |done|done|vm_compute; reflexivity|].
  destruct (Binary64.float_add_mono (0.40 * fav + 0.20 * saved + 0.15 * auth + 0.15 * rate)
                           (0.05 * liked)
                           (0.40 * 1 + 0.20 * 1 + 0.15 * 1 + 0.15 * 1) (0.05 * 1))
    as [Us5 Ls5]; [done|done|vm_compute; reflexivity|vm_compute; reflexivity
                  |done|done|vm_compute; reflexivity|].
  destruct (Binary64.float_add_mono
              (0.40 * fav + 0.20 * saved + 0.15 * auth + 0.15 * rate + 0.05 * liked)
              (0.05 * lang)
              (0.40 * 1 + 0.20 * 1 + 0.15 * 1 + 0.15 * 1 + 0.05 * 1) (0.05 * 1))
    as [Us6 Ls6]; [done|done|vm_compute; reflexivity|vm_compute; reflexivity
                  |done|done|vm_compute; reflexivity|].
  unfold blend.
  rewrite Binary64.leb_ord; [by apply Z.leb_le|by apply Binary64.unit_like_not_nan|reflexivity].
Qed.

Lemma blend_of_ones : blend 1 1 1 1 1 1 = 1.0000000000000002%float.
Proof. vm_compute. reflexivity. Qed.

(** * The claims *)

Import Sample.

(** C1. No recommended book is one the user saved, whatever path produced
    the list (cold-start fallback, scored ranking, backfill), whatever its
    score: its id is not in the signal's [saved_ids], that is, not in the
    user's stored list of saved book ids. *)
Theorem saved_books_never_recommended user catalog limit_param out b :
  recommended_books user catalog limit_param = Some out →
  b ∈ out →
  (Book.id b ∉ saved_ids (gather_signals user catalog))
  ∧ ∀ ids, User.saved_book_ids user = Some ids → Book.id b ∉ ids.
Proof.
  intros Hout Hb.
  apply recommend_ranked in Hout as (ranked & Hperm & ->).
  apply subseteq_take in Hb. rewrite Hperm in Hb.
  apply elem_of_exclude_id_in in Hb as [Hns _].
  split; [done|]. intros ids Hids Hin. apply Hns.
  change (saved_ids (gather_signals user catalog))
    with (list_to_set (C:=gset Z) (Py.or_else Py.list_falsy (User.saved_book_ids user) [])).
  rewrite Hids. apply elem_of_list_to_set.
  destruct ids; [by apply elem_of_nil in Hin|done].
Qed.

Lemma saved_books_never_recommended_witness :
  recommended_books returning_reader shelf (Some "10") = Some [book8; book1; book2]
  ∧ book8 ∈ [book8; book1; book2]
  ∧ (Book.id book8 ∉ saved_ids (gather_signals returning_reader shelf)).
Proof.
  assert (recommended_books returning_reader shelf (Some "10") = Some [book8; book1; book2])
    as Hrun by (vm_compute; reflexivity).
  assert (book8 ∈ [book8; book1; book2]) as Hin by apply list_elem_of_here.
  split; [exact Hrun|]. split; [exact Hin|].
  exact (proj1 (saved_books_never_recommended returning_reader shelf (Some "10")
                  [book8; book1; book2] book8 Hrun Hin)).
Defined.

(** C2 (as amended). The effective limit is an integer in [1, 24] for every
    value of the query parameter, and reading it never fails.  An absent
    parameter gives the default 4, and so does text that [int] refuses:
    text that is no numeral, a numeral between blanks that [int] does not
    skip, a numeral of more than 4300 digits.  A value that [int] accepts
    is clamped to the nearer bound (1 below the range, 24 above), not
    replaced by the default.  (The text of the parameter is ASCII.) *)
Theorem effective_limit_coerces limit_param :
  (1 ≤ effective_limit limit_param ≤ 24)%Z
  ∧ (limit_param = None → effective_limit limit_param = 4%Z)
  ∧ (∀ s, limit_param = Some s → Py.isascii s = true →
       effective_limit limit_param =
         match Py.int s with
         | None => 4%Z
         | Some n => clamp_cases n
         end)
  ∧ Py.int "abc" = None ∧ Py.int "" = None ∧ Py.int "4.0" = None
  ∧ Py.int fs_seven = None
  ∧ Py.int (nines 4301) = None
  ∧ is_Some (Py.int (nines 4300))
  ∧ Py.int " +1_0 " = Some 10%Z ∧ Py.int "-3" = Some (-3)%Z.
Proof.
  split; [apply effective_limit_range|]. split; [by intros ->|]. split.
  - intros s -> _. unfold effective_limit, parse_limit.
    destruct (Py.int s) as [n|]; [apply clamp_limit_cases|reflexivity].
  - vm_compute. repeat split; try reflexivity. by eexists.
Qed.

Lemma effective_limit_coerces_witness :
  Py.isascii "100" = true
  ∧ Py.int "100" = Some 100%Z
  ∧ effective_limit (Some "100") = clamp_cases 100
  ∧ Py.isascii (nines 4301) = true
  ∧ effective_limit (Some (nines 4301)) = 4%Z.
Proof.
  assert (Py.isascii "100" = true) as Hascii by reflexivity.
  assert (Py.isascii (nines 4301) = true) as Hnines by (vm_compute; reflexivity).
  pose proof (effective_limit_coerces (Some "100")) as (_ & _ & Hclamp & _).
  pose proof (effective_limit_coerces (Some (nines 4301)))
    as (_ & _ & Hlong & _ & _ & _ & _ & Hrefused & _).
  split; [exact Hascii|]. split; [reflexivity|].
  split; [exact (Hclamp "100" eq_refl Hascii)|]. split; [exact Hnines|].
  rewrite (Hlong (nines 4301) eq_refl Hnines), Hrefused. reflexivity.
Defined.

(** C2, as stated, fails: an out-of-range limit is not coerced to the
    default 4 but clamped, [limit=100] to 24 and [limit=0] to 1. *)
Lemma out_of_range_limit_is_clamped :
  effective_limit (Some "100") = 24%Z
  ∧ effective_limit (Some "0") = 1%Z
  ∧ effective_limit (Some "100") ≠ 4%Z.
Proof. by vm_compute. Qed.

(** C3 (as amended). In the worked scenario book 1 scores
    0.6150000000000001, the binary64 number next above the one written
    0.615, book 2 scores 0.2475, and the list is exactly [1, 2], in that
    order, whichever way round the catalog lists the two books. *)
Theorem worked_scenario :
  let sg := gather_signals fantasy_reader two_books in
  sub_scores sg book1 = [1; 0; 0; 0.8; 0.9; 1]%float
  ∧ sub_scores sg book2 = [0; 0; 0; 1; 0.95; 1]%float
  ∧ score sg book1 = 0.6150000000000001%float
  ∧ score sg book1 = next_up 0.615
  ∧ score sg book2 = 0.2475%float
  ∧ Book.id <$> default [] (recommended_books fantasy_reader two_books None) = [1; 2]%Z
  ∧ recommended_books fantasy_reader two_books None = Some [book1; book2]
  ∧ recommended_books fantasy_reader [book2; book1] None = Some [book1; book2].
Proof. vm_compute. repeat split; reflexivity. Qed.

(** C3, as stated, fails by one unit in the last place: the score of book 1
    is not the float 0.615 ([score == 0.615] is false in Python). *)
Lemma book1_score_is_not_0_615 :
  (score (gather_signals fantasy_reader two_books) book1 =? 0.615)%float = false
  ∧ (0.615 <? score (gather_signals fantasy_reader two_books) book1)%float = true.
Proof. vm_compute. split; reflexivity. Qed.



(** C5. The result is never longer than the effective limit, which is
    [clamp_limit] of the parsed parameter, nor than the number of catalog
    entries whose id is not saved; it has exactly the smaller of the two
    lengths.  A catalog shorter than the limit is no error: the view
    answers for every catalog whose [rating] column is populated. *)
Theorem result_length_bounds user catalog limit_param :
  (ratings_present catalog → is_Some (recommended_books user catalog limit_param))
  ∧ ∀ out, recommended_books user catalog limit_param = Some out →
      let unsaved := exclude_id_in (saved_ids (gather_signals user catalog)) catalog in
      (Z.of_nat (length out) ≤ clamp_limit (parse_limit limit_param))%Z
      ∧ (1 ≤ clamp_limit (parse_limit limit_param) ≤ 24)%Z
      ∧ length out ≤ length unsaved
      ∧ length out = Nat.min (Z.to_nat (effective_limit limit_param)) (length unsaved).
Proof.
  split; [apply recommend_is_Some|].
  intros out (ranked & Hperm & ->)%recommend_ranked. cbv zeta.
  rewrite <- Hperm, length_take.
  pose proof (effective_limit_range limit_param). unfold effective_limit in *. lia.
Qed.

Lemma result_length_bounds_witness :
  ratings_present shelf
  ∧ is_Some (recommended_books returning_reader shelf (Some "2"))
  ∧ recommended_books returning_reader shelf (Some "2") = Some [book8; book1]
  ∧ (Z.of_nat (length [book8; book1]) ≤ clamp_limit (parse_limit (Some "2")))%Z
  ∧ length [book8; book1]
    ≤ length (exclude_id_in (saved_ids (gather_signals returning_reader shelf)) shelf).
Proof.
  assert (ratings_present shelf) as Hr by (repeat constructor; by eexists).
  assert (recommended_books returning_reader shelf (Some "2") = Some [book8; book1])
    as Hrun by (vm_compute; reflexivity).
  pose proof (result_length_bounds returning_reader shelf (Some "2")) as [Htot Hlen].
  destruct (Hlen _ Hrun) as (H1 & _ & H2 & _).
  split; [exact Hr|]. split; [exact (Htot Hr)|]. split; [exact Hrun|].
  split; [exact H1|exact H2].
Defined.

(** C6. Backfill completeness: for a user with some signal (a favourite
    genre or a saved id), a catalog with exactly 3 books not saved and
    [limit=10], the view answers with exactly those 3 books: nothing is
    padded, no id occurs twice.  The catalog is a table: ids are unique and
    the rating column is populated. *)
Theorem small_catalog_returned_whole user catalog :
  favorite_genres (gather_signals user catalog) ≠ ∅
    ∨ saved_ids (gather_signals user catalog) ≠ ∅ →
  length (exclude_id_in (saved_ids (gather_signals user catalog)) catalog) = 3 →
  unique_ids catalog →
  ratings_present catalog →
  ∃ out,
    recommended_books user catalog (Some "10") = Some out
    ∧ length out = 3
    ∧ out ≡ₚ exclude_id_in (saved_ids (gather_signals user catalog)) catalog
    ∧ NoDup (Book.id <$> out).
Proof.
  intros _ Hthree Hids Hratings.
  destruct (recommend_is_Some user catalog (effective_limit (Some "10")) Hratings)
    as [out Hout].
  exists out. split; [done|].
  apply recommend_ranked in Hout as (ranked & Hperm & ->).
  assert (take (Z.to_nat (effective_limit (Some "10"))) ranked = ranked) as ->.
  { apply take_ge. rewrite Hperm, Hthree.
    change (effective_limit (Some "10")) with 10%Z. lia. }
  split; [by rewrite Hperm|]. split; [done|].
  rewrite Hperm. unfold exclude_id_in.
  apply (sublist_NoDup _ (Book.id <$> catalog)); [exact Hids|].
  apply fmap_sublist, sublist_filter.
Qed.

Lemma small_catalog_returned_whole_witness :
  (favorite_genres (gather_signals returning_reader shelf) ≠ ∅
     ∨ saved_ids (gather_signals returning_reader shelf) ≠ ∅)
  ∧ length (exclude_id_in (saved_ids (gather_signals returning_reader shelf)) shelf) = 3
  ∧ unique_ids shelf
  ∧ ratings_present shelf
  ∧ ∃ out,
      recommended_books returning_reader shelf (Some "10") = Some out
      ∧ length out = 3
      ∧ out ≡ₚ exclude_id_in (saved_ids (gather_signals returning_reader shelf)) shelf
      ∧ NoDup (Book.id <$> out).
Proof.
  assert (saved_ids (gather_signals returning_reader shelf) ≠ ∅) as Hsig.
  { intros H. assert (7%Z ∈ saved_ids (gather_signals returning_reader shelf)) as Hin
      by (apply elem_of_list_to_set, list_elem_of_here).
    rewrite H in Hin. by apply not_elem_of_empty in Hin. }
  assert (length (exclude_id_in (saved_ids (gather_signals returning_reader shelf)) shelf) = 3)
    as Hthree by (vm_compute; reflexivity).
  assert (unique_ids shelf) as Hids.
  { unfold unique_ids. apply NoDup_ListNoDup. repeat constructor; simpl; intuition discriminate. }
  assert (ratings_present shelf) as Hr by (repeat constructor; by eexists).
  split; [exact (or_intror Hsig)|]. split; [exact Hthree|]. split; [exact Hids|].
  split; [exact Hr|].
  exact (small_catalog_returned_whole returning_reader shelf (or_intror Hsig) Hthree Hids Hr).
Defined.

(** C7. [jaccard] of two empty sets is 0.0, neither 1.0 nor a NaN; of any
    other pair it is the size of the intersection divided by the size of
    the union.  Hence [fav_genre_sim] is 0.0 without favourite genres, and
    [saved_genre_sim] is 0.0 without saved books. *)
Theorem jaccard_of_empty_sets_is_zero :
  jaccard ∅ ∅ = 0%float
  ∧ (jaccard ∅ ∅ =? 1)%float = false
  ∧ is_nan (jaccard ∅ ∅) = false
  ∧ (∀ a b : gset string, ¬ (a = ∅ ∧ b = ∅) →
       jaccard a b = (Py.float_of_nat (size (a ∩ b)) / Py.float_of_nat (size (a ∪ b)))%float)
  ∧ (∀ sg b, favorite_genres sg = ∅ → fav_genre_sim sg b = 0%float)
  ∧ (∀ user catalog b,
       saved_ids (gather_signals user catalog) = ∅ →
       saved_genre_sim (gather_signals user catalog) b = 0%float).
Proof.
  split; [reflexivity|]. split; [reflexivity|]. split; [reflexivity|].
  split; [|split].
  - intros a b Hne. unfold jaccard.
    assert (a ∪ b ≠ ∅) as Hu by (by intros ?%empty_union_L).
    rewrite (bool_decide_eq_false_2 _ Hu).
    destruct (decide (a = ∅)) as [Ha|Ha].
    + rewrite (bool_decide_eq_true_2 _ Ha). simpl.
      rewrite bool_decide_eq_false_2; [done|]. intros Hb. by apply Hne.
    + by rewrite (bool_decide_eq_false_2 _ Ha).
  - intros sg b Hfav. unfold fav_genre_sim. by rewrite bool_decide_eq_true_2.
  - intros user catalog b Hsaved. unfold saved_genre_sim.
    rewrite bool_decide_eq_true_2; [done|].
    change (saved_ids (gather_signals user catalog))
      with (list_to_set (C:=gset Z)
              (Py.or_else Py.list_falsy (User.saved_book_ids user) [])) in Hsaved.
    unfold gather_signals. simpl saved_genres_union.
    by rewrite Hsaved, bool_decide_eq_true_2.
Qed.

Lemma jaccard_of_empty_sets_is_zero_witness :
  ¬ (({["Fantasy"]} : gset string) = ∅ ∧ ({["Fantasy"; "Romance"]} : gset string) = ∅)
  ∧ jaccard {["Fantasy"]} {["Fantasy"; "Romance"]}
    = (Py.float_of_nat (size (({["Fantasy"]} : gset string) ∩ {["Fantasy"; "Romance"]}))
       / Py.float_of_nat (size (({["Fantasy"]} : gset string) ∪ {["Fantasy"; "Romance"]})))%float
  ∧ favorite_genres (gather_signals new_user two_books) = ∅
  ∧ fav_genre_sim (gather_signals new_user two_books) book1 = 0%float
  ∧ saved_ids (gather_signals new_user two_books) = ∅
  ∧ saved_genre_sim (gather_signals new_user two_books) book1 = 0%float.
Proof.
  assert (¬ (({["Fantasy"]} : gset string) = ∅
             ∧ ({["Fantasy"; "Romance"]} : gset string) = ∅)) as Hne.
  { intros [H _]. assert ("Fantasy" ∈ ({["Fantasy"]} : gset string)) as Hin
      by apply elem_of_singleton_2, eq_refl.
    rewrite H in Hin. by apply not_elem_of_empty in Hin. }
  assert (favorite_genres (gather_signals new_user two_books) = ∅) as Hfav by reflexivity.
  assert (saved_ids (gather_signals new_user two_books) = ∅) as Hsaved by reflexivity.
  destruct jaccard_of_empty_sets_is_zero as (_ & _ & _ & Hj & Hf & Hs).
  split; [exact Hne|]. split; [exact (Hj _ _ Hne)|].
  split; [exact Hfav|]. split; [exact (Hf _ book1 Hfav)|].
  split; [exact Hsaved|]. exact (Hs new_user two_books book1 Hsaved).
Defined.

(** C8. The backfill branch is dead code.  The scored list already holds
    every catalog entry that is not saved, so whenever fewer than [limit]
    books were selected the filler query (not saved and not selected) is
    empty; the view equals the view with that branch removed, on every
    input, errors included. *)
Theorem backfill_never_adds_a_book :
  (∀ user catalog limit_param,
     recommended_books user catalog limit_param
     = recommended_books_no_backfill user catalog limit_param)
  ∧ (∀ sg catalog (limit : Z) (scored_sorted : list (float * Book.t)),
       sort_scored ((λ b, (score sg b, b)) <$> exclude_id_in (saved_ids sg) catalog)
       = Some scored_sorted →
       let books := snd <$> take (Z.to_nat limit) scored_sorted in
       (Z.of_nat (length books) < limit)%Z →
       exclude_id_in (saved_ids sg ∪ book_ids books) catalog = []).
Proof.
  split.
  - intros. apply recommend_with_backfill.
  - intros sg catalog limit scored_sorted Hsort books Hshort. subst books.
    apply sorted_desc_perm in Hsort.
    rewrite fmap_take in Hshort |- *. apply no_filler; [|lia].
    by rewrite Hsort, scored_books.
Qed.

Lemma backfill_never_adds_a_book_witness :
  recommended_books returning_reader shelf (Some "10")
  = recommended_books_no_backfill returning_reader shelf (Some "10")
  ∧ sort_scored ((λ b, (score (gather_signals returning_reader shelf) b, b))
                 <$> exclude_id_in (saved_ids (gather_signals returning_reader shelf)) shelf)
    = Some [(1.0000000000000002%float, book8); (0.81500000000000017%float, book1);
            (0.2475%float, book2)]
  ∧ (Z.of_nat (length [book8; book1; book2]) < 10)%Z
  ∧ exclude_id_in (saved_ids (gather_signals returning_reader shelf)
                   ∪ book_ids [book8; book1; book2]) shelf = [].
Proof.
  destruct backfill_never_adds_a_book as [Heq Hfill].
  assert (sort_scored ((λ b, (score (gather_signals returning_reader shelf) b, b))
                       <$> exclude_id_in (saved_ids (gather_signals returning_reader shelf)) shelf)
          = Some [(1.0000000000000002%float, book8); (0.81500000000000017%float, book1);
                  (0.2475%float, book2)]) as Hsort by (vm_compute; reflexivity).
  assert (Z.of_nat (length [book8; book1; book2]) < 10)%Z as Hshort by (vm_compute; reflexivity).
  split; [exact (Heq returning_reader shelf (Some "10"))|].
  split; [exact Hsort|]. split; [exact Hshort|].
  exact (Hfill (gather_signals returning_reader shelf) shelf 10%Z _ Hsort Hshort).
Defined.

(** C9. A catalog with distinct ids yields a result with distinct ids, on
    every path. *)
Theorem recommended_ids_are_distinct user catalog limit_param out :
  unique_ids catalog →
  recommended_books user catalog limit_param = Some out →
  NoDup (Book.id <$> out).
Proof.
  intros Hids (ranked & Hperm & ->)%recommend_ranked.
  apply (sublist_NoDup _ (Book.id <$> ranked)).
  - rewrite Hperm. apply (sublist_NoDup _ (Book.id <$> catalog)); [exact Hids|].
    apply fmap_sublist, sublist_filter.
  - apply fmap_sublist, sublist_take.
Qed.

Lemma recommended_ids_are_distinct_witness :
  unique_ids shelf
  ∧ recommended_books returning_reader shelf (Some "10") = Some [book8; book1; book2]
  ∧ NoDup (Book.id <$> [book8; book1; book2]).
Proof.
  assert (unique_ids shelf) as Hids.
  { unfold unique_ids. apply NoDup_ListNoDup. repeat constructor; simpl; intuition discriminate. }
  assert (recommended_books returning_reader shelf (Some "10") = Some [book8; book1; book2])
    as Hrun by (vm_compute; reflexivity).
  split; [exact Hids|]. split; [exact Hrun|].
  exact (recommended_ids_are_distinct returning_reader shelf (Some "10") _ Hids Hrun).
Defined.

(** C10 (as amended). Each of the six sub-scores lies in [0, 1], for every
    candidate: a null rating or liked percentage counts as 0, a value
    outside the nominal range, an infinity or a NaN is clamped.  (The genre
    sets are of a size [len] converts exactly, below 2^53.)  The blended
    score lies in [0, 1.0000000000000002]: the weighted sum is rounded to
    binary64 at each step, rounding keeps the order, and the sum of the
    six weights themselves comes out as 1.0000000000000002, the binary64
    number next above 1.  So the score is at most 1 up to one rounding
    step, and not at most 1. *)
Theorem sub_scores_in_unit_interval sg b :
  exact_len (favorite_genres sg ∪ b_genres b) →
  exact_len (saved_genres_union sg ∪ b_genres b) →
  Forall (λ x, in_unit x = true) (sub_scores sg b)
  ∧ (0 <=? score sg b)%float = true
  ∧ (score sg b <=? 1.0000000000000002)%float = true
  ∧ 1.0000000000000002%float = next_up 1.
Proof.
  intros Hf Hs. pose proof (sub_scores_unit sg b Hf Hs) as Hall.
  split; [done|]. unfold sub_scores in Hall.
  repeat (apply Forall_cons in Hall as [? Hall]).
  split; [by apply blend_nonneg|]. split; [|reflexivity].
  unfold score. rewrite <- blend_of_ones. by apply blend_at_most.
Qed.

Lemma sub_scores_in_unit_interval_witness :
  exact_len (favorite_genres (gather_signals returning_reader shelf) ∪ b_genres book2)
  ∧ exact_len (saved_genres_union (gather_signals returning_reader shelf) ∪ b_genres book2)
  ∧ sub_scores (gather_signals returning_reader shelf) book2 = [0; 0; 0; 1; 0.95; 1]%float
  ∧ score (gather_signals returning_reader shelf) book2 = 0.2475%float
  ∧ Forall (λ x, in_unit x = true) (sub_scores (gather_signals returning_reader shelf) book2)
  ∧ (0 <=? score (gather_signals returning_reader shelf) book2)%float = true
  ∧ (score (gather_signals returning_reader shelf) book2 <=? 1.0000000000000002)%float = true
  ∧ 1.0000000000000002%float = next_up 1.
Proof.
  assert (exact_len (favorite_genres (gather_signals returning_reader shelf) ∪ b_genres book2))
    as Hf by (vm_compute; reflexivity).
  assert (exact_len (saved_genres_union (gather_signals returning_reader shelf)
                     ∪ b_genres book2)) as Hs by (vm_compute; reflexivity).
  split; [exact Hf|]. split; [exact Hs|].
  split; [vm_compute; reflexivity|]. split; [vm_compute; reflexivity|].
  exact (sub_scores_in_unit_interval (gather_signals returning_reader shelf) book2 Hf Hs).
Defined.

(** C10, as stated, fails: for a candidate that matches every signal all six
    sub-scores are 1, and the weighted sum, rounded at each step, is
    1.0000000000000002, the binary64 number next above 1. *)
Lemma blended_score_exceeds_one :
  let sg := gather_signals returning_reader shelf in
  sub_scores sg book8 = [1; 1; 1; 1; 1; 1]%float
  ∧ score sg book8 = 1.0000000000000002%float
  ∧ score sg book8 = next_up 1
  ∧ (score sg book8 <=? 1)%float = false
  ∧ in_unit (score sg book8) = false.
Proof. vm_compute. repeat split; reflexivity. Qed.

(** * Facts about the sample data *)

Lemma returning_reader_has_saved : saved_ids (gather_signals returning_reader shelf) ≠ ∅.
Proof.
  intros H. assert (7%Z ∈ saved_ids (gather_signals returning_reader shelf)) as Hin
    by (apply elem_of_list_to_set, list_elem_of_here).
  rewrite H in Hin. by apply not_elem_of_empty in Hin.
Qed.

Lemma two_accounts_consistent : consistent Scenario.two_accounts.
Proof.
  split; by apply (bool_decide_unpack _).
Qed.

Lemma otp_requested_consistent : consistent Scenario.otp_requested.
Proof.
  split; by apply (bool_decide_unpack _).
Qed.

(** * Ranking and limits *)

Lemma scored_lt_asym k1 k2 : scored_lt k1 k2 = Some true → scored_lt k2 k1 = Some false.
Proof.
  unfold scored_lt, Py.tuple_lt, Py.float_lt, Py.float_eq.
  rewrite (Binary64.eqb_sym k2.1 k1.1).
  destruct (k1.1 =? k2.1)%float.
  - destruct k1.2 as [r1|], k2.2 as [r2|]; simpl; try done.
    rewrite (Binary64.eqb_sym r2 r1). destruct (r1 =? r2)%float; [done|].
    intros ?; simplify_eq. by rewrite Binary64.ltb_asym.
  - intros ?; simplify_eq. by rewrite Binary64.ltb_asym.
Qed.

Lemma Sorted_take {A} (R : relation A) (l : list A) n : Sorted R l → Sorted R (take n l).
Proof.
  revert n. induction l as [|x l IH]; intros [|n] Hl; simpl; try constructor.
  - apply IH. by apply Sorted_inv in Hl as [].
  - apply Sorted_inv in Hl as [_ Hhd]. destruct l, n; simpl; try constructor.
    by apply HdRel_inv in Hhd.
Qed.

Lemma Sorted_scored_books sg (l : list (float * Book.t)) :
  Forall (λ t, t.1 = score sg t.2) l →
  Sorted (may_precede scored_key scored_lt) l →
  Sorted (may_precede (ranking_key sg) scored_lt) (snd <$> l).
Proof.
  induction 1 as [|[s b] l Hs Hl IH]; intros Hsorted; [constructor|].
  apply Sorted_inv in Hsorted as [Hsorted Hhd]. rewrite fmap_cons. constructor; [by apply IH|].
  destruct Hl as [|[s' b'] l Hs' _]; simpl; constructor.
  apply HdRel_inv in Hhd. simpl in *. subst. exact Hhd.
Qed.

(** The list the view cuts its result from, when it answers. *)
Lemma recommend_with_ranked user catalog limit out :
  recommend_with backfill user catalog limit = Some out →
  ∃ ranked,
    (∀ limit', recommend_with backfill user catalog limit'
               = Some (take (Z.to_nat limit') ranked))
    ∧ ranked ≡ₚ exclude_id_in (saved_ids (gather_signals user catalog)) catalog.
Proof.
  setoid_rewrite recommend_with_backfill. unfold recommend_with.
  destruct (bool_decide _ && bool_decide _) eqn:Hcold.
  - destruct (sort_top_rated _) as [s|] eqn:Hs; intros; simplify_eq/=.
    exists s. split; [done|]. by apply sorted_desc_perm in Hs.
  - destruct (sort_scored _) as [s|] eqn:Hs; intros; simplify_eq/=.
    exists (snd <$> s). split.
    + intros limit'. by rewrite fmap_take.
    + apply sorted_desc_perm in Hs. by rewrite Hs, scored_books.
Qed.

(** X1. For a user with some signal the answer is ranked: between any two
    neighbours of the list, the key [(score, rating)] of the later one is
    not greater than the key of the earlier one. *)
Theorem scored_results_are_ranked user catalog limit_param out :
  favorite_genres (gather_signals user catalog) ≠ ∅
    ∨ saved_ids (gather_signals user catalog) ≠ ∅ →
  recommended_books user catalog limit_param = Some out →
  Sorted (may_precede (ranking_key (gather_signals user catalog)) scored_lt) out.
Proof.
  intros Hsig. unfold recommended_books. rewrite recommend_with_backfill.
  unfold recommend_with.
  assert (bool_decide (favorite_genres (gather_signals user catalog) = ∅)
          && bool_decide (saved_ids (gather_signals user catalog) = ∅) = false) as ->.
  { apply andb_false_iff. destruct Hsig; [left|right]; by apply bool_decide_eq_false_2. }
  destruct (sort_scored _) as [s|] eqn:Hs; intros; simplify_eq/=.
  apply Sorted_scored_books.
  - apply Forall_forall. intros t Ht%subseteq_take.
    rewrite (sorted_desc_perm _ _ _ _ Hs) in Ht.
    by apply list_elem_of_fmap in Ht as (b & -> & _).
  - apply Sorted_take. eapply sorted_desc_sorted; [apply scored_lt_asym|done].
Qed.

Lemma scored_results_are_ranked_witness :
  (favorite_genres (gather_signals returning_reader shelf) ≠ ∅
     ∨ saved_ids (gather_signals returning_reader shelf) ≠ ∅)
  ∧ recommended_books returning_reader shelf (Some "10") = Some [book8; book1; book2]
  ∧ Sorted (may_precede (ranking_key (gather_signals returning_reader shelf)) scored_lt)
           [book8; book1; book2].
Proof.
  assert (recommended_books returning_reader shelf (Some "10") = Some [book8; book1; book2])
    as Hrun by (vm_compute; reflexivity).
  split; [exact (or_intror returning_reader_has_saved)|]. split; [exact Hrun|].
  exact (scored_results_are_ranked returning_reader shelf (Some "10") _
           (or_intror returning_reader_has_saved) Hrun).
Defined.

(** X2. A smaller limit cuts the same ranking shorter: the answer for the
    smaller of two effective limits is the answer for the larger one cut
    down to that many books; it holds no other book and no other order. *)
Theorem smaller_limit_is_a_prefix user catalog param1 param2 out2 :
  (effective_limit param1 ≤ effective_limit param2)%Z →
  recommended_books user catalog param2 = Some out2 →
  recommended_books user catalog param1
  = Some (take (Z.to_nat (effective_limit param1)) out2).
Proof.
  intros Hle Hout. unfold recommended_books in *.
  destruct (recommend_with_ranked _ _ _ _ Hout) as (ranked & Hall & _).
  rewrite Hall in Hout |- *. simplify_eq.
  rewrite take_take. do 2 f_equal. lia.
Qed.

Lemma smaller_limit_is_a_prefix_witness :
  (effective_limit (Some "2") ≤ effective_limit (Some "10"))%Z
  ∧ recommended_books returning_reader shelf (Some "10") = Some [book8; book1; book2]
  ∧ recommended_books returning_reader shelf (Some "2")
    = Some (take (Z.to_nat (effective_limit (Some "2"))) [book8; book1; book2]).
Proof.
  assert (effective_limit (Some "2") ≤ effective_limit (Some "10"))%Z
    as Hle by (vm_compute; discriminate).
  assert (recommended_books returning_reader shelf (Some "10") = Some [book8; book1; book2])
    as Hrun by (vm_compute; reflexivity).
  split; [exact Hle|]. split; [exact Hrun|].
  exact (smaller_limit_is_a_prefix returning_reader shelf (Some "2") (Some "10") _ Hle Hrun).
Defined.

(** X3. When the books the user has not saved number at most the
    effective limit, the answer holds every one of them, exactly once
    each. *)
Theorem few_unsaved_books_are_all_recommended user catalog limit_param out :
  recommended_books user catalog limit_param = Some out →
  (Z.of_nat (length (exclude_id_in (saved_ids (gather_signals user catalog)) catalog))
   ≤ effective_limit limit_param)%Z →
  out ≡ₚ exclude_id_in (saved_ids (gather_signals user catalog)) catalog.
Proof.
  intros (ranked & Hperm & ->)%recommend_ranked Hfew.
  rewrite take_ge; [done|]. rewrite Hperm. lia.
Qed.

Lemma few_unsaved_books_are_all_recommended_witness :
  recommended_books returning_reader shelf (Some "10") = Some [book8; book1; book2]
  ∧ (Z.of_nat (length (exclude_id_in (saved_ids (gather_signals returning_reader shelf)) shelf))
     ≤ effective_limit (Some "10"))%Z
  ∧ [book8; book1; book2]
    ≡ₚ exclude_id_in (saved_ids (gather_signals returning_reader shelf)) shelf.
Proof.
  assert (recommended_books returning_reader shelf (Some "10") = Some [book8; book1; book2])
    as Hrun by (vm_compute; reflexivity).
  assert (Z.of_nat (length (exclude_id_in (saved_ids (gather_signals returning_reader shelf))
                                          shelf))
          ≤ effective_limit (Some "10"))%Z as Hfew by (vm_compute; discriminate).
  split; [exact Hrun|]. split; [exact Hfew|].
  exact (few_unsaved_books_are_all_recommended returning_reader shelf (Some "10") _ Hrun Hfew).
Defined.

Lemma recommend_None user catalog limit :
  recommend_with backfill user catalog limit = None →
  bool_decide (favorite_genres (gather_signals user catalog) = ∅)
    && bool_decide (saved_ids (gather_signals user catalog) = ∅) = false
  ∧ ¬ ratings_present (exclude_id_in (saved_ids (gather_signals user catalog)) catalog).
Proof.
  rewrite recommend_with_backfill. unfold recommend_with.
  destruct (bool_decide _ && bool_decide _).
  - destruct (sort_top_rated_is_Some
                (exclude_id_in (saved_ids (gather_signals user catalog)) catalog)) as [s ->].
    done.
  - intros Hnone. split; [done|]. intros Hr.
    destruct (sort_scored_is_Some (score (gather_signals user catalog)) _ Hr) as [s Hs].
    by rewrite Hs in Hnone.
Qed.

Lemma missing_rating l :
  ¬ ratings_present l → ∃ b, b ∈ l ∧ Book.rating b = None.
Proof.
  induction l as [|b l IH]; intros Hnot.
  - destruct Hnot. constructor.
  - destruct (Book.rating b) as [r|] eqn:Hr.
    + destruct IH as (b' & Hb' & Hnone).
      { intros Hl. apply Hnot. constructor; [by rewrite Hr|done]. }
      exists b'. split; [by right|done].
    + exists b. split; [left|done].
Qed.

(** X4. The sort of the view raises in one situation only: the user has
    some signal (the scored path is taken) and a candidate has no rating.
    The cold-start path never raises, and neither does the scored path on
    a catalog whose ratings are all present. *)
Theorem only_a_null_rating_makes_the_view_fail user catalog limit_param :
  recommended_books user catalog limit_param = None →
  (favorite_genres (gather_signals user catalog) ≠ ∅
   ∨ saved_ids (gather_signals user catalog) ≠ ∅)
  ∧ ∃ b, b ∈ exclude_id_in (saved_ids (gather_signals user catalog)) catalog
         ∧ Book.rating b = None.
Proof.
  intros [Hcold Hr]%recommend_None. split.
  - apply andb_false_iff in Hcold as [H%bool_decide_eq_false|H%bool_decide_eq_false]; auto.
  - by apply missing_rating.
Qed.

Lemma only_a_null_rating_makes_the_view_fail_witness :
  recommended_books fantasy_reader [Scenario.unrated; Scenario.zero_rated] None = None
  ∧ (favorite_genres (gather_signals fantasy_reader [Scenario.unrated; Scenario.zero_rated]) ≠ ∅
     ∨ saved_ids (gather_signals fantasy_reader [Scenario.unrated; Scenario.zero_rated]) ≠ ∅)
  ∧ ∃ b, b ∈ exclude_id_in
               (saved_ids (gather_signals fantasy_reader
                             [Scenario.unrated; Scenario.zero_rated]))
               [Scenario.unrated; Scenario.zero_rated]
         ∧ Book.rating b = None.
Proof.
  assert (recommended_books fantasy_reader [Scenario.unrated; Scenario.zero_rated] None = None)
    as Hrun by (vm_compute; reflexivity).
  split; [exact Hrun|].
  exact (only_a_null_rating_makes_the_view_fail fantasy_reader
           [Scenario.unrated; Scenario.zero_rated] None Hrun).
Defined.

(** * The extremes of [jaccard] *)

Section Ratio.
Local Open Scope Z_scope.

Lemma float_ratio_finite (a b : nat) :
  (0 < a <= b)%nat -> Z.of_nat b < 2 ^ 53 ->
  exists m e, Prim2SF (Py.float_of_nat a / Py.float_of_nat b) = S754_finite false m e.
Proof.
  intros Hab Hlt.
  rewrite FloatAxioms.div_spec, !Binary64.Prim2SF_float_of_nat by lia.
  destruct (Binary64.binary_normalize_small (Z.of_nat b)) as (mb & eb & -> & Hmb & Heb & Eb); [lia|].
  destruct (Binary64.binary_normalize_small (Z.of_nat a)) as (ma & ea & -> & Hma & Hea & Ea); [lia|].
  destruct (Binary64.scaled_order (Z.of_nat a) (Z.of_nat b) (Zpos ma) (Zpos mb) ea eb)
    as [Hle Heq]; try done; try lia.
  destruct (Binary64.SFdiv_le_one ma ea mb eb) as (m & e & Hdiv & _); try done; try lia.
  exists m, e. exact Hdiv.
Qed.

Lemma float_ratio_zero (b : nat) :
  (0 < b)%nat -> Z.of_nat b < 2 ^ 53 ->
  (Py.float_of_nat 0 / Py.float_of_nat b)%float = 0%float.
Proof.
  intros Hb Hlt. apply Prim2SF_inj.
  rewrite FloatAxioms.div_spec, !Binary64.Prim2SF_float_of_nat, Binary64.Prim2SF_zero by lia.
  destruct (Binary64.binary_normalize_small (Z.of_nat b)) as (mb & eb & -> & _); [lia|].
  reflexivity.
Qed.

Lemma SFdiv_self m e :
  2 ^ 52 <= Zpos m < 2 ^ 53 -> -52 <= e <= 0 ->
  SFdiv prec emax (S754_finite false m e) (S754_finite false m e) = SF_one.
Proof.
  intros Hm He. unfold SFdiv.
  rewrite Binary64.SFdiv_core_normal by lia. simpl xorb.
  rewrite Z.mul_comm, Z.mod_mul, Z.div_mul, Binary64.new_location_zero by lia.
  replace (e - e - 53) with (-53) by lia.
  vm_compute. reflexivity.
Qed.

Lemma float_ratio_one (b : nat) :
  (0 < b)%nat -> Z.of_nat b < 2 ^ 53 ->
  (Py.float_of_nat b / Py.float_of_nat b)%float = 1%float.
Proof.
  intros Hb Hlt. apply Prim2SF_inj.
  rewrite FloatAxioms.div_spec, !Binary64.Prim2SF_float_of_nat, Binary64.Prim2SF_one by lia.
  destruct (Binary64.binary_normalize_small (Z.of_nat b)) as (mb & eb & -> & Hmb & Heb & _); [lia|].
  by apply SFdiv_self.
Qed.
End Ratio.

Lemma jaccard_sym (a b : gset string) : jaccard a b = jaccard b a.
Proof.
  unfold jaccard.
  assert (a ∩ b = b ∩ a) as ->
    by (apply set_eq; intros x; rewrite !elem_of_intersection; tauto).
  assert (a ∪ b = b ∪ a) as ->
    by (apply set_eq; intros x; rewrite !elem_of_union; tauto).
  by rewrite (andb_comm (bool_decide (a = ∅))).
Qed.

Lemma jaccard_nonempty (a b : gset string) :
  a ∪ b ≠ ∅ →
  jaccard a b = (Py.float_of_nat (size (a ∩ b)) / Py.float_of_nat (size (a ∪ b)))%float.
Proof.
  intros Hu. unfold jaccard. rewrite (bool_decide_eq_false_2 _ Hu).
  destruct (bool_decide (a = ∅)) eqn:Ha, (bool_decide (b = ∅)) eqn:Hb; try done.
  apply bool_decide_eq_true in Ha, Hb. subst. destruct Hu.
  apply set_eq; intros x; rewrite elem_of_union; tauto.
Qed.

Lemma size_pos_nonempty (s : gset string) : s ≠ ∅ → 0 < size s.
Proof.
  intros Hs. assert (size s ≠ 0); [|lia].
  apply size_non_empty_iff. intros HX. apply Hs. by apply leibniz_equiv.
Qed.

(** X5. [jaccard] is symmetric; it is 0.0 exactly when the two sets share
    no element, and 1.0 for two equal sets that are not empty: the
    division rounds neither a positive quotient to zero nor [n / n] away
    from one.  (Sizes below 2^53, which [len] converts exactly.) *)
Theorem jaccard_extremes (a b : gset string) :
  exact_len (a ∪ b) →
  jaccard a b = jaccard b a
  ∧ (jaccard a b = 0%float ↔ a ∩ b = ∅)
  ∧ (a ≠ ∅ → a = b → jaccard a b = 1%float).
Proof.
  intros Hlen. split; [apply jaccard_sym|]. split; [|].
  - destruct (decide (a ∪ b = ∅)) as [Hu|Hu].
    + apply empty_union_L in Hu as [-> ->].
      split; [intros _; apply set_eq; intros x; rewrite elem_of_intersection; tauto|done].
    + rewrite (jaccard_nonempty _ _ Hu). pose proof (size_pos_nonempty _ Hu) as Hpos.
      split.
      * intros Hz. destruct (decide (a ∩ b = ∅)) as [|Hi]; [done|exfalso].
        destruct (float_ratio_finite (size (a ∩ b)) (size (a ∪ b))) as (m & e & Hm).
        { split; [by apply size_pos_nonempty|].
          apply subseteq_size. etrans; [apply intersection_subseteq_l|apply union_subseteq_l]. }
        { exact Hlen. }
        rewrite Hz, Binary64.Prim2SF_zero in Hm. discriminate.
      * intros ->. rewrite size_empty. by apply float_ratio_zero.
  - intros Ha <-.
    assert (a ∪ a = a) as Hua by (apply set_eq; intros x; rewrite elem_of_union; tauto).
    assert (a ∩ a = a) as Hia by (apply set_eq; intros x; rewrite elem_of_intersection; tauto).
    assert (a ∪ a ≠ ∅) as Hu by (by rewrite Hua).
    rewrite (jaccard_nonempty _ _ Hu), Hia, Hua.
    unfold exact_len in Hlen. rewrite Hua in Hlen.
    apply float_ratio_one; [by apply size_pos_nonempty|done].
Qed.

Lemma jaccard_extremes_witness :
  exact_len (({["Fantasy"]} : gset string) ∪ {["Fantasy"]})
  ∧ jaccard {["Fantasy"]} {["Fantasy"]} = 1%float.
Proof.
  assert (exact_len (({["Fantasy"]} : gset string) ∪ {["Fantasy"]}))
    as Hlen by (vm_compute; reflexivity).
  assert (({["Fantasy"]} : gset string) ≠ ∅) as Hne.
  { intros H. assert ("Fantasy" ∈ ({["Fantasy"]} : gset string)) as Hin
      by apply elem_of_singleton_2, eq_refl.
    rewrite H in Hin. by apply not_elem_of_empty in Hin. }
  split; [exact Hlen|].
  exact (proj2 (proj2 (jaccard_extremes {["Fantasy"]} {["Fantasy"]} Hlen)) Hne eq_refl).
Defined.

(** * Saved books *)

Section FromKeys.
Let step (keys : list Z) (k : Z) : list Z :=
  if bool_decide (k ∈ keys) then keys else keys ++ [k].

Lemma fromkeys_elem_of acc l i : i ∈ foldl step acc l ↔ i ∈ acc ∨ i ∈ l.
Proof.
  revert acc. induction l as [|x l IH]; intros acc; simpl.
  - rewrite elem_of_nil. tauto.
  - rewrite IH, elem_of_cons. unfold step. case_bool_decide as Hx.
    + split; [tauto|]. intros [?|[->|?]]; auto.
    + rewrite elem_of_app, list_elem_of_singleton. tauto.
Qed.

Lemma fromkeys_NoDup acc l : NoDup acc → NoDup (foldl step acc l).
Proof.
  revert acc. induction l as [|x l IH]; intros acc Hacc; simpl; [done|].
  apply IH. unfold step. case_bool_decide as Hx; [done|].
  apply NoDup_app. split; [done|]. split; [|apply NoDup_singleton].
  intros y Hy ->%list_elem_of_singleton. done.
Qed.

Lemma fromkeys_id acc l : NoDup (acc ++ l) → foldl step acc l = acc ++ l.
Proof.
  revert acc. induction l as [|x l IH]; intros acc Hnd; simpl.
  - by rewrite app_nil_r.
  - unfold step. rewrite bool_decide_eq_false_2.
    + rewrite IH; rewrite <- app_assoc; done.
    + apply NoDup_app in Hnd as (_ & Hnd & _). intros Hx. apply (Hnd x Hx). left.
Qed.
End FromKeys.

Lemma dict_fromkeys_elem_of l i : i ∈ dict_fromkeys l ↔ i ∈ l.
Proof. unfold dict_fromkeys. rewrite fromkeys_elem_of, elem_of_nil. tauto. Qed.

Lemma dict_fromkeys_NoDup l : NoDup (dict_fromkeys l).
Proof. apply fromkeys_NoDup. constructor. Qed.

Lemma dict_fromkeys_id l : NoDup l → dict_fromkeys l = l.
Proof. intros. by apply (fromkeys_id []). Qed.

Lemma get_book_Some catalog pk book :
  get_book catalog pk = Some book → Book.id book = pk ∧ book ∈ catalog.
Proof.
  unfold get_book. intros Hhd.
  assert (book ∈ filter (λ b, Book.id b = pk) catalog) as Hin.
  { destruct (filter _ catalog); simplify_eq/=. left. }
  by apply list_elem_of_filter in Hin.
Qed.

Lemma get_book_None catalog pk :
  get_book catalog pk = None ↔ pk ∉ Book.id <$> catalog.
Proof.
  unfold get_book. rewrite head_None. split.
  - intros Hnil (b & -> & Hb)%list_elem_of_fmap.
    by apply (filter_nil_not_elem_of _ _ b Hnil).
  - intros Hnot. apply filter_none. intros b Hb <-. apply Hnot.
    by apply list_elem_of_fmap_2.
Qed.

Lemma saved_list_set user ids : saved_list (set_saved_book_ids user ids) = ids.
Proof. unfold saved_list. simpl. by destruct ids. Qed.

(** X6. Toggling an id that no book has answers 404 and leaves the user row
    as it was, legacy migration included; and 404 is answered in no other
    case. *)
Theorem toggle_unknown_book_is_404 user legacy catalog book_id :
  (book_id ∉ Book.id <$> catalog →
     toggle_save_book user legacy catalog book_id = (user, Book_not_found))
  ∧ ((toggle_save_book user legacy catalog book_id).2 = Book_not_found →
     book_id ∉ Book.id <$> catalog).
Proof.
  unfold toggle_save_book. split.
  - intros Hnot%get_book_None. by rewrite Hnot.
  - destruct (get_book catalog book_id) as [book|] eqn:Hget.
    + by case_bool_decide.
    + intros _. by apply get_book_None.
Qed.

Lemma toggle_unknown_book_is_404_witness :
  (5%Z ∉ Book.id <$> shelf)
  ∧ toggle_save_book Scenario.collector (Some [7%Z]) shelf 5
    = (Scenario.collector, Book_not_found).
Proof.
  assert (5%Z ∉ Book.id <$> shelf) as Hnot by (by apply (bool_decide_unpack _)).
  split; [exact Hnot|].
  exact (proj1 (toggle_unknown_book_is_404 Scenario.collector (Some [7%Z]) shelf 5) Hnot).
Defined.

(** X7. Toggling an existing book flips whether its id is saved and changes
    the membership of no other id; the response says which way it went.
    The list it starts from is the stored one, or the legacy relation when
    the stored one is empty. *)
Theorem toggle_flips_one_membership user legacy catalog book_id :
  book_id ∈ Book.id <$> catalog →
  let before := saved_list (migrate_legacy user legacy) in
  let after := saved_list (toggle_save_book user legacy catalog book_id).1 in
  (book_id ∈ after ↔ book_id ∉ before)
  ∧ (∀ i, i ≠ book_id → i ∈ after ↔ i ∈ before)
  ∧ (toggle_save_book user legacy catalog book_id).2
    = (if bool_decide (book_id ∈ before) then Book_removed after else Book_added after)
  ∧ (NoDup before → NoDup after).
Proof.
  intros Hin before after. subst before after. unfold toggle_save_book.
  destruct (get_book catalog book_id) as [book|] eqn:Hget;
    [|by apply get_book_None in Hget].
  apply get_book_Some in Hget as [-> _].
  case_bool_decide as Hsaved; simpl; rewrite saved_list_set.
  - split; [|split; [|split]].
    + rewrite list_elem_of_filter. tauto.
    + intros i Hi. rewrite list_elem_of_filter. tauto.
    + done.
    + intros Hnd. by apply NoDup_filter.
  - split; [|split; [|split]].
    + rewrite dict_fromkeys_elem_of, elem_of_app, list_elem_of_singleton. tauto.
    + intros i Hi. rewrite dict_fromkeys_elem_of, elem_of_app, list_elem_of_singleton. tauto.
    + done.
    + intros _. apply dict_fromkeys_NoDup.
Qed.

Lemma toggle_flips_one_membership_witness :
  2%Z ∈ Book.id <$> shelf
  ∧ (2%Z ∈ saved_list (toggle_save_book Scenario.collector None shelf 2).1
     ↔ 2%Z ∉ saved_list (migrate_legacy Scenario.collector None))
  ∧ (toggle_save_book Scenario.collector None shelf 2).2 = Book_added [8; 99; 1; 2]%Z.
Proof.
  assert (2%Z ∈ Book.id <$> shelf) as Hin by (by apply (bool_decide_unpack _)).
  destruct (toggle_flips_one_membership Scenario.collector None shelf 2 Hin)
    as (Hflip & _ & Hanswer & _).
  split; [exact Hin|]. split; [exact Hflip|]. exact Hanswer.
Defined.

(** X8. Saving a book appends its id to a duplicate-free list, and
    unsaving it straight away gives the list back exactly. *)
Theorem save_then_unsave_restores_the_list user legacy catalog book_id :
  book_id ∈ Book.id <$> catalog →
  NoDup (saved_list (migrate_legacy user legacy)) →
  book_id ∉ saved_list (migrate_legacy user legacy) →
  let user1 := (toggle_save_book user legacy catalog book_id).1 in
  let user2 := (toggle_save_book user1 legacy catalog book_id).1 in
  saved_list user1 = saved_list (migrate_legacy user legacy) ++ [book_id]
  ∧ saved_list user2 = saved_list (migrate_legacy user legacy).
Proof.
  intros Hin Hnd Hnot user1 user2. subst user2 user1. unfold toggle_save_book.
  destruct (get_book catalog book_id) as [book|] eqn:Hget;
    [|by apply get_book_None in Hget].
  apply get_book_Some in Hget as [-> _].
  rewrite (bool_decide_eq_false_2 _ Hnot). simpl.
  assert (NoDup (saved_list (migrate_legacy user legacy) ++ [book_id])) as Hnd'.
  { apply NoDup_app. split; [done|]. split; [|apply NoDup_singleton].
    intros y Hy Hy'. apply list_elem_of_singleton in Hy'. by subst. }
  rewrite dict_fromkeys_id by done. rewrite saved_list_set. split; [done|].
  set (user1 := set_saved_book_ids _ _).
  assert (saved_list user1 = saved_list (migrate_legacy user legacy) ++ [book_id]) as Hs1
    by apply saved_list_set.
  assert (migrate_legacy user1 legacy = user1) as ->.
  { unfold migrate_legacy. rewrite Hs1. by destruct (saved_list (migrate_legacy user legacy)). }
  rewrite Hs1, bool_decide_eq_true_2 by (apply elem_of_app; right; left).
  simpl. rewrite saved_list_set, filter_app, filter_cons_False, filter_nil, app_nil_r by tauto.
  clear -Hnot. induction (saved_list (migrate_legacy user legacy)) as [|x l IH]; [done|].
  rewrite filter_cons_True; [f_equal; apply IH|]; set_solver.
Qed.

Lemma save_then_unsave_restores_the_list_witness :
  2%Z ∈ Book.id <$> shelf
  ∧ NoDup (saved_list (migrate_legacy Scenario.collector None))
  ∧ (2%Z ∉ saved_list (migrate_legacy Scenario.collector None))
  ∧ saved_list (toggle_save_book Scenario.collector None shelf 2).1 = [8; 99; 1; 2]%Z
  ∧ saved_list (toggle_save_book (toggle_save_book Scenario.collector None shelf 2).1
                                 None shelf 2).1
    = [8; 99; 1]%Z.
Proof.
  assert (2%Z ∈ Book.id <$> shelf) as Hin by (by apply (bool_decide_unpack _)).
  assert (NoDup (saved_list (migrate_legacy Scenario.collector None))) as Hnd
    by (by apply (bool_decide_unpack _)).
  assert (2%Z ∉ saved_list (migrate_legacy Scenario.collector None)) as Hnot
    by (by apply (bool_decide_unpack _)).
  destruct (save_then_unsave_restores_the_list Scenario.collector None shelf 2 Hin Hnd Hnot)
    as [Hsaved Hback].
  split; [exact Hin|]. split; [exact Hnd|]. split; [exact Hnot|].
  split; [exact Hsaved|exact Hback].
Defined.

Lemma toggle_legacy_only user catalog book_id :
  book_id ∈ Book.id <$> catalog →
  saved_list user = [] →
  toggle_save_book user (Some [book_id]) catalog book_id
  = (set_saved_book_ids user [], Book_removed []).
Proof.
  intros Hin Hempty. unfold toggle_save_book.
  destruct (get_book catalog book_id) as [book|] eqn:Hget;
    [|by apply get_book_None in Hget].
  apply get_book_Some in Hget as [Hid _].
  unfold migrate_legacy. rewrite Hempty. simpl. rewrite saved_list_set, Hid.
  rewrite bool_decide_eq_true_2 by left.
  by rewrite filter_cons_False, filter_nil by tauto.
Qed.

(** X9. A book that is the only entry of the legacy many-to-many relation
    cannot be kept in an empty saved list: every toggle first copies the
    legacy relation into the list, finds the book there and removes it, so
    however often the user toggles, the answer is "removed" and the list
    stays empty. *)
Theorem legacy_book_is_never_saved user catalog book_id (n : nat) :
  book_id ∈ Book.id <$> catalog →
  saved_list user = [] →
  let toggle u := toggle_save_book u (Some [book_id]) catalog book_id in
  saved_list (Nat.iter n (λ u, (toggle u).1) user) = []
  ∧ (toggle (Nat.iter n (λ u, (toggle u).1) user)).2 = Book_removed [].
Proof.
  intros Hin Hempty toggle. subst toggle.
  assert (saved_list (Nat.iter n
            (λ u, (toggle_save_book u (Some [book_id]) catalog book_id).1) user) = []) as Hn.
  { induction n as [|n IH]; [done|]. simpl. by rewrite (toggle_legacy_only _ _ _ Hin IH). }
  split; [done|]. by rewrite (toggle_legacy_only _ _ _ Hin Hn).
Qed.

Lemma legacy_book_is_never_saved_witness :
  2%Z ∈ Book.id <$> shelf
  ∧ saved_list new_user = []
  ∧ saved_list (Nat.iter 3 (λ u, (toggle_save_book u (Some [2%Z]) shelf 2).1) new_user) = []
  ∧ (toggle_save_book
       (Nat.iter 3 (λ u, (toggle_save_book u (Some [2%Z]) shelf 2).1) new_user)
       (Some [2%Z]) shelf 2).2
    = Book_removed [].
Proof.
  assert (2%Z ∈ Book.id <$> shelf) as Hin by (by apply (bool_decide_unpack _)).
  assert (saved_list new_user = []) as Hempty by reflexivity.
  destruct (legacy_book_is_never_saved new_user shelf 2 3 Hin Hempty) as [Hlist Hanswer].
  split; [exact Hin|]. split; [exact Hempty|]. split; [exact Hlist|exact Hanswer].
Defined.

Lemma saved_ids_gather user catalog :
  saved_ids (gather_signals user catalog) = list_to_set (saved_list user).
Proof. reflexivity. Qed.

(** X10. Once the view has answered "added" for a book, that book is in no
    recommendation made for the user row it stored, for any catalog and
    limit. *)
Theorem saved_book_leaves_the_recommendations
    user legacy catalog book_id user' saved catalog' limit_param out b :
  toggle_save_book user legacy catalog book_id = (user', Book_added saved) →
  recommended_books user' catalog' limit_param = Some out →
  b ∈ out →
  Book.id b ≠ book_id.
Proof.
  intros Htoggle (ranked & Hperm & ->)%recommend_ranked Hb%subseteq_take.
  rewrite Hperm in Hb. apply elem_of_exclude_id_in in Hb as [Hns _].
  intros Hid. apply Hns. rewrite saved_ids_gather. apply elem_of_list_to_set.
  unfold toggle_save_book in Htoggle.
  destruct (get_book catalog book_id) as [book|] eqn:Hget; [|done].
  apply get_book_Some in Hget as [Hbid _].
  case_bool_decide; [done|]. injection Htoggle as <- _. rewrite saved_list_set.
  apply dict_fromkeys_elem_of, elem_of_app. right.
  apply list_elem_of_singleton. congruence.
Qed.

Lemma saved_book_leaves_the_recommendations_witness :
  toggle_save_book Scenario.collector None shelf 2
  = (set_saved_book_ids Scenario.collector [8; 99; 1; 2]%Z, Book_added [8; 99; 1; 2]%Z)
  ∧ recommended_books (set_saved_book_ids Scenario.collector [8; 99; 1; 2]%Z) shelf (Some "10")
    = Some [book7]
  ∧ book7 ∈ [book7]
  ∧ Book.id book7 ≠ 2%Z.
Proof.
  assert (toggle_save_book Scenario.collector None shelf 2
          = (set_saved_book_ids Scenario.collector [8; 99; 1; 2]%Z,
             Book_added [8; 99; 1; 2]%Z)) as Htoggle by (vm_compute; reflexivity).
  assert (recommended_books (set_saved_book_ids Scenario.collector [8; 99; 1; 2]%Z) shelf
                            (Some "10") = Some [book7]) as Hrun by (vm_compute; reflexivity).
  assert (book7 ∈ [book7]) as Hin by apply list_elem_of_here.
  split; [exact Htoggle|]. split; [exact Hrun|]. split; [exact Hin|].
  exact (saved_book_leaves_the_recommendations Scenario.collector None shelf 2 _ _ shelf
           (Some "10") _ book7 Htoggle Hrun Hin).
Defined.

(** ** The order of [get_saved_books] *)

Section SortedByInt.
Context {A : Type} (key : A → Z).

Lemma insert_by_int_perm x l : insert_by_int key x l ≡ₚ x :: l.
Proof.
  induction l as [|y l IH]; simpl; [done|].
  destruct (key y <? key x)%Z; [|done]. rewrite IH. apply Permutation_swap.
Qed.

Lemma sorted_by_int_perm l : sorted_by_int key l ≡ₚ l.
Proof.
  induction l as [|x l IH]; simpl; [done|]. by rewrite insert_by_int_perm, IH.
Qed.

Lemma insert_by_int_sorted x l :
  Sorted (λ a b, key a ≤ key b)%Z l → Sorted (λ a b, key a ≤ key b)%Z (insert_by_int key x l).
Proof.
  induction l as [|y l IH]; simpl; intros Hl; [repeat constructor|].
  destruct (Z.ltb_spec (key y) (key x)) as [Hlt|Hge].
  - apply Sorted_inv in Hl as [Hl Hhd]. constructor; [by apply IH|].
    destruct l as [|z l]; simpl.
    + constructor. lia.
    + apply HdRel_inv in Hhd. destruct (key z <? key x)%Z; constructor; lia.
  - constructor; [done|]. by constructor.
Qed.

Lemma sorted_by_int_sorted l : Sorted (λ a b, key a ≤ key b)%Z (sorted_by_int key l).
Proof. induction l as [|x l IH]; simpl; [constructor|by apply insert_by_int_sorted]. Qed.
End SortedByInt.

Lemma id_index_snoc l x : id_index (l ++ [x]) = <[x := length l]> (id_index l).
Proof.
  unfold id_index. rewrite imap_app, foldl_app. simpl. by rewrite Nat.add_0_r.
Qed.

Lemma id_index_lookup ids k i :
  NoDup ids → ids !! k = Some i → id_index ids !! i = Some k.
Proof.
  revert k. induction ids as [|x l IH] using rev_ind; intros k Hnd Hk; [done|].
  rewrite id_index_snoc. apply NoDup_app in Hnd as (Hl & Hx & _).
  destruct (decide (k < length l)) as [Hlt|Hge].
  - rewrite lookup_app_l in Hk by done.
    rewrite lookup_insert_ne; [by apply IH|].
    intros ->. apply (Hx i); [by eapply list_elem_of_lookup_2|left].
  - rewrite lookup_app_r in Hk by lia.
    destruct (k - length l) as [|n] eqn:Hn; simplify_eq/=.
    rewrite lookup_insert_eq. f_equal. lia.
Qed.

Lemma StronglySorted_by_lookup {A} (R : relation A) (l : list A) :
  (∀ k1 k2 x y, k1 < k2 → l !! k1 = Some x → l !! k2 = Some y → R x y) →
  StronglySorted R l.
Proof.
  induction l as [|x l IH]; intros Hl; constructor.
  - apply IH. intros k1 k2 a b Hlt Ha Hb. apply (Hl (S k1) (S k2)); [lia|done..].
  - apply Forall_forall. intros y [k Hk]%list_elem_of_lookup.
    apply (Hl 0 (S k)); [lia|done..].
Qed.

Lemma StronglySorted_filter {A} (R : relation A) (P : A → Prop)
    `{∀ x, Decision (P x)} (l : list A) :
  StronglySorted R l → StronglySorted R (filter P l).
Proof.
  induction 1 as [|x l Hl IH Hx]; [constructor|].
  rewrite filter_cons. destruct (decide (P x)); [|done].
  constructor; [done|]. apply Forall_forall. intros y [_ Hy]%list_elem_of_filter.
  rewrite Forall_forall in Hx. by apply Hx.
Qed.

(** X11. [get_saved_books] lists the saved books in the order in which
    their ids are stored, leaving out the ids that no book has. *)
Theorem saved_books_keep_their_order user catalog :
  NoDup (saved_list user) →
  unique_ids catalog →
  Book.id <$> get_saved_books user catalog
  = filter (λ i, i ∈ Book.id <$> catalog) (saved_list user).
Proof.
  intros Hnd Hids. unfold get_saved_books.
  set (ids := saved_list user) in *.
  set (key := λ i : Z, default 999999%Z (Z.of_nat <$> id_index ids !! i)).
  change (λ b : Book.t, default 999999%Z (Z.of_nat <$> id_index ids !! Book.id b))
    with (key ∘ Book.id).
  assert (∀ k i, ids !! k = Some i → key i = Z.of_nat k) as Hkey.
  { intros k i Hk. unfold key. by rewrite (id_index_lookup ids k i Hnd Hk). }
  destruct (Py.list_falsy ids) eqn:Hfalsy.
  { destruct ids; [done|discriminate]. }
  set (books := filter_id_in (list_to_set ids) catalog).
  assert (∀ i, i ∈ Book.id <$> books ↔ i ∈ ids ∧ i ∈ Book.id <$> catalog) as Hbooks.
  { intros i. unfold books, filter_id_in. rewrite !list_elem_of_fmap. split.
    - intros (b & -> & [Hb ?]%list_elem_of_filter). apply elem_of_list_to_set in Hb. eauto.
    - intros [Hi (b & -> & Hb)]. exists b. split; [done|].
      apply list_elem_of_filter. split; [by apply elem_of_list_to_set|done]. }
  apply (StronglySorted_unique_strong (λ i j, key i ≤ key j)%Z).
  - intros x1 x2 Hx1 Hx2 H12 H21.
    rewrite sorted_by_int_perm in Hx1.
    apply Hbooks in Hx1 as [[k1 Hk1]%list_elem_of_lookup _].
    apply list_elem_of_filter in Hx2 as [_ [k2 Hk2]%list_elem_of_lookup].
    rewrite (Hkey _ _ Hk1), (Hkey _ _ Hk2) in H12, H21.
    assert (k1 = k2) by lia. congruence.
  - apply Sorted_StronglySorted; [intros x y z; lia|].
    apply (Sorted_fmap Book.id (λ a b, (key ∘ Book.id) a ≤ (key ∘ Book.id) b)%Z); [done|].
    apply sorted_by_int_sorted.
  - apply StronglySorted_filter, StronglySorted_by_lookup.
    intros k1 k2 x y Hlt Hx Hy. rewrite (Hkey _ _ Hx), (Hkey _ _ Hy). lia.
  - rewrite sorted_by_int_perm. apply NoDup_Permutation.
    + apply (sublist_NoDup _ (Book.id <$> catalog)); [exact Hids|].
      apply fmap_sublist, sublist_filter.
    + by apply NoDup_filter.
    + intros i. rewrite Hbooks, list_elem_of_filter. tauto.
Qed.

Lemma saved_books_keep_their_order_witness :
  NoDup (saved_list Scenario.collector)
  ∧ unique_ids shelf
  ∧ Book.id <$> get_saved_books Scenario.collector shelf
    = filter (λ i, i ∈ Book.id <$> shelf) (saved_list Scenario.collector)
  ∧ Book.id <$> get_saved_books Scenario.collector shelf = [8; 1]%Z.
Proof.
  assert (NoDup (saved_list Scenario.collector)) as Hnd by (by apply (bool_decide_unpack _)).
  assert (unique_ids shelf) as Hids by (by apply (bool_decide_unpack _)).
  split; [exact Hnd|]. split; [exact Hids|].
  split; [exact (saved_books_keep_their_order Scenario.collector shelf Hnd Hids)|].
  vm_compute. reflexivity.
Defined.

(** * Browsing *)

Lemma py_slice_forward {A} (l : list A) (start stop : Z) :
  (0 ≤ start)%Z → (0 ≤ stop)%Z →
  py_slice l start stop = take (Z.to_nat (stop - start)) (drop (Z.to_nat start) l).
Proof.
  intros Hstart Hstop. unfold py_slice, slice_bound.
  destruct (Z.ltb_spec start 0), (Z.ltb_spec stop 0); try lia.
  destruct (decide (Z.of_nat (length l) ≤ start)%Z) as [Hout|Hin].
  - rewrite (Z.min_r start) by lia.
    rewrite (drop_ge l (Z.to_nat start)), (drop_ge l (Z.to_nat (Z.of_nat (length l)))) by lia.
    by rewrite !take_nil.
  - rewrite (Z.min_l start) by lia.
    destruct (decide (stop ≤ Z.of_nat (length l))%Z) as [|Hlong];
      [by rewrite (Z.min_l stop) by lia|].
    rewrite (Z.min_r stop) by lia. rewrite !take_ge; [done|rewrite length_drop; lia..].
Qed.

Lemma py_slice_length_le {A} (l : list A) (start stop : Z) :
  (Z.of_nat (length (py_slice l start stop)) ≤ Z.max 0 (stop - start))%Z
  ∨ (stop < 0 ≤ start)%Z.
Proof.
  unfold py_slice, slice_bound. rewrite length_take, length_drop.
  destruct (Z.ltb_spec start 0), (Z.ltb_spec stop 0); lia.
Qed.

(** X12. A page of [explore_books] holds at most [limit] books when the
    limit is not negative, whatever the offset, negative offsets
    included. *)
Theorem page_holds_at_most_limit_books column_filters catalog
    offset_param limit_param exclude_ids_param pg limit :
  explore_books column_filters catalog offset_param limit_param exclude_ids_param = Some pg →
  int_param limit_param 4 = Some limit →
  (0 ≤ limit)%Z →
  (Z.of_nat (length (books pg)) ≤ limit)%Z.
Proof.
  unfold explore_books. intros Hpg Hlimit Hpos. rewrite Hlimit in Hpg.
  destruct (int_param offset_param 0) as [offset|]; [|done].
  destruct column_filters as [matches|]; [|done]. simplify_eq/=.
  match goal with |- context [py_slice ?l _ _] =>
    destruct (py_slice_length_le l offset (offset + limit)) as [Hle|Hneg] end; lia.
Qed.

Lemma page_holds_at_most_limit_books_witness :
  explore_books (Some Scenario.any_book) shelf (Some "1") (Some "2") None
  = Some (mk_page [book1; book8] true 4)
  ∧ int_param (Some "2") 4 = Some 2%Z
  ∧ (0 ≤ 2)%Z
  ∧ (Z.of_nat (length (books (mk_page [book1; book8] true 4))) ≤ 2)%Z.
Proof.
  assert (explore_books (Some Scenario.any_book) shelf (Some "1") (Some "2") None
          = Some (mk_page [book1; book8] true 4)) as Hpg by (vm_compute; reflexivity).
  assert (int_param (Some "2") 4 = Some 2%Z) as Hlimit by (vm_compute; reflexivity).
  assert (0 ≤ 2)%Z as Hpos by lia.
  split; [exact Hpg|]. split; [exact Hlimit|]. split; [exact Hpos|].
  exact (page_holds_at_most_limit_books (Some Scenario.any_book) shelf (Some "1") (Some "2")
           None _ 2 Hpg Hlimit Hpos).
Defined.

(** X13. The limit is not checked for its sign: with [limit=-k] and no
    offset the slice is [all[0:-k]], every matching book but the last [k],
    in one response. *)
Theorem negative_limit_returns_all_but_the_last column_filters catalog
    limit_param exclude_ids_param pg k :
  explore_books column_filters catalog None limit_param exclude_ids_param = Some pg →
  int_param limit_param 4 = Some (- Z.of_nat k)%Z →
  0 < k ≤ total_count pg →
  length (books pg) = total_count pg - k
  ∧ has_more pg = true
  ∧ ∃ last_k, length last_k = k ∧
      ∃ matches, column_filters = Some matches ∧
        books pg ++ last_k
        = filter (λ b, matches b = true)
            (let exclude_ids := parse_exclude_ids (Py.strip (default EmptyString exclude_ids_param)) in
             if bool_decide (exclude_ids = ∅) then catalog
             else exclude_id_in exclude_ids catalog).
Proof.
  unfold explore_books. intros Hpg Hlimit Hk. rewrite Hlimit in Hpg. simpl in Hpg.
  destruct column_filters as [matches|]; [|done]. simplify_eq/=.
  set (all := filter _ _) in *.
  assert (py_slice all 0 (0 + - Z.of_nat k) = take (length all - k) all) as ->.
  { unfold py_slice, slice_bound.
    destruct (Z.ltb_spec 0 0), (Z.ltb_spec (0 + - Z.of_nat k) 0); try lia.
    rewrite Z.min_l, Z.max_r by lia. simpl. f_equal. lia. }
  split; [rewrite length_take; lia|]. split; [apply Z.ltb_lt; lia|].
  exists (drop (length all - k) all). split; [rewrite length_drop; lia|].
  exists matches. split; [done|]. apply take_drop.
Qed.

Lemma negative_limit_returns_all_but_the_last_witness :
  explore_books (Some Scenario.any_book) shelf None (Some "-1") None
  = Some (mk_page [book7; book1; book8] true 4)
  ∧ int_param (Some "-1") 4 = Some (- Z.of_nat 1)%Z
  ∧ 0 < 1 ≤ total_count (mk_page [book7; book1; book8] true 4)
  ∧ length (books (mk_page [book7; book1; book8] true 4))
    = total_count (mk_page [book7; book1; book8] true 4) - 1
  ∧ has_more (mk_page [book7; book1; book8] true 4) = true.
Proof.
  assert (explore_books (Some Scenario.any_book) shelf None (Some "-1") None
          = Some (mk_page [book7; book1; book8] true 4)) as Hpg by (vm_compute; reflexivity).
  assert (int_param (Some "-1") 4 = Some (- Z.of_nat 1)%Z) as Hlimit
    by (vm_compute; reflexivity).
  assert (0 < 1 ≤ total_count (mk_page [book7; book1; book8] true 4)) as Hk by (simpl; lia).
  destruct (negative_limit_returns_all_but_the_last (Some Scenario.any_book) shelf
              (Some "-1") None _ 1 Hpg Hlimit Hk) as (Hlen & Hmore & _).
  split; [exact Hpg|]. split; [exact Hlimit|]. split; [exact Hk|].
  split; [exact Hlen|exact Hmore].
Defined.

Lemma pages_are_a_prefix (all : list Book.t) (limit : Z) (n : nat) :
  (0 < limit)%Z →
  mjoin ((λ i, books (paginate all (Z.of_nat i * limit) limit)) <$> seq 0 n)
  = take (n * Z.to_nat limit) all.
Proof.
  intros Hlimit. induction n as [|n IH]; [done|].
  rewrite seq_S, fmap_app, join_app, IH. simpl. rewrite app_nil_r.
  rewrite py_slice_forward by lia.
  replace (Z.of_nat n * limit + limit - Z.of_nat n * limit)%Z with limit by lia.
  replace (Z.to_nat (Z.of_nat n * limit)) with (n * Z.to_nat limit) by lia.
  rewrite take_take_drop. f_equal. lia.
Qed.

(** X14. Pages asked for one after the other, at the offsets 0, [limit],
    2 [limit], ..., tile the list of matching books: the first [n] pages
    are its first [n * limit] books, in order and without repetition;
    [has_more] is false on exactly the pages that reach the end of the
    list, and the pages up to the first such page are the whole list. *)
Theorem consecutive_pages_tile_the_result (all : list Book.t) (limit : Z) (n : nat) :
  (0 < limit)%Z →
  let page i := paginate all (Z.of_nat i * limit) limit in
  mjoin (books ∘ page <$> seq 0 n) = take (n * Z.to_nat limit) all
  ∧ (has_more (page n) = false ↔ length all ≤ S n * Z.to_nat limit)
  ∧ (has_more (page n) = false → mjoin (books ∘ page <$> seq 0 (S n)) = all).
Proof.
  intros Hlimit page.
  assert (has_more (page n) = false ↔ length all ≤ S n * Z.to_nat limit) as Hlast.
  { unfold page, paginate. simpl has_more. rewrite Z.ltb_ge. nia. }
  split; [by apply pages_are_a_prefix|]. split; [done|].
  intros Hend%Hlast.
  change (books ∘ page) with (λ i, books (paginate all (Z.of_nat i * limit) limit)).
  rewrite pages_are_a_prefix by done. by apply take_ge.
Qed.

Lemma consecutive_pages_tile_the_result_witness :
  (0 < 3)%Z
  ∧ has_more (paginate shelf (Z.of_nat 1 * 3) 3) = false
  ∧ mjoin (books ∘ (λ i, paginate shelf (Z.of_nat i * 3) 3) <$> seq 0 2) = shelf.
Proof.
  assert (0 < 3)%Z as Hlimit by lia.
  assert (has_more (paginate shelf (Z.of_nat 1 * 3) 3) = false) as Hend
    by (vm_compute; reflexivity).
  destruct (consecutive_pages_tile_the_result shelf 3 1 Hlimit) as (_ & _ & Hall).
  split; [exact Hlimit|]. split; [exact Hend|]. exact (Hall Hend).
Defined.

Lemma py_slice_subseteq {A} (l : list A) start stop : py_slice l start stop ⊆ l.
Proof.
  unfold py_slice. intros x Hx%subseteq_take. by eapply subseteq_drop.
Qed.

Lemma explore_books_page column_filters catalog offset_param limit_param exclude_ids_param pg b :
  explore_books column_filters catalog offset_param limit_param exclude_ids_param = Some pg →
  b ∈ books pg →
  b ∈ catalog
  ∧ Book.id b ∉ parse_exclude_ids (Py.strip (default EmptyString exclude_ids_param)).
Proof.
  unfold explore_books. intros Hpg Hb.
  destruct (int_param offset_param 0) as [offset|]; [|done].
  destruct (int_param limit_param 4) as [limit|]; [|done].
  destruct column_filters as [matches|]; [|done]. simplify_eq/=.
  apply py_slice_subseteq, list_elem_of_filter in Hb as [_ Hb].
  case_bool_decide as Hex.
  - split; [done|]. rewrite Hex. apply not_elem_of_empty.
  - apply elem_of_exclude_id_in in Hb. tauto.
Qed.

(** X15. When [exclude_ids] is ASCII text and [int] accepts every piece of
    it that is not blank, no book with one of these ids is on any page. *)
Theorem excluded_ids_are_not_returned column_filters catalog
    offset_param limit_param param ids pg b :
  Py.isascii param = true →
  explore_books column_filters catalog offset_param limit_param (Some param) = Some pg →
  mapM Py.int (exclude_tokens (Py.strip param)) = Some ids →
  b ∈ books pg →
  Book.id b ∉ ids.
Proof.
  intros _ Hpg Hids [_ Hb]%(explore_books_page _ _ _ _ _ _ _ Hpg) Hin. apply Hb.
  simpl. unfold parse_exclude_ids. rewrite Hids.
  destruct (Py.str_falsy (Py.strip param)) eqn:Hfalsy.
  - apply bool_decide_eq_true in Hfalsy. rewrite Hfalsy in Hids.
    vm_compute in Hids. simplify_eq. by apply elem_of_nil in Hin.
  - by apply elem_of_list_to_set.
Qed.

Lemma excluded_ids_are_not_returned_witness :
  Py.isascii "7, 1" = true
  ∧ explore_books (Some Scenario.any_book) shelf None (Some "10") (Some "7, 1")
    = Some (mk_page [book8; book2] false 2)
  ∧ mapM Py.int (exclude_tokens (Py.strip "7, 1")) = Some [7; 1]%Z
  ∧ book8 ∈ books (mk_page [book8; book2] false 2)
  ∧ Book.id book8 ∉ [7; 1]%Z.
Proof.
  assert (explore_books (Some Scenario.any_book) shelf None (Some "10") (Some "7, 1")
          = Some (mk_page [book8; book2] false 2)) as Hpg by (vm_compute; reflexivity).
  assert (mapM Py.int (exclude_tokens (Py.strip "7, 1")) = Some [7; 1]%Z) as Hids
    by (vm_compute; reflexivity).
  assert (book8 ∈ books (mk_page [book8; book2] false 2)) as Hin by apply list_elem_of_here.
  split; [reflexivity|]. split; [exact Hpg|]. split; [exact Hids|]. split; [exact Hin|].
  exact (excluded_ids_are_not_returned (Some Scenario.any_book) shelf None (Some "10")
           "7, 1" _ _ book8 eq_refl Hpg Hids Hin).
Defined.

(** X16. One piece of [exclude_ids] that [int] refuses voids the whole
    parameter: the response is the one for a request without it, and the
    other ids listed are not excluded.  (The parameter is ASCII text.) *)
Theorem one_bad_id_voids_the_exclusion column_filters catalog
    offset_param limit_param param token :
  Py.isascii param = true →
  token ∈ exclude_tokens (Py.strip param) →
  Py.int token = None →
  explore_books column_filters catalog offset_param limit_param (Some param)
  = explore_books column_filters catalog offset_param limit_param None.
Proof.
  intros _ Htoken Hbad. unfold explore_books. simpl.
  assert (parse_exclude_ids (Py.strip param) = ∅) as ->; [|done].
  unfold parse_exclude_ids. destruct (Py.str_falsy _); [done|].
  destruct (mapM Py.int _) as [ids|] eqn:Hids; [|done].
  apply mapM_Some in Hids.
  apply list_elem_of_lookup in Htoken as [k Hk].
  destruct (Forall2_lookup_l _ _ _ _ _ Hids Hk) as (i & _ & Hi). congruence.
Qed.

Lemma one_bad_id_voids_the_exclusion_witness :
  Py.isascii "7,x" = true
  ∧ "x" ∈ exclude_tokens (Py.strip "7,x")
  ∧ Py.int "x" = None
  ∧ explore_books (Some Scenario.any_book) shelf None (Some "10") (Some "7,x")
    = explore_books (Some Scenario.any_book) shelf None (Some "10") None.
Proof.
  assert ("x" ∈ exclude_tokens (Py.strip "7,x")) as Htoken
    by (vm_compute; apply list_elem_of_further, list_elem_of_here).
  assert (Py.int "x" = None) as Hbad by (vm_compute; reflexivity).
  split; [reflexivity|]. split; [exact Htoken|]. split; [exact Hbad|].
  exact (one_bad_id_voids_the_exclusion (Some Scenario.any_book) shelf None (Some "10")
           "7,x" "x" eq_refl Htoken Hbad).
Defined.

(** * Password reset *)

Lemma filter_fmap_commute {A} (P : A → Prop) `{∀ x, Decision (P x)} (f : A → A) (l : list A) :
  (∀ x, P (f x) ↔ P x) → filter P (f <$> l) = f <$> filter P l.
Proof.
  intros Hf. induction l as [|x l IH]; [done|].
  rewrite fmap_cons, !filter_cons.
  destruct (decide (P (f x))) as [Hy|Hn], (decide (P x)) as [Hx|Hx].
  - by rewrite fmap_cons, IH.
  - exfalso. apply Hx. by apply Hf.
  - exfalso. apply Hn. by apply Hf.
  - exact IH.
Qed.

Lemma filter_by_key {A} (key : A → Z) (l : list A) (x : A) :
  NoDup (key <$> l) → x ∈ l → filter (λ y, key y = key x) l = [x].
Proof.
  induction l as [|y l IH]; intros Hnd Hx; [by apply elem_of_nil in Hx|].
  rewrite fmap_cons in Hnd. apply NoDup_cons in Hnd as [Hy Hnd].
  apply elem_of_cons in Hx as [->|Hx].
  - rewrite filter_cons_True by done. f_equal. apply filter_none.
    intros z Hz Heq. apply Hy. rewrite <- Heq. by apply list_elem_of_fmap_2.
  - rewrite filter_cons_False; [by apply IH|].
    intros Heq. apply Hy. rewrite Heq. by apply list_elem_of_fmap_2.
Qed.

Lemma get_account_Some db email user :
  get_account db email = Some user → user ∈ accounts db ∧ Account.email user = email.
Proof.
  unfold get_account. intros Hhd.
  assert (user ∈ filter (λ u, Account.email u = email) (accounts db)) as Hin.
  { destruct (filter _ (accounts db)); simplify_eq/=. left. }
  apply list_elem_of_filter in Hin. tauto.
Qed.

(** X17. Asking for a new OTP retires every earlier OTP of that account:
    whether or not the mail went out, none of them is valid at any later
    time, while the OTPs of other accounts are left as they were. *)
Theorem new_otp_retires_the_earlier_ones db email now created code mail_sent user :
  get_account db email = Some user →
  email ≠ EmptyString →
  let db' := (forgot_password db (Some email) now created code mail_sent).1 in
  (∀ o later, o ∈ otps db' → Otp.user_id o = Account.id user →
      Otp.id o ≠ next_otp_id db → is_valid o later = false)
  ∧ (∀ o, o ∈ otps db → Otp.user_id o ≠ Account.id user → o ∈ otps db').
Proof.
  intros Huser Hemail db'. subst db'. unfold forgot_password, Py.str_falsy.
  rewrite (bool_decide_eq_false_2 _ Hemail), Huser. simpl. split.
  - intros o later [Ho|Ho]%elem_of_app Hu Hid.
    + apply list_elem_of_fmap in Ho as (o' & -> & _).
      case_bool_decide as Hown; [done|]. by destruct Hown.
    + apply list_elem_of_singleton in Ho. by subst.
  - intros o Ho Hother. apply elem_of_app. left.
    apply list_elem_of_fmap. exists o. by rewrite bool_decide_eq_false_2.
Qed.

Lemma new_otp_retires_the_earlier_ones_witness :
  get_account Scenario.otp_requested "alice@example.org" = Some Scenario.alice
  ∧ "alice@example.org" ≠ EmptyString
  ∧ Otp.mk 1 1 "123456" 1001 600001000 true ∈ otps Scenario.otp_requested_again
  ∧ is_valid (Otp.mk 1 1 "123456" 1001 600001000 true) 3000 = false.
Proof.
  assert (get_account Scenario.otp_requested "alice@example.org" = Some Scenario.alice)
    as Huser by (vm_compute; reflexivity).
  assert ("alice@example.org" ≠ EmptyString) as Hemail by discriminate.
  assert (Otp.mk 1 1 "123456" 1001 600001000 true ∈ otps Scenario.otp_requested_again)
    as Hin by (vm_compute; apply list_elem_of_here).
  split; [exact Huser|]. split; [exact Hemail|]. split; [exact Hin|].
  refine (proj1 (new_otp_retires_the_earlier_ones Scenario.otp_requested
                   "alice@example.org" 2000 2001 "654321" false Scenario.alice Huser Hemail)
                _ 3000%Z Hin eq_refl _).
  vm_compute. discriminate.
Defined.

Lemma filter_ext_elem_of {A} (P Q : A → Prop) `{∀ x, Decision (P x)} `{∀ x, Decision (Q x)}
    (l : list A) :
  (∀ x, x ∈ l → P x ↔ Q x) → filter P l = filter Q l.
Proof.
  induction l as [|x l IH]; intros Hl; [done|].
  rewrite !filter_cons, IH by (intros; apply Hl; by right).
  destruct (decide (P x)) as [Hp|Hp], (decide (Q x)) as [Hq|Hq]; try done;
    exfalso; apply (Hl x) in Hp || apply (Hl x) in Hq; done || left.
Qed.

Lemma find_otp db (o : Otp.t) :
  NoDup (Otp.id <$> otps db) → o ∈ otps db →
  filter (λ o', Otp.id o' = Otp.id o ∧ Otp.user_id o' = Otp.user_id o) (otps db) = [o].
Proof.
  intros Hnd Ho. rewrite <- (filter_by_key Otp.id (otps db) o Hnd Ho).
  apply filter_ext_elem_of. intros o' Ho'. split; [tauto|]. intros Hid. split; [done|].
  assert (o' ∈ filter (λ y, Otp.id y = Otp.id o) (otps db)) as Hin
    by (by apply list_elem_of_filter).
  rewrite (filter_by_key Otp.id (otps db) o Hnd Ho) in Hin.
  apply list_elem_of_singleton in Hin. by subst.
Qed.

Lemma reset_password_success make_password db email otp_id new_password now db' :
  reset_password make_password db email otp_id new_password now = (db', Password_reset) →
  ∃ e i pw user o,
    email = Some e ∧ otp_id = Some i ∧ new_password = Some pw
    ∧ e ≠ EmptyString ∧ i ≠ 0%Z ∧ pw ≠ EmptyString
    ∧ get_account db e = Some user
    ∧ o ∈ otps db ∧ Otp.id o = i ∧ Otp.user_id o = Account.id user
    ∧ is_valid o now = true
    ∧ db' = mk_database
              ((λ u, if bool_decide (Account.id u = Account.id user)
                     then Account.mk (Account.id u) (Account.email u) (make_password pw)
                                     (Account.username u) (Account.preferred_language u)
                     else u) <$> accounts db)
              ((λ o', if bool_decide (Otp.id o' = Otp.id o) then mark_used o' else o')
                 <$> otps db)
              (next_otp_id db) (next_account_id db).
Proof.
  unfold reset_password, Py.str_falsy.
  destruct email as [e|], otp_id as [i|], new_password as [pw|]; try done.
  destruct (decide (e = EmptyString)) as [->|He]; [done|].
  destruct (decide (i = 0%Z)) as [->|Hi]; [by rewrite (bool_decide_eq_false_2 _ He)|].
  destruct (decide (pw = EmptyString)) as [->|Hpw];
    [by rewrite (bool_decide_eq_false_2 _ He), (bool_decide_eq_false_2 _ Hi)|].
  rewrite (bool_decide_eq_false_2 _ He), (bool_decide_eq_false_2 _ Hi),
    (bool_decide_eq_false_2 _ Hpw). simpl.
  destruct (get_account db e) as [user|] eqn:Huser; [|done].
  destruct (head _) as [o|] eqn:Ho; [|done].
  destruct (is_valid o now) eqn:Hvalid; [|done]. simpl. intros [= <-].
  exists e, i, pw, user, o.
  assert (o ∈ filter (λ o', Otp.id o' = i ∧ Otp.user_id o' = Account.id user) (otps db)) as Hin.
  { destruct (filter _ (otps db)); simplify_eq/=. left. }
  apply list_elem_of_filter in Hin as [[? ?] ?]. by repeat split.
Qed.

(** X18. An OTP resets a password once: after [reset_password] has
    succeeded, the same request, or one with the same [otp_id] and another
    password, at any time, is refused and changes nothing. *)
Theorem otp_resets_a_password_once
    make_password db email otp_id new_password now db' other_password later :
  consistent db →
  reset_password make_password db email otp_id new_password now = (db', Password_reset) →
  (reset_password make_password db' email otp_id other_password later).1 = db'
  ∧ (reset_password make_password db' email otp_id other_password later).2 ≠ Password_reset.
Proof.
  intros Hdb (e & i & pw & user & o & -> & -> & -> & He & Hi & Hpw & Huser & Ho & Hoi & Hou
              & Hvalid & ->)%reset_password_success.
  set (setpw := λ u : Account.t, _). set (use := λ o' : Otp.t, _).
  set (db' := mk_database _ _ _ _).
  assert (get_account db' e = Some (setpw user)) as Huser'.
  { unfold get_account, db'. simpl.
    rewrite (filter_fmap_commute _ setpw).
    - unfold get_account in Huser. destruct (filter _ (accounts db)); by simplify_eq/=.
    - intros u. unfold setpw. by case_bool_decide. }
  assert (Account.id (setpw user) = Account.id user) as Hid
    by (unfold setpw; by case_bool_decide).
  assert (head (filter (λ o', Otp.id o' = i ∧ Otp.user_id o' = Account.id (setpw user))
                       (otps db')) = Some (mark_used o)) as Hfind.
  { rewrite Hid. unfold db'. simpl. rewrite (filter_fmap_commute _ use).
    - rewrite <- Hoi, <- Hou, (find_otp db o (otp_ids_unique _ Hdb) Ho). simpl.
      unfold use. by rewrite bool_decide_eq_true_2.
    - intros o'. unfold use. by case_bool_decide. }
  unfold reset_password, Py.str_falsy.
  destruct other_password as [pw'|]; [|done].
  rewrite (bool_decide_eq_false_2 _ He), (bool_decide_eq_false_2 _ Hi). simpl.
  case_bool_decide; [done|]. rewrite Huser'.
  change (otps db') with (use <$> otps db) in Hfind. rewrite Hfind. done.
Qed.

Lemma otp_resets_a_password_once_witness :
  consistent Scenario.otp_requested
  ∧ reset_password Scenario.hasher Scenario.otp_requested (Some "alice@example.org")
      (Some 1%Z) (Some "new-password") 5000
    = (Scenario.password_changed, Password_reset)
  ∧ (reset_password Scenario.hasher Scenario.password_changed (Some "alice@example.org")
       (Some 1%Z) (Some "another-password") 6000).1 = Scenario.password_changed
  ∧ (reset_password Scenario.hasher Scenario.password_changed (Some "alice@example.org")
       (Some 1%Z) (Some "another-password") 6000).2 ≠ Password_reset.
Proof.
  assert (reset_password Scenario.hasher Scenario.otp_requested (Some "alice@example.org")
            (Some 1%Z) (Some "new-password") 5000
          = (Scenario.password_changed, Password_reset)) as Hreset
    by (vm_compute; reflexivity).
  destruct (otp_resets_a_password_once Scenario.hasher Scenario.otp_requested
              (Some "alice@example.org") (Some 1%Z) (Some "new-password") 5000
              Scenario.password_changed (Some "another-password") 6000
              otp_requested_consistent Hreset) as [Hsame Hrefused].
  split; [exact otp_requested_consistent|]. split; [exact Hreset|].
  split; [exact Hsame|exact Hrefused].
Defined.

Lemma retired_otps_are_used (user : Account.t) (l : list Otp.t) :
  filter (λ c, Otp.is_used c = false)
    (filter (λ o, Otp.user_id o = Account.id user)
       ((λ o, if bool_decide (Otp.user_id o = Account.id user) then mark_used o else o) <$> l))
  = [].
Proof.
  apply filter_none. intros o [Hu Ho]%list_elem_of_filter.
  apply list_elem_of_fmap in Ho as (o' & -> & _).
  case_bool_decide as Hown; [done|]. by destruct Hown.
Qed.

Lemma filter_Permutation_singleton {A} (P : A → Prop) `{∀ x, Decision (P x)} (l l' : list A) x :
  l ≡ₚ l' → filter P l' = [x] → filter P l = [x].
Proof.
  intros Hperm Hl'. apply Permutation_singleton_r. by rewrite Hperm, Hl'.
Qed.

(** X19. The OTP that [forgot_password] has just issued is the one
    [verify_otp] checks: until ten minutes after it was issued, the code
    that was mailed is accepted and the id of the new row is handed out,
    any other code is refused as invalid; from then on every code is
    refused as expired. *)
Theorem fresh_otp_verifies_until_it_expires
    db email now created code mail_sent user otp later :
  get_account db email = Some user →
  email ≠ EmptyString →
  otp ≠ EmptyString →
  let db' := (forgot_password db (Some email) now created code mail_sent).1 in
  verify_otp db' (Some email) (Some otp) later
  = if (later <? now + ten_minutes)%Z
    then (if bool_decide (code = otp) then Otp_verified (next_otp_id db) else Invalid_otp)
    else Verify_otp_expired.
Proof.
  intros Huser Hemail Hotp db'. subst db'. unfold forgot_password, Py.str_falsy.
  rewrite (bool_decide_eq_false_2 _ Hemail), Huser. simpl.
  unfold verify_otp, Py.str_falsy.
  rewrite (bool_decide_eq_false_2 _ Hemail), (bool_decide_eq_false_2 _ Hotp). simpl.
  unfold get_account in *. simpl. rewrite Huser.
  set (new := Otp.mk _ _ _ _ _ _).
  assert (filter (λ c, Otp.is_used c = false) (otps_latest_first
            (mk_database (accounts db)
               (((λ o, if bool_decide (Otp.user_id o = Account.id user)
                       then mark_used o else o) <$> otps db) ++ [new])
               (next_otp_id db + 1) (next_account_id db)) user) = [new]) as ->.
  { unfold otps_latest_first. simpl.
    eapply filter_Permutation_singleton; [apply sorted_by_int_perm|].
    rewrite filter_app, filter_app, retired_otps_are_used.
    rewrite (filter_cons_True _ new) by done. by rewrite filter_nil, filter_cons_True. }
  simpl. unfold is_valid. simpl.
  destruct (later <? now + ten_minutes)%Z; simpl; [|done].
  by case_bool_decide.
Qed.

Lemma fresh_otp_verifies_until_it_expires_witness :
  get_account Scenario.two_accounts "alice@example.org" = Some Scenario.alice
  ∧ "alice@example.org" ≠ EmptyString
  ∧ "123456" ≠ EmptyString
  ∧ verify_otp Scenario.otp_requested (Some "alice@example.org") (Some "123456") 5000
    = Otp_verified 1.
Proof.
  assert (get_account Scenario.two_accounts "alice@example.org" = Some Scenario.alice)
    as Huser by (vm_compute; reflexivity).
  assert ("alice@example.org" ≠ EmptyString) as Hemail by discriminate.
  assert ("123456" ≠ EmptyString) as Hotp by discriminate.
  split; [exact Huser|]. split; [exact Hemail|]. split; [exact Hotp|].
  exact (fresh_otp_verifies_until_it_expires Scenario.two_accounts "alice@example.org"
           1000 1001 "123456" true Scenario.alice "123456" 5000 Huser Hemail Hotp).
Defined.

Lemma same_key_same_row {A} (key : A → Z) (l : list A) x y :
  NoDup (key <$> l) → x ∈ l → y ∈ l → key y = key x → y = x.
Proof.
  intros Hnd Hx Hy Hkey.
  assert (y ∈ filter (λ z, key z = key x) l) as Hin by (by apply list_elem_of_filter).
  rewrite (filter_by_key key l x Hnd Hx) in Hin. by apply list_elem_of_singleton in Hin.
Qed.

(** X20. With the id that [verify_otp] hands out, [reset_password] stores
    the hash of the new password for that account, and for no other, as
    long as the OTP has not expired; afterwards it refuses and stores
    nothing. *)
Theorem fresh_otp_resets_the_password
    make_password db email now created code mail_sent user pw later :
  consistent db →
  get_account db email = Some user →
  email ≠ EmptyString →
  pw ≠ EmptyString →
  let db1 := (forgot_password db (Some email) now created code mail_sent).1 in
  let answer :=
    reset_password make_password db1 (Some email) (Some (next_otp_id db)) (Some pw) later in
  if (later <? now + ten_minutes)%Z
  then answer.2 = Password_reset
       ∧ Account.password <$> get_account answer.1 email = Some (make_password pw)
       ∧ (∀ other u, other ≠ email → get_account db other = Some u →
            get_account answer.1 other = Some u)
  else answer = (db1, Reset_otp_expired).
Proof.
  intros Hdb Huser Hemail Hpw db1 answer. subst answer db1.
  unfold forgot_password, Py.str_falsy.
  rewrite (bool_decide_eq_false_2 _ Hemail), Huser. simpl.
  unfold reset_password, Py.str_falsy.
  assert (next_otp_id db ≠ 0%Z) as Hnext
    by (pose proof (otp_sequence_positive _ Hdb); lia).
  rewrite (bool_decide_eq_false_2 _ Hemail), (bool_decide_eq_false_2 _ Hnext),
    (bool_decide_eq_false_2 _ Hpw). simpl.
  unfold get_account in *. simpl. rewrite Huser.
  set (new := Otp.mk _ _ _ _ _ _).
  rewrite filter_app.
  assert (filter (λ o, Otp.id o = next_otp_id db ∧ Otp.user_id o = Account.id user)
            ((λ o, if bool_decide (Otp.user_id o = Account.id user) then mark_used o else o)
               <$> otps db) = []) as ->.
  { apply filter_none. intros o (o' & -> & Ho')%list_elem_of_fmap [Hid _].
    pose proof (otp_ids_issued _ Hdb) as Hissued. rewrite Forall_forall in Hissued.
    apply Hissued in Ho'. case_bool_decide; simpl in Hid; lia. }
  rewrite (filter_cons_True _ new) by done. simpl.
  unfold is_valid. simpl.
  destruct (later <? now + ten_minutes)%Z; simpl; [|done].
  split; [done|].
  set (setpw := λ u : Account.t, if bool_decide _ then _ else _).
  assert (∀ e, filter (λ u, Account.email u = e) (setpw <$> accounts db)
               = setpw <$> filter (λ u, Account.email u = e) (accounts db)) as Hfilter.
  { intros e. apply filter_fmap_commute. intros u. unfold setpw. by case_bool_decide. }
  split.
  - rewrite Hfilter. destruct (filter _ (accounts db)) as [|u l]; simplify_eq/=.
    unfold setpw. by rewrite bool_decide_eq_true_2.
  - intros other u Hother Hu. rewrite Hfilter.
    assert (u ∈ accounts db ∧ Account.email u = other) as [Hin Hmail]
      by (by apply get_account_Some).
    destruct (get_account_Some db email user Huser) as [Hin' Hmail'].
    unfold get_account in Hu.
    destruct (filter (λ u0, Account.email u0 = other) (accounts db)) as [|u' l];
      simplify_eq/=.
    f_equal. unfold setpw. rewrite bool_decide_eq_false_2; [done|].
    intros Hid. apply Hother.
    by rewrite (same_key_same_row Account.id (accounts db) user u
                  (account_ids_unique _ Hdb) Hin' Hin Hid).
Qed.

Lemma fresh_otp_resets_the_password_witness :
  consistent Scenario.two_accounts
  ∧ get_account Scenario.two_accounts "alice@example.org" = Some Scenario.alice
  ∧ "alice@example.org" ≠ EmptyString
  ∧ "new-password" ≠ EmptyString
  ∧ (reset_password Scenario.hasher Scenario.otp_requested (Some "alice@example.org")
       (Some 1%Z) (Some "new-password") 5000).2 = Password_reset
  ∧ Account.password <$> get_account Scenario.password_changed "alice@example.org"
    = Some (Scenario.hasher "new-password").
Proof.
  assert (get_account Scenario.two_accounts "alice@example.org" = Some Scenario.alice)
    as Huser by (vm_compute; reflexivity).
  assert ("alice@example.org" ≠ EmptyString) as Hemail by discriminate.
  assert ("new-password" ≠ EmptyString) as Hpw by discriminate.
  pose proof (fresh_otp_resets_the_password Scenario.hasher Scenario.two_accounts
                "alice@example.org" 1000 1001 "123456" true Scenario.alice "new-password"
                5000 two_accounts_consistent Huser Hemail Hpw) as (Hanswer & Hstored & _).
  split; [exact two_accounts_consistent|]. split; [exact Huser|]. split; [exact Hemail|].
  split; [exact Hpw|]. split; [exact Hanswer|exact Hstored].
Defined.

(** * The profile *)

(** X21. The saved books a profile shows are the ones stored when the
    profile has been built, the legacy relation included, and none of them
    is recommended to that user afterwards. *)
Theorem profile_shows_what_is_excluded obj legacy :
  let answer := UserDetailSerializer.get_saved_books obj legacy in
  saved_list answer.1 = answer.2
  ∧ ∀ catalog limit_param out b,
      recommended_books answer.1 catalog limit_param = Some out →
      b ∈ out →
      Book.id b ∉ answer.2.
Proof.
  intros answer.
  assert (saved_list answer.1 = answer.2) as Hshown.
  { subst answer. unfold UserDetailSerializer.get_saved_books.
    destruct (Py.list_falsy (saved_list obj)) eqn:Hfalsy; [|done]. simpl.
    assert (saved_list obj = []) as Hnil by (by destruct (saved_list obj)).
    destruct legacy as [legacy_ids|]; [|done]. simpl.
    destruct (Py.list_falsy legacy_ids) eqn:Hlegacy; simpl.
    - rewrite Hnil. by destruct legacy_ids.
    - apply saved_list_set. }
  split; [done|].
  intros catalog limit_param out b (ranked & Hperm & ->)%recommend_ranked Hb%subseteq_take.
  rewrite Hperm in Hb. apply elem_of_exclude_id_in in Hb as [Hns _].
  rewrite <- Hshown. intros Hin. apply Hns.
  rewrite saved_ids_gather. by apply elem_of_list_to_set.
Qed.

Lemma profile_shows_what_is_excluded_witness :
  saved_list (UserDetailSerializer.get_saved_books new_user (Some [7%Z])).1 = [7%Z]
  ∧ recommended_books (UserDetailSerializer.get_saved_books new_user (Some [7%Z])).1
                      shelf (Some "10")
    = Some [book8; book1; book2]
  ∧ book8 ∈ [book8; book1; book2]
  ∧ (Book.id book8 ∉ (UserDetailSerializer.get_saved_books new_user (Some [7%Z])).2).
Proof.
  assert (recommended_books (UserDetailSerializer.get_saved_books new_user (Some [7%Z])).1
                            shelf (Some "10")
          = Some [book8; book1; book2]) as Hrun by (vm_compute; reflexivity).
  assert (book8 ∈ [book8; book1; book2]) as Hin by apply list_elem_of_here.
  destruct (profile_shows_what_is_excluded new_user (Some [7%Z])) as [Hshown Hnever].
  split; [exact Hshown|]. split; [exact Hrun|]. split; [exact Hin|].
  exact (Hnever shelf (Some "10") _ book8 Hrun Hin).
Defined.

(** * The genre ranking of the dashboard *)

Lemma genre_stats_entries (books : list Book.t) :
  genre_stats books = foldl (λ stats genre, count_genre genre stats) [] (genre_entries books).
Proof.
  unfold genre_stats, genre_entries. generalize (@nil (json * Z)) as acc.
  induction books as [|b books IH]; intros acc; [done|].
  simpl. by rewrite foldl_app, IH.
Qed.

(** The count an item list holds for the key of [x]; 0 without an item. *)
Lemma count_genre_fst genre stats k :
  k ∈ (count_genre genre stats).*1 → k ∈ stats.*1 ∨ k = genre.
Proof.
  induction stats as [|[k' n] stats IH]; simpl.
  - intros ->%list_elem_of_singleton. by right.
  - case_bool_decide; simpl; [by left|].
    intros [->|Hk]%elem_of_cons; [left; left|].
    destruct (IH Hk) as [?|?]; [left; by right|by right].
Qed.

Lemma count_genre_keys genre stats x :
  x ∈ dict_key <$> (count_genre genre stats).*1
  ↔ x ∈ dict_key <$> stats.*1 ∨ x = dict_key genre.
Proof.
  induction stats as [|[k n] stats IH]; simpl.
  - rewrite list_elem_of_singleton, elem_of_nil. tauto.
  - case_bool_decide as Hk; simpl.
    + rewrite elem_of_cons. split; [tauto|]. intros [?| ->]; [done|]. by left.
    + rewrite !elem_of_cons, IH. tauto.
Qed.

Lemma count_genre_NoDup genre stats :
  NoDup (dict_key <$> stats.*1) → NoDup (dict_key <$> (count_genre genre stats).*1).
Proof.
  induction stats as [|[k n] stats IH]; simpl; intros Hnd.
  - apply NoDup_singleton.
  - apply NoDup_cons in Hnd as [Hk Hnd]. case_bool_decide as Heq; simpl.
    + by apply NoDup_cons.
    + apply NoDup_cons. split; [|by apply IH].
      rewrite count_genre_keys. intros [?|?]; done.
Qed.

Lemma count_genre_counts genre stats k n :
  NoDup (dict_key <$> stats.*1) →
  (k, n) ∈ count_genre genre stats →
  if bool_decide (dict_key k = dict_key genre)
  then (n = 1%Z ∧ dict_key k ∉ dict_key <$> stats.*1) ∨ (k, (n - 1)%Z) ∈ stats
  else (k, n) ∈ stats.
Proof.
  induction stats as [|[k' n'] stats IH]; simpl; intros Hnd Hin.
  - apply list_elem_of_singleton in Hin. simplify_eq.
    rewrite bool_decide_eq_true_2 by done. left. split; [done|]. apply not_elem_of_nil.
  - apply NoDup_cons in Hnd as [Hk' Hnd].
    destruct (decide (dict_key k' = dict_key genre)) as [Heq|Hne].
    + rewrite (bool_decide_eq_true_2 _ Heq) in Hin.
      apply elem_of_cons in Hin as [Hhd|Htl].
      * simplify_eq. rewrite (bool_decide_eq_true_2 _ Heq). right.
        replace (n' + 1 - 1)%Z with n' by lia. left.
      * case_bool_decide as Hk; [|by right].
        exfalso. apply Hk'. rewrite Heq, <- Hk.
        apply list_elem_of_fmap. exists k. split; [done|].
        apply list_elem_of_fmap. by exists (k, n).
    + rewrite (bool_decide_eq_false_2 _ Hne) in Hin.
      apply elem_of_cons in Hin as [Hhd|Htl].
      * simplify_eq. rewrite (bool_decide_eq_false_2 _ Hne). left.
      * specialize (IH Hnd Htl). case_bool_decide as Hk.
        -- destruct IH as [[-> Hnew]|Hold]; [left|right; by right].
           split; [done|]. simpl. rewrite not_elem_of_cons.
           split; [congruence|done].
        -- by right.
Qed.

(** What the loop has counted after the entries [l]. *)
Lemma counted_entries (l : list json) :
  let stats := foldl (λ stats genre, count_genre genre stats) [] l in
  NoDup (dict_key <$> stats.*1)
  ∧ (∀ x, x ∈ dict_key <$> stats.*1 ↔ x ∈ dict_key <$> l)
  ∧ (∀ k, k ∈ stats.*1 → k ∈ l)
  ∧ (∀ k n, (k, n) ∈ stats →
       n = Z.of_nat (length (filter (λ e, dict_key e = dict_key k) l))).
Proof.
  induction l as [|g l IH] using rev_ind; simpl.
  - split; [constructor|]. split; [done|]. split; [done|].
    intros k n []%elem_of_nil.
  - rewrite foldl_app. simpl.
    destruct IH as (Hnd & Hkeys & Hfst & Hcount).
    set (stats := foldl _ [] l) in *.
    split; [by apply count_genre_NoDup|]. split; [|split].
    + intros x. rewrite count_genre_keys, Hkeys, fmap_app, elem_of_app. simpl.
      by rewrite list_elem_of_singleton.
    + intros k [Hk| ->]%count_genre_fst; apply elem_of_app; [left; by apply Hfst|right; left].
    + intros k n Hin%(count_genre_counts _ _ _ _ Hnd).
      rewrite filter_app, length_app.
      case_bool_decide as Hk.
      * rewrite (filter_cons_True _ g) by done. simpl.
        destruct Hin as [[-> Hnew]|Hold].
        -- rewrite Hkeys in Hnew.
           rewrite (filter_none _ l); [done|].
           intros e He Heq. apply Hnew. rewrite <- Heq. by apply list_elem_of_fmap_2.
        -- apply Hcount in Hold. lia.
      * rewrite (filter_cons_False _ g) by done. simpl.
        apply Hcount in Hin. lia.
Qed.

Lemma occurrences_by_key books g h :
  dict_key g = dict_key h → occurrences books g = occurrences books h.
Proof. unfold occurrences. by intros ->. Qed.

(** The items the ranking is cut from. *)
Lemma ranked_genres books :
  ∃ ranked,
    most_popular_genres books = (take 5 ranked).*1
    ∧ ranked ≡ₚ genre_stats books
    ∧ StronglySorted (λ x y, - x.2 ≤ - y.2)%Z ranked
    ∧ NoDup (dict_key <$> ranked.*1)
    ∧ (∀ x, x ∈ dict_key <$> ranked.*1 ↔ x ∈ dict_key <$> genre_entries books)
    ∧ (∀ k n, (k, n) ∈ ranked → k ∈ genre_entries books
                                 ∧ n = Z.of_nat (occurrences books k)).
Proof.
  exists (sorted_by_int (λ x, - x.2)%Z (genre_stats books)).
  pose proof (sorted_by_int_perm (λ x : json * Z, - x.2)%Z (genre_stats books)) as Hperm.
  destruct (counted_entries (genre_entries books)) as (Hnd & Hkeys & Hfst & Hcount).
  rewrite <- genre_stats_entries in Hnd, Hkeys, Hfst, Hcount.
  split; [done|]. split; [done|]. split; [|split; [|split]].
  - apply Sorted_StronglySorted; [intros x y z; lia|].
    exact (sorted_by_int_sorted (λ x : json * Z, - x.2)%Z (genre_stats books)).
  - by rewrite Hperm.
  - intros x. by rewrite Hperm.
  - intros k n Hin. rewrite Hperm in Hin. split; [|by apply Hcount].
    apply Hfst, list_elem_of_fmap. by exists (k, n).
Qed.

(** X22. The dashboard lists at most five genres, no genre twice, and only
    genres that some book has; when the books have fewer than five genres
    between them, every one is listed. *)
Theorem most_popular_genres_are_genres_of_books books :
  length (most_popular_genres books) ≤ 5
  ∧ NoDup (dict_key <$> most_popular_genres books)
  ∧ (∀ g, g ∈ most_popular_genres books → g ∈ genre_entries books)
  ∧ (length (most_popular_genres books) < 5 →
     ∀ h, h ∈ genre_entries books →
          dict_key h ∈ dict_key <$> most_popular_genres books).
Proof.
  destruct (ranked_genres books) as (ranked & -> & Hperm & Hsorted & Hnd & Hkeys & Hitems).
  split; [rewrite length_fmap, length_take; lia|]. split; [|split].
  - apply (sublist_NoDup _ (dict_key <$> ranked.*1)); [done|].
    apply fmap_sublist, fmap_sublist, sublist_take.
  - intros g ([k n] & -> & Hin)%list_elem_of_fmap. apply subseteq_take in Hin.
    by apply Hitems in Hin as [Hk _].
  - rewrite length_fmap, length_take. intros Hshort h Hh.
    rewrite take_ge by lia. apply Hkeys. by apply list_elem_of_fmap_2.
Qed.

Lemma most_popular_genres_are_genres_of_books_witness :
  length (most_popular_genres shelf) < 5
  ∧ JNum 3 ∈ genre_entries shelf
  ∧ dict_key (JNum 3) ∈ dict_key <$> most_popular_genres shelf.
Proof.
  assert (length (most_popular_genres shelf) < 5) as Hshort by (vm_compute; lia).
  assert (JNum 3 ∈ genre_entries shelf) as Hin
    by (vm_compute; repeat first [apply list_elem_of_here | apply list_elem_of_further]).
  destruct (most_popular_genres_are_genres_of_books shelf) as (_ & _ & _ & Hall).
  split; [exact Hshort|]. split; [exact Hin|]. exact (Hall Hshort _ Hin).
Defined.

(** X23. The genres the dashboard lists are the most frequent ones: a genre
    that is left out occurs in the books' genre lists at most as often as
    any genre that is listed. *)
Theorem listed_genres_are_the_most_frequent books g h :
  g ∈ most_popular_genres books →
  h ∈ genre_entries books →
  dict_key h ∉ dict_key <$> most_popular_genres books →
  occurrences books h ≤ occurrences books g.
Proof.
  destruct (ranked_genres books) as (ranked & -> & Hperm & Hsorted & Hnd & Hkeys & Hitems).
  intros ([k n] & -> & Hg)%list_elem_of_fmap Hh Hout. simpl.
  assert (dict_key h ∈ dict_key <$> ranked.*1) as Hin
    by (apply Hkeys; by apply list_elem_of_fmap_2).
  apply list_elem_of_fmap in Hin as (k' & Hk' & ([k'' n'] & -> & Hin)%list_elem_of_fmap).
  simpl in Hk'.
  rewrite <- (take_drop 5 ranked) in Hin, Hsorted.
  apply elem_of_app in Hin as [Hin|Hin].
  - destruct Hout. rewrite Hk'. apply list_elem_of_fmap_2.
    apply list_elem_of_fmap. by exists (k'', n').
  - pose proof (StronglySorted_app_1_elem_of _ _ _ _ _ Hsorted Hg Hin) as Hle. simpl in Hle.
    apply subseteq_take, Hitems in Hg as [_ ->].
    apply subseteq_drop, Hitems in Hin as [_ ->].
    rewrite (occurrences_by_key books h k'') by done. lia.
Qed.

Lemma listed_genres_are_the_most_frequent_witness :
  JStr "Romance" ∈ most_popular_genres (shelf ++ [Scenario.anthology])
  ∧ JStr "Travel" ∈ genre_entries (shelf ++ [Scenario.anthology])
  ∧ (dict_key (JStr "Travel")
       ∉ dict_key <$> most_popular_genres (shelf ++ [Scenario.anthology]))
  ∧ occurrences (shelf ++ [Scenario.anthology]) (JStr "Travel")
    ≤ occurrences (shelf ++ [Scenario.anthology]) (JStr "Romance").
Proof.
  assert (JStr "Romance" ∈ most_popular_genres (shelf ++ [Scenario.anthology])) as Hg
    by (vm_compute; repeat first [apply list_elem_of_here | apply list_elem_of_further]).
  assert (JStr "Travel" ∈ genre_entries (shelf ++ [Scenario.anthology])) as Hh
    by (vm_compute; repeat first [apply list_elem_of_here | apply list_elem_of_further]).
  assert (dict_key (JStr "Travel")
            ∉ dict_key <$> most_popular_genres (shelf ++ [Scenario.anthology])) as Hout
    by (by apply (bool_decide_unpack _)).
  split; [exact Hg|]. split; [exact Hh|]. split; [exact Hout|].
  exact (listed_genres_are_the_most_frequent (shelf ++ [Scenario.anthology])
           (JStr "Romance") (JStr "Travel") Hg Hh Hout).
Defined.

(** * Registration *)

(** ** Text: [strip] and [lower] *)

Lemma append_cons c s t : String c s +:+ t = String c (s +:+ t).
Proof. reflexivity. Qed.

Lemma append_nil_r s : s +:+ EmptyString = s.
Proof. induction s as [|c s IH]; [done|]. by rewrite append_cons, IH. Qed.

Lemma append_assoc s t u : (s +:+ t) +:+ u = s +:+ (t +:+ u).
Proof. induction s as [|c s IH]; [done|]. by rewrite !append_cons, IH. Qed.

Lemma rev_app_append s t : String.rev_app s t = String.rev_app s EmptyString +:+ t.
Proof.
  revert t. induction s as [|c s IH]; intros t; simpl; [done|].
  rewrite (IH (String c t)), (IH (String c EmptyString)).
  by rewrite append_assoc.
Qed.

Lemma rev_cons c s : String.rev (String c s) = String.rev s +:+ String c EmptyString.
Proof. unfold String.rev. simpl. apply rev_app_append. Qed.

Lemma rev_append s t : String.rev (s +:+ t) = String.rev t +:+ String.rev s.
Proof.
  induction s as [|c s IH].
  - by rewrite append_nil_r.
  - by rewrite append_cons, !rev_cons, IH, append_assoc.
Qed.

Lemma rev_involutive s : String.rev (String.rev s) = s.
Proof.
  induction s as [|c s IH]; [done|]. by rewrite rev_cons, rev_append, IH.
Qed.

Lemma is_space_lower_char c : Py.is_space (Py.lower_char c) = Py.is_space c.
Proof. by destruct c as [[] [] [] [] [] [] [] []]. Qed.

Lemma lower_char_idemp c : Py.lower_char (Py.lower_char c) = Py.lower_char c.
Proof. by destruct c as [[] [] [] [] [] [] [] []]. Qed.

Lemma lower_idemp s : Py.lower (Py.lower s) = Py.lower s.
Proof. induction s as [|c s IH]; simpl; [done|]. by rewrite lower_char_idemp, IH. Qed.

Lemma lower_append s t : Py.lower (s +:+ t) = Py.lower s +:+ Py.lower t.
Proof.
  induction s as [|c s IH]; [done|]. rewrite append_cons. simpl.
  by rewrite append_cons, IH.
Qed.

Lemma lower_rev s : Py.lower (String.rev s) = String.rev (Py.lower s).
Proof.
  induction s as [|c s IH]; [done|]. simpl Py.lower.
  by rewrite !rev_cons, lower_append, IH.
Qed.

Lemma lower_lstrip s : Py.lower (Py.lstrip s) = Py.lstrip (Py.lower s).
Proof.
  induction s as [|c s IH]; [done|]. simpl.
  rewrite is_space_lower_char. by destruct (Py.is_space c).
Qed.

Lemma lower_strip s : Py.lower (Py.strip s) = Py.strip (Py.lower s).
Proof. unfold Py.strip. by rewrite lower_rev, lower_lstrip, lower_rev, lower_lstrip. Qed.

Lemma lstrip_length s : String.length (Py.lstrip s) ≤ String.length s.
Proof. induction s as [|c s IH]; simpl; [done|]. destruct (Py.is_space c); simpl; lia. Qed.

Lemma lstrip_idemp s : Py.lstrip (Py.lstrip s) = Py.lstrip s.
Proof.
  induction s as [|c s IH]; [done|]. simpl.
  destruct (Py.is_space c) eqn:Hc; [done|]. simpl. by rewrite Hc.
Qed.

(** A text that [lstrip] leaves alone does not start with a blank. *)
Lemma lstrip_fixed_append s t :
  Py.lstrip s = s → s ≠ EmptyString → Py.lstrip (s +:+ t) = s +:+ t.
Proof.
  destruct s as [|c s]; [done|]. simpl. intros Hs _.
  destruct (Py.is_space c); [|done].
  pose proof (lstrip_length s) as Hlen. rewrite Hs in Hlen. simpl in Hlen. lia.
Qed.

Lemma lstrip_fixed_prefix s t :
  Py.lstrip (s +:+ t) = s +:+ t → s ≠ EmptyString → Py.lstrip s = s.
Proof.
  destruct s as [|c s]; [done|]. simpl. intros Hs _.
  destruct (Py.is_space c); [|done].
  pose proof (lstrip_length (s +:+ t)) as Hlen. rewrite Hs in Hlen. simpl in Hlen. lia.
Qed.

Lemma lstrip_split s : ∃ blanks, s = blanks +:+ Py.lstrip s.
Proof.
  induction s as [|c s [blanks IH]]; [by exists EmptyString|]. simpl.
  destruct (Py.is_space c).
  - exists (String c blanks). by rewrite append_cons, <- IH.
  - by exists EmptyString.
Qed.

Lemma lstrip_strip s : Py.lstrip (Py.strip s) = Py.strip s.
Proof.
  unfold Py.strip. set (t := Py.lstrip s).
  assert (Py.lstrip t = t) as Ht by apply lstrip_idemp.
  destruct (lstrip_split (String.rev t)) as [blanks Hsplit].
  set (v := Py.lstrip (String.rev t)) in *.
  destruct (decide (String.rev v = EmptyString)) as [->|Hv]; [done|].
  apply (lstrip_fixed_prefix _ (String.rev blanks)); [|done].
  by rewrite <- rev_append, <- Hsplit, rev_involutive.
Qed.

Lemma strip_idemp s : Py.strip (Py.strip s) = Py.strip s.
Proof.
  unfold Py.strip at 1. rewrite lstrip_strip.
  unfold Py.strip. by rewrite rev_involutive, lstrip_idemp.
Qed.

Lemma rsplit_at_append sep s before after :
  rsplit_at sep s = Some (before, after) → s = before +:+ String sep after.
Proof.
  revert before. induction s as [|c s IH]; intros before; simpl; [done|].
  destruct (rsplit_at sep s) as [[b a]|].
  - intros [= <- <-]. rewrite append_cons. f_equal. by apply IH.
  - case_bool_decide; [|done]. intros [= <- <-]. by subst.
Qed.

Lemma rsplit_at_lower sep s before after :
  rsplit_at sep s = Some (before, after) → Py.lower s = s → Py.lower after = after.
Proof.
  revert before. induction s as [|c s IH]; intros before; simpl; [done|].
  intros Hsplit [= Hc Hs]. destruct (rsplit_at sep s) as [[b a]|].
  - simplify_eq. by eapply IH.
  - case_bool_decide; [|done]. by simplify_eq.
Qed.

(** [register_view] hands [create_user] an address that
    [normalize_email] does not change. *)
Lemma normalize_email_lower_strip s :
  normalize_email (Py.lower (Py.strip s)) = Py.lower (Py.strip s).
Proof.
  unfold normalize_email. rewrite <- lower_strip, strip_idemp.
  destruct (rsplit_at _ _) as [[email_name domain_part]|] eqn:Hsplit; [|done].
  rewrite (rsplit_at_lower _ _ _ _ Hsplit) by apply lower_idemp.
  symmetry. by apply rsplit_at_append.
Qed.

(** ** The view *)

Lemma register_view_success make_password db data saved db' user :
  register_view make_password db data saved = (db', Registered user) →
  let username := Py.strip (Py.or_else Py.str_falsy (reg_username data) EmptyString) in
  let email := Py.lower (Py.strip (Py.or_else Py.str_falsy (reg_email data) EmptyString)) in
  username ≠ EmptyString ∧ email ≠ EmptyString
  ∧ (email ∉ Account.email <$> accounts db)
  ∧ (username ∉ Account.username <$> accounts db)
  ∧ Account.id user = next_account_id db
  ∧ Account.email user = email
  ∧ Account.username user = username
  ∧ db' = mk_database (accounts db ++ [user]) (otps db) (next_otp_id db)
                      (next_account_id db + 1).
Proof.
  intros Hreg username email. unfold register_view in Hreg. cbv zeta in Hreg.
  fold username email in Hreg.
  destruct (Py.str_falsy username) eqn:Hu; [done|].
  destruct (Py.str_falsy email) eqn:He; [done|].
  destruct (Py.str_falsy (Py.or_else _ (reg_password data) _)); [done|].
  apply bool_decide_eq_false in Hu, He. simpl in Hreg.
  case_bool_decide as Hemail; [done|]. case_bool_decide as Husername; [done|].
  destruct saved; [|done]. simpl in Hreg. injection Hreg as <- <-. simpl.
  unfold email at 3 4. rewrite normalize_email_lower_strip. by repeat split.
Qed.

Lemma get_account_new db user otps' next_otp next_account :
  Account.email user ∉ Account.email <$> accounts db →
  get_account (mk_database (accounts db ++ [user]) otps' next_otp next_account)
              (Account.email user)
  = Some user.
Proof.
  intros Hnew. unfold get_account. simpl. rewrite filter_app.
  rewrite (filter_none _ (accounts db)).
  - by rewrite filter_cons_True.
  - intros u Hu Heq. apply Hnew. rewrite <- Heq. by apply list_elem_of_fmap_2.
Qed.

(** X24. Registration stores an address typed in ASCII stripped and in
    lower case, and this is the spelling under which the account is found
    afterwards: the lookup of the account views finds the new account by
    the address as it was typed exactly when it was typed in that form. *)
Theorem registered_address_is_stored_in_lower_case
    make_password db data saved db' user :
  register_view make_password db data saved = (db', Registered user) →
  let typed := Py.or_else Py.str_falsy (reg_email data) EmptyString in
  Py.isascii typed = true →
  Account.email user = Py.lower (Py.strip typed)
  ∧ get_account db' (Py.lower (Py.strip typed)) = Some user
  ∧ (get_account db' typed = Some user ↔ Py.lower (Py.strip typed) = typed).
Proof.
  intros (_ & _ & Hnew & _ & _ & Hemail & _ & ->)%register_view_success typed _.
  fold typed in Hnew, Hemail.
  assert (get_account (mk_database (accounts db ++ [user]) (otps db) (next_otp_id db)
                                   (next_account_id db + 1))
                      (Py.lower (Py.strip typed)) = Some user) as Hfound.
  { rewrite <- Hemail. apply get_account_new. by rewrite Hemail. }
  split; [done|]. split; [done|]. split.
  - intros [_ Htyped]%get_account_Some. congruence.
  - intros <-. exact Hfound.
Qed.

Lemma registered_address_is_stored_in_lower_case_witness :
  register_view Scenario.hasher Scenario.two_accounts Scenario.signup true
  = (Scenario.carol_registered, Registered Scenario.carol)
  ∧ Py.isascii " Carol@Example.org " = true
  ∧ Account.email Scenario.carol = "carol@example.org"
  ∧ get_account Scenario.carol_registered "carol@example.org" = Some Scenario.carol.
Proof.
  assert (register_view Scenario.hasher Scenario.two_accounts Scenario.signup true
          = (Scenario.carol_registered, Registered Scenario.carol)) as Hreg
    by (vm_compute; reflexivity).
  destruct (registered_address_is_stored_in_lower_case _ _ _ _ _ _ Hreg eq_refl)
    as (Hstored & Hfound & _).
  split; [exact Hreg|]. split; [reflexivity|]. split; [exact Hstored|exact Hfound].
Defined.

(** X25. An address typed with a capital letter, or with a blank around it,
    registers an account that a password reset asked for under the same
    spelling does not find: unless an older account has that very
    spelling, [forgot_password] answers that no account exists, and
    stores no OTP. *)
Theorem address_as_typed_is_not_found
    make_password db data saved db' user typed now created code mail_sent :
  register_view make_password db data saved = (db', Registered user) →
  reg_email data = Some typed →
  Py.lower (Py.strip typed) ≠ typed →
  typed ∉ Account.email <$> accounts db →
  forgot_password db' (Some typed) now created code mail_sent = (db', No_account_found).
Proof.
  intros Hreg Hdata Hform Hold.
  pose proof (register_view_success _ _ _ _ _ _ Hreg) as
    (_ & Hne & _ & _ & _ & Hemail & _ & ->).
  rewrite Hdata in Hne, Hemail. simpl in Hne, Hemail.
  assert (typed ≠ EmptyString) as Htyped by (by intros ->).
  unfold Py.or_else, Py.str_falsy in Hemail, Hne.
  rewrite (bool_decide_eq_false_2 _ Htyped) in Hemail, Hne.
  unfold forgot_password, Py.str_falsy. rewrite (bool_decide_eq_false_2 _ Htyped).
  assert (get_account (mk_database (accounts db ++ [user]) (otps db) (next_otp_id db)
                                   (next_account_id db + 1)) typed = None) as ->; [|done].
  unfold get_account. simpl. apply head_None, filter_none.
  intros u [Hu|Hu]%elem_of_app Heq.
  - apply Hold. rewrite <- Heq. by apply list_elem_of_fmap_2.
  - apply list_elem_of_singleton in Hu. subst u. congruence.
Qed.

Lemma address_as_typed_is_not_found_witness :
  register_view Scenario.hasher Scenario.two_accounts Scenario.signup true
  = (Scenario.carol_registered, Registered Scenario.carol)
  ∧ reg_email Scenario.signup = Some " Carol@Example.org "
  ∧ Py.lower (Py.strip " Carol@Example.org ") ≠ " Carol@Example.org "
  ∧ (" Carol@Example.org " ∉ Account.email <$> accounts Scenario.two_accounts)
  ∧ forgot_password Scenario.carol_registered (Some " Carol@Example.org ")
                    1000 1001 "123456" true
    = (Scenario.carol_registered, No_account_found).
Proof.
  assert (register_view Scenario.hasher Scenario.two_accounts Scenario.signup true
          = (Scenario.carol_registered, Registered Scenario.carol)) as Hreg
    by (vm_compute; reflexivity).
  assert (reg_email Scenario.signup = Some " Carol@Example.org ") as Hdata by reflexivity.
  assert (Py.lower (Py.strip " Carol@Example.org ") ≠ " Carol@Example.org ") as Hform
    by (vm_compute; discriminate).
  assert (" Carol@Example.org " ∉ Account.email <$> accounts Scenario.two_accounts) as Hold
    by (by apply (bool_decide_unpack _)).
  split; [exact Hreg|]. split; [exact Hdata|]. split; [exact Hform|]. split; [exact Hold|].
  exact (address_as_typed_is_not_found _ _ _ _ _ _ _ 1000%Z 1001%Z "123456" true
           Hreg Hdata Hform Hold).
Defined.

(** X26. Registration keeps the database consistent, whatever it answers:
    ids and addresses stay unique and behind their sequences; user names
    stay unique when they were; the accounts there were and all OTPs are
    left as they were. *)
Theorem registration_keeps_the_database_consistent make_password db data saved :
  consistent db →
  let db' := (register_view make_password db data saved).1 in
  consistent db'
  ∧ (NoDup (Account.username <$> accounts db) → NoDup (Account.username <$> accounts db'))
  ∧ accounts db `prefix_of` accounts db'
  ∧ otps db' = otps db.
Proof.
  intros Hdb db'.
  destruct (register_view make_password db data saved) as [db1 answer] eqn:Hreg.
  subst db'. simpl.
  assert ((∃ user, answer = Registered user) ∨ db1 = db) as [[user ->]| ->].
  { clear Hdb. unfold register_view in Hreg.
    repeat (destruct (_ : bool) in Hreg; simplify_eq/=; eauto). }
  - apply register_view_success in Hreg
      as (_ & _ & Hemail & Husername & Hid & Hmail & Hname & ->). simpl.
    destruct Hdb as [Hids Hissued Hemails Hotps Hoissued Hpos].
    split; [split; simpl|split; [|split]]; try done.
    + rewrite fmap_app. apply NoDup_app. split; [done|]. split; [|apply NoDup_singleton].
      intros i (u & -> & Hu)%list_elem_of_fmap Hi. simpl in Hi.
      apply list_elem_of_singleton in Hi. rewrite Forall_forall in Hissued.
      apply Hissued in Hu. lia.
    + apply Forall_app. split.
      * eapply Forall_impl; [exact Hissued|]. simpl. intros u. lia.
      * apply Forall_singleton. lia.
    + rewrite fmap_app. apply NoDup_app. split; [done|]. split; [|apply NoDup_singleton].
      intros e He Hnew. simpl in Hnew. apply list_elem_of_singleton in Hnew.
      subst e. by rewrite Hmail in He.
    + intros Hnames. rewrite fmap_app. apply NoDup_app. split; [done|].
      split; [|apply NoDup_singleton].
      intros e He Hnew. simpl in Hnew. apply list_elem_of_singleton in Hnew.
      subst e. by rewrite Hname in He.
    + by apply prefix_app_r.
  - done.
Qed.

Lemma registration_keeps_the_database_consistent_witness :
  consistent Scenario.two_accounts ∧ consistent Scenario.carol_registered.
Proof.
  split; [exact two_accounts_consistent|].
  exact (proj1 (registration_keeps_the_database_consistent Scenario.hasher
                  Scenario.two_accounts Scenario.signup true two_accounts_consistent)).
Defined.

(** X27. An address registers once: after a registration, every further
    registration under an address that differs from the first one only
    in the case of its letters or in the blanks around it is refused, and
    changes nothing. *)
Theorem an_address_registers_once
    make_password db data saved db' user make_password' data' saved' :
  register_view make_password db data saved = (db', Registered user) →
  Py.lower (Py.strip (Py.or_else Py.str_falsy (reg_email data') EmptyString))
  = Py.lower (Py.strip (Py.or_else Py.str_falsy (reg_email data) EmptyString)) →
  (register_view make_password' db' data' saved').1 = db'
  ∧ ((register_view make_password' db' data' saved').2 = Email_already_registered
     ∨ (register_view make_password' db' data' saved').2 = Missing_required_fields).
Proof.
  intros (_ & _ & _ & _ & _ & Hemail & _ & ->)%register_view_success Hsame.
  unfold register_view. rewrite Hsame, <- Hemail.
  destruct (_ || _); [by auto|].
  rewrite bool_decide_eq_true_2; [by auto|].
  simpl. rewrite fmap_app. apply elem_of_app. right. left.
Qed.

Lemma an_address_registers_once_witness :
  register_view Scenario.hasher Scenario.two_accounts Scenario.signup true
  = (Scenario.carol_registered, Registered Scenario.carol)
  ∧ Py.lower (Py.strip (Py.or_else Py.str_falsy (reg_email Scenario.second_signup)
                                   EmptyString))
    = Py.lower (Py.strip (Py.or_else Py.str_falsy (reg_email Scenario.signup) EmptyString))
  ∧ (register_view Scenario.hasher Scenario.carol_registered Scenario.second_signup true).1
    = Scenario.carol_registered
  ∧ ((register_view Scenario.hasher Scenario.carol_registered
                    Scenario.second_signup true).2 = Email_already_registered
     ∨ (register_view Scenario.hasher Scenario.carol_registered
                      Scenario.second_signup true).2 = Missing_required_fields).
Proof.
  assert (register_view Scenario.hasher Scenario.two_accounts Scenario.signup true
          = (Scenario.carol_registered, Registered Scenario.carol)) as Hreg
    by (vm_compute; reflexivity).
  assert (Py.lower (Py.strip (Py.or_else Py.str_falsy (reg_email Scenario.second_signup)
                                         EmptyString))
          = Py.lower (Py.strip (Py.or_else Py.str_falsy (reg_email Scenario.signup)
                                           EmptyString))) as Hsame
    by (vm_compute; reflexivity).
  split; [exact Hreg|]. split; [exact Hsame|].
  exact (an_address_registers_once Scenario.hasher Scenario.two_accounts Scenario.signup true
           Scenario.carol_registered Scenario.carol Scenario.hasher Scenario.second_signup
           true Hreg Hsame).
Defined.
